(** * tspl: 1bpp packed images and the TSPL BITMAP codec

    A shallow embedding of [bin-img/img.go] (package [bin_img]) and
    [tspl.go] (package [tspl]), and the properties of the two that the
    specification states.

    Conventions of the embedding
    - Go's [int] is the 64-bit two's-complement integer: a [Z] on which
      every [+], [-] and [*] of the source is followed by [wrap].  [/] and
      [%] truncate towards zero ([Z.quot], [Z.rem]).
    - a [byte] is a [Z] in [0, 256); a [[]byte] is a [list Z].
    - a run-time fault (index out of range, slice bounds out of range,
      makeslice: len out of range) is the outcome [Panic]; an [error]
      value returned by the source is [Err e].
    - in-place mutation of a [*Binary] is state passing: an operation
      returns the image it leaves behind.  The one place where the
      identity of a buffer matters ([OverlayBinary], which must write to a
      copy) runs over an explicit store of backing arrays. *)

From Stdlib Require Import ZArith Lia Bool String Ascii.
From stdpp Require Import base tactics option list gmap.

Local Open Scope Z_scope.

(** ** Outcomes *)

(** The [error] values the two packages construct, one constructor per
    [errors.New] / [fmt.Errorf] site, carrying the numbers the message
    prints.  [EScan] stands for the error [fmt.Sscanf] returned. *)
Inductive scan_error : Type :=
| ScanUnexpectedEOF
| ScanUnexpectedNewline
| ScanNoMatch
| ScanExpectedSpace
| ScanNewlineInInput
| ScanExpectedInteger
| ScanOutOfRange.

Inductive error : Type :=
| EInvalidDimensions                       (* "binimg: invalid dimensions" *)
| EWidthNotMultipleOf8                     (* "binimg: width must be a multiple of 8" *)
| ENotABitmapLine                          (* "not a BITMAP line" *)
| EInvalidBitmapFormat                     (* "invalid BITMAP format" *)
| EScan (e : scan_error)                   (* the error of fmt.Sscanf *)
| EInvalidImageSize (width height : Z)     (* "invalid image size got width: %d, height: %d" *)
| EOverlayNil                              (* "overlay is nil" *)
| ENegativeOffset                          (* "xOff/yOff must be >= 0" *)
| EBaseEmpty                               (* "base is empty" *)
| EBaseTooShort (need got : Z)             (* "base body too short: need %d bytes, got %d" *)
| EInvalidOverlaySize (w h : Z)            (* "invalid overlay size: %dx%d" *)
| EOverlayOutOfBounds (baseW baseH ovW ovH xOff yOff : Z).
                                           (* "overlay out of bounds: base=%dx%d, ..." *)

Inductive result (A : Type) : Type :=
| Ok (a : A)
| Err (e : error)
| Panic.
Arguments Ok {A} a.
Arguments Err {A} e.
Arguments Panic {A}.

Definition bind {A B : Type} (m : result A) (k : A -> result B) : result B :=
  match m with
  | Ok a => k a
  | Err e => Err e
  | Panic => Panic
  end.

Notation "x <- m ;; k" := (bind m (fun x => k))
  (at level 100, m at level 99, k at level 200, right associativity).

(** ** Machine integers *)

Definition wrap (z : Z) : Z := (z + 2 ^ 63) mod 2 ^ 64 - 2 ^ 63.

Definition iadd (a b : Z) : Z := wrap (a + b).
Definition isub (a b : Z) : Z := wrap (a - b).
Definition imul (a b : Z) : Z := wrap (a * b).

Infix "+i" := iadd (at level 50, left associativity).
Infix "-i" := isub (at level 50, left associativity).
Infix "*i" := imul (at level 40, left associativity).

(** [uint(x)], [uint32] arithmetic and [uint8(x)] / [byte(x)].  A sum of
    products taken in [uint32] is the [u32] of the exact sum. *)
Definition to_uint (x : Z) : Z := x mod 2 ^ 64.
Definition u32 (x : Z) : Z := x mod 2 ^ 32.
Definition u8 (x : Z) : Z := x mod 2 ^ 8.

(** ** Slices of bytes *)

(** [make([]byte, n)]: the run time refuses a negative length and one
    above its allocation limit (2^48 bytes on linux/amd64); memory
    exhaustion below that limit is not modelled. *)
Definition maxAlloc : Z := 2 ^ 48.

Definition make_bytes (n : Z) : result (list Z) :=
  if (n <? 0) || (maxAlloc <? n) then Panic
  else Ok (replicate (Z.to_nat n) 0).

Definition len {A : Type} (l : list A) : Z := Z.of_nat (length l).

(** [l[i]] as an rvalue. *)
Definition index {A : Type} (l : list A) (i : Z) : result A :=
  if i <? 0 then Panic
  else match l !! Z.to_nat i with
       | Some a => Ok a
       | None => Panic
       end.

(** [l[i] = v]. *)
Definition assign {A : Type} (l : list A) (i : Z) (v : A) : result (list A) :=
  if (0 <=? i) && (i <? len l) then Ok (<[Z.to_nat i := v]> l) else Panic.

(** [l[lo:hi]] taken as a window into [l]: the source writes through such
    windows, so the window is kept as its bounds and every access goes to
    the one underlying list.  (A slice's capacity is its length here.) *)
Record window : Type := { w_lo : Z; w_len : Z }.

Definition reslice {A : Type} (l : list A) (lo hi : Z) : result window :=
  if (0 <=? lo) && (lo <=? hi) && (hi <=? len l)
  then Ok {| w_lo := lo; w_len := hi - lo |}
  else Panic.

Definition win_get {A : Type} (l : list A) (v : window) (i : Z) : result A :=
  if (0 <=? i) && (i <? w_len v) then index l (w_lo v + i) else Panic.

Definition win_set {A : Type} (l : list A) (v : window) (i : Z) (x : A)
  : result (list A) :=
  if (0 <=? i) && (i <? w_len v) then assign l (w_lo v + i) x else Panic.

(** ** Counted loops

    [for i := lo; i < hi; i++ { s = body(i, s) }]; a fault or error in the
    body leaves the loop. *)
Fixpoint loop {S : Type} (n : nat) (i : Z) (body : Z -> S -> result S) (s : S)
  : result S :=
  match n with
  | O => Ok s
  | S n' => s' <- body i s ;; loop n' (i + 1) body s'
  end.

Definition for_range {S : Type} (lo hi : Z) (body : Z -> S -> result S) (s : S)
  : result S :=
  loop (Z.to_nat (hi - lo)) lo body s.

(** ASCII text as bytes. *)
Fixpoint bytes (s : string) : list Z :=
  match s with
  | EmptyString => []
  | String c s' => Z.of_N (N_of_ascii c) :: bytes s'
  end.

(** ** Package image (standard library): rectangles and colours *)

Module image.

Record Rectangle : Type := { MinX : Z; MinY : Z; MaxX : Z; MaxY : Z }.

(** [image.Rect(x0, y0, x1, y1)] orders its corners. *)
Definition Rect (x0 y0 x1 y1 : Z) : Rectangle :=
  let '(x0, x1) := if x1 <? x0 then (x1, x0) else (x0, x1) in
  let '(y0, y1) := if y1 <? y0 then (y1, y0) else (y0, y1) in
  {| MinX := x0; MinY := y0; MaxX := x1; MaxY := y1 |}.

Definition Dx (r : Rectangle) : Z := MaxX r -i MinX r.
Definition Dy (r : Rectangle) : Z := MaxY r -i MinY r.

(** [image.Pt(x, y).In(r)]. *)
Definition In (x y : Z) (r : Rectangle) : bool :=
  (MinX r <=? x) && (x <? MaxX r) && (MinY r <=? y) && (y <? MaxY r).

Definition Empty (r : Rectangle) : bool :=
  (MaxX r <=? MinX r) || (MaxY r <=? MinY r).

Definition ZR : Rectangle := {| MinX := 0; MinY := 0; MaxX := 0; MaxY := 0 |}.

Definition Intersect (r s : Rectangle) : Rectangle :=
  let r' := {| MinX := if MinX r <? MinX s then MinX s else MinX r;
               MinY := if MinY r <? MinY s then MinY s else MinY r;
               MaxX := if MaxX s <? MaxX r then MaxX s else MaxX r;
               MaxY := if MaxY s <? MaxY r then MaxY s else MaxY r |} in
  if Empty r' then ZR else r'.

(** What [color.Color.RGBA()] returns: four [uint32]. *)
Record RGBA : Type := { R : Z; G : Z; B : Z; A : Z }.

(** [color.Gray{Y}.RGBA()]. *)
Definition Gray (y : Z) : RGBA :=
  let v := Z.lor y (Z.shiftl y 8) in
  {| R := v; G := v; B := v; A := 65535 |}.

(** An [image.Image] other than a [*Binary]: its bounds and its [At]. *)
Record Source : Type := { Bounds : Rectangle; At : Z -> Z -> RGBA }.

End image.

(** [math/bits.Reverse8]: the byte with the bit order reversed (a table
    look-up in the library). *)
Definition Reverse8 (x : Z) : Z :=
  let b (k : Z) := if Z.testbit x k then Z.shiftl 1 (7 - k) else 0 in
  b 0 + b 1 + b 2 + b 3 + b 4 + b 5 + b 6 + b 7.

(** ** Package bin_img *)

Module bin_img.
Import image.

Record Binary : Type := { Pix : list Z; Stride : Z; Rect : Rectangle }.

Definition with_Pix (b : Binary) (pix : list Z) : Binary :=
  {| Pix := pix; Stride := Stride b; Rect := Rect b |}.

Definition NewBinary (w h : Z) : result Binary :=
  if (w <=? 0) || (h <=? 0) then Err EInvalidDimensions
  else if negb (Z.rem w 8 =? 0) then Err EWidthNotMultipleOf8
  else
    let stride := Z.quot w 8 in
    pix <- make_bytes (stride *i h) ;;
    Ok {| Pix := pix; Stride := stride; Rect := image.Rect 0 0 w h |}.

Definition Bounds (b : Binary) : Rectangle := Rect b.

Definition pixOffset (b : Binary) (x y : Z) : Z :=
  ((y -i MinY (Rect b)) *i Stride b) +i Z.quot (x -i MinX (Rect b)) 8.

(** [byte(0x80 >> (uint(x) & 7))] *)
Definition mask (x : Z) : Z := u8 (Z.shiftr 128 (Z.land (to_uint x) 7)).

Definition bit (b : Binary) (x y : Z) : result bool :=
  v <- index (Pix b) (pixOffset b x y) ;;
  Ok (negb (Z.land v (mask x) =? 0)).

Definition setBit (b : Binary) (x y : Z) (on : bool) : result Binary :=
  let i := pixOffset b x y in
  v <- index (Pix b) i ;;
  pix <- assign (Pix b) i (if on then Z.lor v (mask x) else Z.ldiff v (mask x)) ;;
  Ok (with_Pix b pix).

Definition SetOn (b : Binary) (x y : Z) : result Binary := setBit b x y true.
Definition SetOff (b : Binary) (x y : Z) : result Binary := setBit b x y false.

Definition IsWhite (b : Binary) (x y : Z) : result bool := bit b x y.

Definition IsBlack (b : Binary) (x y : Z) : result bool :=
  v <- bit b x y ;; Ok (negb v).

(** [At]: the bounds test comes first. *)
Definition At (b : Binary) (x y : Z) : result RGBA :=
  if negb (In x y (Rect b)) then Ok (Gray 0)
  else v <- bit b x y ;; Ok (if v then Gray 255 else Gray 0).

(** [BinaryModel.Convert(c)], as the [Y] of the [color.Gray] it returns. *)
Definition BinaryModel (c : RGBA) : Z :=
  if A c =? 0 then 0
  else
    let y := Z.quot (u32 (299 * R c + 587 * G c + 114 * B c)) 1000 in
    if 32768 <=? y then 255 else 0.

(** [Set] of the source ([Set] is reserved in Rocq). *)
Definition Set_ (b : Binary) (x y : Z) (c : RGBA) : result Binary :=
  if negb (In x y (Rect b)) then Ok b
  else setBit b x y (128 <=? BinaryModel c).

Definition SubImage (b : Binary) (r : Rectangle) : result Binary :=
  let r := Intersect r (Rect b) in
  if Empty r then Ok {| Pix := []; Stride := 0; Rect := r |}
  else
    let off := pixOffset b (MinX r) (MinY r) in
    if (0 <=? off) && (off <=? len (Pix b))
    then Ok {| Pix := drop (Z.to_nat off) (Pix b); Stride := Stride b; Rect := r |}
    else Panic.

Definition Fill (b : Binary) (on : bool) : Binary :=
  with_Pix b (replicate (length (Pix b)) (if on then 255 else 0)).

(** The on/off decision of the method [FromGrayThreshold] for one source
    pixel: [a == 0] gives off, otherwise
    [uint8(((299*r + 587*g + 114*bl) / 1000) >> 8) >= thresh], in [uint32]. *)
Definition luma8 (c : RGBA) : Z :=
  u8 (Z.shiftr (Z.quot (u32 (299 * R c + 587 * G c + 114 * B c)) 1000) 8).

Definition threshold_on (c : RGBA) (thresh : Z) : bool :=
  if A c =? 0 then false else thresh <=? luma8 c.

(** The method [(b *Binary) FromGrayThreshold(src, thresh)]. *)
Definition Binary_FromGrayThreshold (b : Binary) (src : Source) (thresh : Z)
  : result Binary :=
  let bounds := Rect b in
  pix <- for_range (MinY bounds) (MaxY bounds) (fun y pix =>
    row <- reslice pix ((y -i MinY bounds) *i Stride b)
                       ((y -i MinY bounds +i 1) *i Stride b) ;;
    pix <- for_range 0 (w_len row) (fun i pix => win_set pix row i 0) pix ;;
    for_range (MinX bounds) (MaxX bounds) (fun x pix =>
      if threshold_on (image.At src x y) thresh then
        let i := Z.shiftr (x -i MinX bounds) 3 in
        v <- win_get pix row i ;;
        win_set pix row i (Z.lor v (mask x))
      else Ok pix) pix) (Pix b) ;;
  Ok (with_Pix b pix).

(** The function [FromGrayThreshold(src, thresh)]. *)
Definition FromGrayThreshold (src : Source) (thresh : Z) : result Binary :=
  b <- NewBinary (Dx (image.Bounds src)) (Dy (image.Bounds src)) ;;
  Binary_FromGrayThreshold b src thresh.

(** One exchange of the general path of [Rotate180]. *)
Definition swapBits (b : Binary) (x1 y1 x2 y2 : Z) : result Binary :=
  b1 <- bit b x1 y1 ;;
  b2 <- bit b x2 y2 ;;
  b' <- setBit b x1 y1 b2 ;;
  setBit b' x2 y2 b1.

(** The general path: mirrored pixels are exchanged one by one. *)
Definition rotate_general (b : Binary) (w h : Z) : result Binary :=
  let minX := MinX (Rect b) in
  let minY := MinY (Rect b) in
  b <- for_range 0 (Z.quot h 2) (fun y b =>
    let y1 := minY +i y in
    let y2 := minY +i (h -i 1 -i y) in
    for_range 0 w (fun x b =>
      swapBits b (minX +i x) y1 (minX +i (w -i 1 -i x)) y2) b) b ;;
  if Z.rem h 2 =? 1 then
    let y := minY +i Z.quot h 2 in
    for_range 0 (Z.quot w 2) (fun x b =>
      swapBits b (minX +i x) y (minX +i (w -i 1 -i x)) y) b
  else Ok b.

(** The fast path: rows are exchanged, bytes reversed in order and in bits. *)
Definition rotate_fast (b : Binary) (h rowBytes : Z) : result Binary :=
  pix <- for_range 0 (Z.quot h 2) (fun y pix =>
    let off1 := y *i Stride b in
    let off2 := (h -i 1 -i y) *i Stride b in
    row1 <- reslice pix off1 (off1 +i rowBytes) ;;
    row2 <- reslice pix off2 (off2 +i rowBytes) ;;
    for_range 0 rowBytes (fun i pix =>
      let j := rowBytes -i 1 -i i in
      a <- win_get pix row1 i ;;
      c <- win_get pix row2 j ;;
      pix <- win_set pix row1 i (Reverse8 c) ;;
      win_set pix row2 j (Reverse8 a)) pix) (Pix b) ;;
  pix <-
    (if Z.rem h 2 =? 1 then
       let off := Z.quot h 2 *i Stride b in
       row <- reslice pix off (off +i rowBytes) ;;
       pix <- for_range 0 (Z.quot rowBytes 2) (fun i pix =>
         let j := rowBytes -i 1 -i i in
         a <- win_get pix row i ;;
         c <- win_get pix row j ;;
         pix <- win_set pix row i (Reverse8 c) ;;
         win_set pix row j (Reverse8 a)) pix ;;
       if Z.rem rowBytes 2 =? 1 then
         let mid := Z.quot rowBytes 2 in
         m <- win_get pix row mid ;;
         win_set pix row mid (Reverse8 m)
       else Ok pix
     else Ok pix) ;;
  Ok (with_Pix b pix).

Definition Rotate180 (b : Binary) : result Binary :=
  let w := Dx (Rect b) in
  let h := Dy (Rect b) in
  if (w <=? 1) && (h <=? 1) then Ok b
  else
    let rowBytes := Z.shiftr (w +i 7) 3 in
    if rowBytes <=? 0 then Ok b
    else if negb (Z.land (MinX (Rect b)) 7 =? 0) || negb (Z.land w 7 =? 0)
    then rotate_general b w h
    else rotate_fast b h rowBytes.

(** *** [ToPaletted], and [image.Paletted] (standard library) as far as
    [ToPaletted] and its reader need it *)

Record Paletted : Type :=
  { PPix : list Z; PStride : Z; PRect : Rectangle; Palette : list RGBA }.

Definition with_PPix (p : Paletted) (pix : list Z) : Paletted :=
  {| PPix := pix; PStride := PStride p; PRect := PRect p; Palette := Palette p |}.

(** [mul3NonNeg]: the product, or -1 when an argument is negative or the
    product does not fit a non-negative [int]. *)
Definition mul3NonNeg (x y z : Z) : Z :=
  if (x <? 0) || (y <? 0) || (z <? 0) then -1
  else if 2 ^ 64 <=? x * y then -1
  else if 2 ^ 64 <=? x * y * z then -1
  else if 2 ^ 63 <=? x * y * z then -1
  else x * y * z.

(** [image.NewPaletted(r, p)]: one byte a pixel; a rectangle with a
    negative side or too many pixels is a fault. *)
Definition NewPaletted (r : Rectangle) (p : list RGBA) : result Paletted :=
  let n := mul3NonNeg 1 (Dx r) (Dy r) in
  if n <? 0 then Panic
  else
    pix <- make_bytes n ;;
    Ok {| PPix := pix; PStride := 1 *i Dx r; PRect := r; Palette := p |}.

Definition PixOffset (p : Paletted) (x y : Z) : Z :=
  (y -i MinY (PRect p)) *i PStride p +i (x -i MinX (PRect p)) *i 1.

Definition SetColorIndex (p : Paletted) (x y idx : Z) : result Paletted :=
  if negb (In x y (PRect p)) then Ok p
  else pix <- assign (PPix p) (PixOffset p x y) idx ;; Ok (with_PPix p pix).

Definition ColorIndexAt (p : Paletted) (x y : Z) : result Z :=
  if negb (In x y (PRect p)) then Ok 0
  else index (PPix p) (PixOffset p x y).

(** The method [At] of [Paletted]: [None] is the nil colour of an empty
    palette. *)
Definition Paletted_At (p : Paletted) (x y : Z) : result (option RGBA) :=
  match Palette p with
  | [] => Ok None
  | c0 :: _ =>
      if negb (In x y (PRect p)) then Ok (Some c0)
      else
        i <- index (PPix p) (PixOffset p x y) ;;
        c <- index (Palette p) i ;;
        Ok (Some c)
  end.

Definition ToPaletted (b : Binary) : result Paletted :=
  p <- NewPaletted (Rect b) [Gray 0; Gray 255] ;;
  let bounds := Rect b in
  for_range (MinY bounds) (MaxY bounds) (fun y p =>
    for_range (MinX bounds) (MaxX bounds) (fun x p =>
      v <- bit b x y ;;
      if v then SetColorIndex p x y 1 else SetColorIndex p x y 0) p) p.

End bin_img.

(** ** Package fmt (standard library): what the two format strings do *)

Module fmt.

(** [%d] of an [int]: decimal digits, most significant first, after a
    minus sign for a negative number. *)
Fixpoint digits (fuel : nat) (u : Z) (acc : list Z) : list Z :=
  match fuel with
  | O => acc
  | S f =>
      if u <? 10 then (48 + u) :: acc
      else digits f (Z.quot u 10) ((48 + Z.rem u 10) :: acc)
  end.

Definition fmt_d (n : Z) : list Z :=
  if n <? 0 then 45 :: digits 20 (- n) [] else digits 20 n [].

(** The scanner reads runes: [utf8.DecodeRune] on the pending input.  An
    invalid or truncated encoding is U+FFFD and one byte wide. *)
Definition between (b lo hi : Z) : bool := (lo <=? b) && (b <=? hi).

Definition decodeRune (p : list Z) : option (Z * list Z) :=
  match p with
  | [] => None
  | p0 :: t =>
      let bad := Some (65533, t) in
      if p0 <? 128 then Some (p0, t)
      else if (p0 <? 194) || (244 <? p0) then bad
      else
        let '(size, lo, hi) :=
          if p0 <? 224 then (2, 128, 191)
          else if p0 =? 224 then (3, 160, 191)
          else if p0 =? 237 then (3, 128, 159)
          else if p0 <? 240 then (3, 128, 191)
          else if p0 =? 240 then (4, 144, 191)
          else if p0 =? 244 then (4, 128, 143)
          else (4, 128, 191) in
        match t with
        | [] => bad
        | b1 :: t1 =>
            if negb (between b1 lo hi) then bad
            else if size =? 2
            then Some (Z.lor (Z.shiftl (Z.land p0 31) 6) (Z.land b1 63), t1)
            else
              match t1 with
              | [] => bad
              | b2 :: t2 =>
                  if negb (between b2 128 191) then bad
                  else if size =? 3
                  then Some (Z.lor (Z.shiftl (Z.land p0 15) 12)
                               (Z.lor (Z.shiftl (Z.land b1 63) 6) (Z.land b2 63)), t2)
                  else
                    match t2 with
                    | [] => bad
                    | b3 :: t3 =>
                        if negb (between b3 128 191) then bad
                        else Some (Z.lor (Z.shiftl (Z.land p0 7) 18)
                                     (Z.lor (Z.shiftl (Z.land b1 63) 12)
                                        (Z.lor (Z.shiftl (Z.land b2 63) 6)
                                           (Z.land b3 63))), t3)
                    end
              end
        end
  end.

(** [isSpace] of package fmt. *)
Definition isSpace (r : Z) : bool :=
  between r 9 13 || (r =? 32) || (r =? 133) || (r =? 160) || (r =? 5760)
  || between r 8192 8202 || between r 8232 8233 || (r =? 8239)
  || (r =? 8287) || (r =? 12288).

Definition isDigit (r : Z) : bool := between r 48 57.

Inductive scanned (A : Type) : Type :=
| Scanned (a : A) (rest : list Z)
| ScanFail (e : scan_error).
Arguments Scanned {A} a rest.
Arguments ScanFail {A} e.

(** [SkipSpace] under [Sscanf]: a newline is not space there.  Every turn
    takes at least one byte, so the length of the input bounds the turns. *)
Fixpoint SkipSpace_loop (fuel : nat) (inp : list Z) : scanned unit :=
  match fuel with
  | O => Scanned tt inp
  | S f =>
      match decodeRune inp with
      | None => Scanned tt inp
      | Some (r, rest) =>
          if r =? 10 then ScanFail ScanUnexpectedNewline
          else if isSpace r then SkipSpace_loop f rest
          else Scanned tt inp
      end
  end.

Definition SkipSpace (inp : list Z) : scanned unit :=
  SkipSpace_loop (length inp) inp.

(** A literal rune of the format. *)
Definition literal (c : Z) (inp : list Z) : scanned unit :=
  match decodeRune inp with
  | None => ScanFail ScanUnexpectedEOF
  | Some (r, rest) => if r =? c then Scanned tt rest else ScanFail ScanNoMatch
  end.

(** A space of the format that follows no newline: at least one space (or
    the end of the input), then any more spaces; a newline is refused. *)
Fixpoint spaces_loop (fuel : nat) (inp : list Z) : list Z :=
  match fuel with
  | O => inp
  | S f =>
      match decodeRune inp with
      | None => inp
      | Some (r, rest) =>
          if isSpace r && negb (r =? 10) then spaces_loop f rest else inp
      end
  end.

Definition format_space (inp : list Z) : scanned unit :=
  match decodeRune inp with
  | None => Scanned tt inp
  | Some (r, rest) =>
      if negb (isSpace r) then ScanFail ScanExpectedSpace
      else if r =? 10 then ScanFail ScanNewlineInInput
      else Scanned tt (spaces_loop (length rest) rest)
  end.

(** The longest run of decimal digits at the head of the input. *)
Fixpoint scanNumber (inp : list Z) : list Z * list Z :=
  match inp with
  | c :: rest =>
      if isDigit c then let '(tok, rest') := scanNumber rest in (c :: tok, rest')
      else ([], inp)
  | [] => ([], [])
  end.

Definition digits_value (tok : list Z) : Z :=
  fold_left (fun n c => 10 * n + (c - 48)) tok 0.

(** The verb [%d] into an [int]: spaces, an optional sign, digits, and
    [strconv.ParseInt(tok, 10, 64)] on the token. *)
Definition scanInt (inp : list Z) : scanned Z :=
  match SkipSpace inp with
  | ScanFail e => ScanFail e
  | Scanned _ inp =>
      match inp with
      | [] => ScanFail ScanUnexpectedEOF
      | c :: rest =>
          let '(neg, inp) :=
            if c =? 45 then (true, rest)
            else if c =? 43 then (false, rest)
            else (false, inp) in
          match inp with
          | [] => ScanFail ScanUnexpectedEOF
          | _ =>
              let '(tok, rest) := scanNumber inp in
              match tok with
              | [] => ScanFail ScanExpectedInteger
              | _ =>
                  let v := digits_value tok in
                  if neg
                  then if 2 ^ 63 <? v then ScanFail ScanOutOfRange
                       else Scanned (- v) rest
                  else if 2 ^ 63 <=? v then ScanFail ScanOutOfRange
                       else Scanned v rest
              end
          end
      end
  end.

Definition sbind {A B : Type} (m : scanned A) (k : A -> list Z -> scanned B)
  : scanned B :=
  match m with
  | Scanned a rest => k a rest
  | ScanFail e => ScanFail e
  end.

(** [%d] inside a format: [doScanf] skips space, then [scanInt]. *)
Definition verb_d (inp : list Z) : scanned Z :=
  sbind (SkipSpace inp) (fun _ inp => scanInt inp).

(** [fmt.Sscanf(string(body), "BITMAP %d,%d,%d,%d,%d,", &x, &y, &rowBytes,
    &height, &mode)]: the five numbers, or the error. *)
Definition Sscanf_BITMAP (body : list Z) : scanned (Z * Z * Z * Z * Z) :=
  sbind (literal 66 body) (fun _ inp =>
  sbind (literal 73 inp) (fun _ inp =>
  sbind (literal 84 inp) (fun _ inp =>
  sbind (literal 77 inp) (fun _ inp =>
  sbind (literal 65 inp) (fun _ inp =>
  sbind (literal 80 inp) (fun _ inp =>
  sbind (format_space inp) (fun _ inp =>
  sbind (verb_d inp) (fun x inp =>
  sbind (literal 44 inp) (fun _ inp =>
  sbind (verb_d inp) (fun y inp =>
  sbind (literal 44 inp) (fun _ inp =>
  sbind (verb_d inp) (fun rowBytes inp =>
  sbind (literal 44 inp) (fun _ inp =>
  sbind (verb_d inp) (fun height inp =>
  sbind (literal 44 inp) (fun _ inp =>
  sbind (verb_d inp) (fun mode inp =>
  sbind (literal 44 inp) (fun _ rest =>
  Scanned (x, y, rowBytes, height, mode) rest))))))))))))))))).

End fmt.

(** ** Package tspl *)

Module tspl.
Import image.

Record Options : Type := { Peel : bool }.

Definition DefaultOptions : Options := {| Peel := false |}.

Section Header.

(** [fmt.Sprintf("%.1f", float64(a)/float64(b))]: floating point is outside
    this development, the text it prints is a parameter. *)
Variable size_text : Z -> Z -> list Z.

Definition Header (w h dpm : Z) (opt : Options) : list Z :=
  let dpm := if dpm =? 0 then 8 else dpm in
  let peel := if Peel opt then bytes "ON" else bytes "OFF" in
  bytes "SET CUTTER OFF" ++ [13; 10] ++ bytes "SET PARTICAL_CUTTER OFF" ++ [13; 10]
  ++ bytes "SET PEEL " ++ peel ++ [13; 10]
  ++ bytes "SIZE " ++ size_text w dpm ++ bytes " mm, " ++ size_text h dpm
  ++ bytes " mm" ++ [13; 10] ++ bytes "CLS" ++ [13; 10].

End Header.

(** The dynamic type of the [image.Image] handed to the encoder. *)
Inductive Img : Type :=
| IsBinary (b : bin_img.Binary)
| NotBinary (src : Source).

(** [copy(dst, src)] *)
Definition copy (dst src : list Z) : list Z :=
  let n := Nat.min (length dst) (length src) in
  take n src ++ drop n dst.

(** [byte(1 << k)]; a negative shift count is a fault. *)
Definition bit_at (k : Z) : result Z :=
  if k <? 0 then Panic else Ok (u8 (Z.shiftl 1 k)).

(** [(v >> k) & 1] *)
Definition bit_of (v k : Z) : result Z :=
  if k <? 0 then Panic else Ok (Z.land (Z.shiftr v k) 1).

Definition bitmap_header (rowBytes height : Z) : list Z :=
  bytes "BITMAP 0,0," ++ fmt.fmt_d rowBytes ++ bytes "," ++ fmt.fmt_d height
  ++ bytes ",1,".

Definition Image2Bytes (img : Img) : result (Z * list Z) :=
  bwImg <- match img with
           | IsBinary b => Ok b
           | NotBinary src => bin_img.FromGrayThreshold src 151
           end ;;
  let bounds := bin_img.Bounds bwImg in
  let width := Dx bounds in
  let height := Dy bounds in
  let rowBytes := Z.quot (width +i 7) 8 in
  let header := bitmap_header rowBytes height in
  let headerSize := len header in
  bitmap <- make_bytes (headerSize +i rowBytes *i height) ;;
  let bitmap := copy bitmap header in
  bitmap <- for_range 0 height (fun y bitmap =>
    for_range 0 width (fun x bitmap =>
      white <- bin_img.IsWhite bwImg x y ;;
      if white then
        let byteIndex := headerSize +i y *i rowBytes +i Z.quot x 8 in
        let bitIndex := 7 -i Z.rem x 8 in
        v <- index bitmap byteIndex ;;
        m <- bit_at bitIndex ;;
        assign bitmap byteIndex (Z.lor v m)
      else Ok bitmap) bitmap) bitmap ;;
  Ok (headerSize, bitmap).

Section Encode.
Variable size_text : Z -> Z -> list Z.

Definition Encode (w h dpm : Z) (img : Img) (opt : Options) : result (list Z) :=
  r <- Image2Bytes img ;;
  let bitmap := snd r in
  let header := Header size_text w h dpm opt in
  let tail := bytes "PRINT 1,1" ++ [13; 10] in
  Ok (header ++ bitmap ++ tail).

End Encode.

Record Image : Type :=
  { Header_ : list Z; Bitmap : bin_img.Binary; Tail : list Z }.

Record BitmapHeader : Type :=
  { RowBytes : Z; Width : Z; Height : Z; HeaderEnd : Z }.

(** [bytes.HasPrefix] *)
Fixpoint HasPrefix (s prefix : list Z) : bool :=
  match prefix, s with
  | [], _ => true
  | p :: prefix', c :: s' => (c =? p) && HasPrefix s' prefix'
  | _ :: _, [] => false
  end.

(** The comma loop of [ParseBitmapHeader]: the index of the fifth comma, or
    -1 when the buffer ends first. *)
Fixpoint fifth_comma (body : list Z) (i commaCount : Z) : Z :=
  match body with
  | [] => -1
  | b :: body' =>
      if b =? 44 then
        let commaCount := commaCount +i 1 in
        if commaCount =? 5 then i else fifth_comma body' (i + 1) commaCount
      else fifth_comma body' (i + 1) commaCount
  end.

Definition ParseBitmapHeader (body : list Z) : result BitmapHeader :=
  if HasPrefix body (bytes "BITMAP") then
    let headerEnd := fifth_comma body 0 0 in
    if headerEnd =? -1 then Err EInvalidBitmapFormat
    else
      let headerEnd := headerEnd +i 1 in
      match fmt.Sscanf_BITMAP body with
      | fmt.ScanFail e => Err (EScan e)
      | fmt.Scanned (x, y, rowBytes, height, mode) _ =>
          Ok {| RowBytes := rowBytes; Width := rowBytes *i 8;
                Height := height; HeaderEnd := headerEnd |}
      end
  else Err ENotABitmapLine.

(** [setBitmapBit], passing the contents of [body]. *)
Definition setBitmapBit (body : list Z) (headerEnd rowBytes x y bit : Z)
  : result (list Z) :=
  let byteIndex := headerEnd +i y *i rowBytes +i Z.quot x 8 in
  let bitIndex := 7 -i Z.rem x 8 in
  mask <- bit_at bitIndex ;;
  v <- index body byteIndex ;;
  if bit =? 0 then assign body byteIndex (Z.ldiff v mask)
  else assign body byteIndex (Z.lor v mask).

(** [body[lo:]] and [body[:hi]] as fresh values. *)
Definition slice_from (body : list Z) (lo : Z) : result (list Z) :=
  if (0 <=? lo) && (lo <=? len body) then Ok (drop (Z.to_nat lo) body) else Panic.

Definition slice_to (body : list Z) (hi : Z) : result (list Z) :=
  if (0 <=? hi) && (hi <=? len body) then Ok (take (Z.to_nat hi) body) else Panic.

Definition Bytes2Image (body : list Z) : result Image :=
  h <- ParseBitmapHeader body ;;
  let rowBytes := RowBytes h in
  let width := Width h in
  let height := Height h in
  let headerEnd := HeaderEnd h in
  if (width <=? 0) || (height <=? 0) then Err (EInvalidImageSize width height)
  else
    img <- bin_img.NewBinary width height ;;
    st <- for_range 0 height (fun y st =>
      for_range 0 width (fun x (st : bin_img.Binary * Z) =>
        let byteIndex := headerEnd +i y *i rowBytes +i Z.quot x 8 in
        if len body <=? byteIndex then Ok st
        else
          let bitIndex := 7 -i Z.rem x 8 in
          v <- index body byteIndex ;;
          b <- bit_of v bitIndex ;;
          img <- (if b =? 0 then bin_img.SetOff (fst st) x y
                  else bin_img.SetOn (fst st) x y) ;;
          Ok (img, byteIndex)) st) (img, headerEnd) ;;
    header <- slice_to body headerEnd ;;
    tail <- slice_from body (snd st +i 1) ;;
    Ok {| Header_ := header; Bitmap := fst st; Tail := tail |}.

(** *** The store of backing arrays, for [OverlayBinary]

    A [[]byte] value is a [slice] of an array of the store; two slices
    alias when they name the same array. *)
Record slice : Type := { s_arr : nat; s_off : nat; s_len : nat }.

Abbreviation store := (gmap nat (list Z)).

(** [len(s)] *)
Definition slen (s : slice) : Z := Z.of_nat (s_len s).

Definition load (st : store) (s : slice) : list Z :=
  take (s_len s) (drop (s_off s) (default [] (st !! s_arr s))).

(** Writing the contents [body] back through the slice [s]. *)
Definition save (st : store) (s : slice) (body : list Z) : store :=
  let a := default [] (st !! s_arr s) in
  <[s_arr s := take (s_off s) a ++ body ++ drop (s_off s + s_len s)%nat a]> st.

(** A [*Binary] whose [Pix] lives in the store. *)
Record BinaryRef : Type :=
  { PixRef : slice; StrideRef : Z; RectRef : Rectangle }.

Definition deref (st : store) (b : BinaryRef) : bin_img.Binary :=
  {| bin_img.Pix := load st (PixRef b); bin_img.Stride := StrideRef b;
     bin_img.Rect := RectRef b |}.

(** Computations over the store: the store is there after a fault too. *)
Definition M (A : Type) : Type := store -> store * result A.

Definition mret {A : Type} (a : A) : M A := fun st => (st, Ok a).

Definition mbind {A B : Type} (m : M A) (k : A -> M B) : M B :=
  fun st =>
    match m st with
    | (st', Ok a) => k a st'
    | (st', Err e) => (st', Err e)
    | (st', Panic) => (st', Panic)
    end.

Definition lift {A : Type} (r : result A) : M A := fun st => (st, r).

Fixpoint mloop (n : nat) (i : Z) (body : Z -> M unit) : M unit :=
  match n with
  | O => mret tt
  | S n' => mbind (body i) (fun _ => mloop n' (i + 1) body)
  end.

Definition mfor (lo hi : Z) (body : Z -> M unit) : M unit :=
  mloop (Z.to_nat (hi - lo)) lo body.

(** [res := make([]byte, len(base)); copy(res, base)]: a new array. *)
Definition clone (base : slice) : M slice :=
  fun st =>
    let l := fresh (dom st) in
    (<[l := load st base]> st, Ok {| s_arr := l; s_off := O; s_len := s_len base |}).

(** [setBitmapBit(res, ...)] on the array behind [res]. *)
Definition setBitmapBit_at (res : slice) (headerEnd rowBytes x y bit : Z) : M unit :=
  fun st =>
    match setBitmapBit (load st res) headerEnd rowBytes x y bit with
    | Ok body => (save st res body, Ok tt)
    | Err e => (st, Err e)
    | Panic => (st, Panic)
    end.

Definition OverlayBinary (baseHeader : option BitmapHeader) (base : slice)
    (overlay : option BinaryRef) (xOff yOff : Z) : M slice :=
  match overlay with
  | None => lift (Err EOverlayNil)
  | Some overlay =>
    if (xOff <? 0) || (yOff <? 0) then lift (Err ENegativeOffset)
    else if slen base =? 0 then lift (Err EBaseEmpty)
    else
      mbind (fun st => (st, match baseHeader with
                            | None => ParseBitmapHeader (load st base)
                            | Some bh => Ok bh
                            end)) (fun baseHeader =>
      let baseRowBytes := RowBytes baseHeader in
      let baseW := Width baseHeader in
      let baseH := Height baseHeader in
      let baseHeaderEnd := HeaderEnd baseHeader in
      let baseBitmapLen := baseRowBytes *i baseH in
      if slen base <? baseHeaderEnd +i baseBitmapLen
      then lift (Err (EBaseTooShort (baseHeaderEnd +i baseBitmapLen) (slen base)))
      else
        let b := RectRef overlay in
        let ovW := Dx b in
        let ovH := Dy b in
        if (ovW <=? 0) || (ovH <=? 0) then lift (Err (EInvalidOverlaySize ovW ovH))
        else if (baseW <? xOff +i ovW) || (baseH <? yOff +i ovH)
        then lift (Err (EOverlayOutOfBounds baseW baseH ovW ovH xOff yOff))
        else
          mbind (clone base) (fun res =>
          mbind (mfor 0 ovH (fun y =>
                 mfor 0 ovW (fun x =>
                   mbind (fun st => (st, bin_img.IsWhite (deref st overlay)
                                           (x +i MinX b) (y +i MinY b)))
                     (fun white =>
                   let bit := if white then 1 else 0 in
                   setBitmapBit_at res baseHeaderEnd baseRowBytes
                     (x +i xOff) (y +i yOff) bit)))) (fun _ =>
          mret res)))
  end.

Definition OverlayBinaryAtTopLeft (baseHeader : option BitmapHeader)
    (base : slice) (overlay : option BinaryRef) : M slice :=
  OverlayBinary baseHeader base overlay 0 0.

End tspl.

(** * Properties *)

Import image.

(** ** Integers and bits *)

Definition int_range (z : Z) : Prop := - 2 ^ 63 <= z < 2 ^ 63.

Lemma wrap_small z : int_range z -> wrap z = z.
Proof.
  unfold int_range, wrap. intros H.
  rewrite Z.mod_small by lia. lia.
Qed.

Lemma iadd_small a b : int_range (a + b) -> a +i b = a + b.
Proof. apply wrap_small. Qed.

Lemma isub_small a b : int_range (a - b) -> a -i b = a - b.
Proof. apply wrap_small. Qed.

Lemma imul_small a b : int_range (a * b) -> a *i b = a * b.
Proof. apply wrap_small. Qed.

Definition is_byte (v : Z) : Prop := 0 <= v < 256.

Lemma land_7_mod x : Z.land (to_uint x) 7 = x mod 8.
Proof.
  unfold to_uint. change 7 with (Z.ones 3).
  rewrite Z.land_ones by lia. change (2 ^ 3) with 8.
  apply Z.mod_mod_divide. exists (2 ^ 61). reflexivity.
Qed.

Lemma mask_pow2 x : bin_img.mask x = 2 ^ (7 - x mod 8).
Proof.
  unfold bin_img.mask. rewrite land_7_mod.
  pose proof (Z.mod_pos_bound x 8 ltac:(lia)) as H.
  assert (x mod 8 = 0 \/ x mod 8 = 1 \/ x mod 8 = 2 \/ x mod 8 = 3 \/
          x mod 8 = 4 \/ x mod 8 = 5 \/ x mod 8 = 6 \/ x mod 8 = 7) as Hc by lia.
  destruct Hc as [-> | [-> | [-> | [-> | [-> | [-> | [-> | ->]]]]]]]; reflexivity.
Qed.

Lemma land_pow2_eqb v k :
  0 <= k -> (Z.land v (2 ^ k) =? 0) = negb (Z.testbit v k).
Proof.
  intros Hk. destruct (Z.testbit v k) eqn:E; simpl.
  - apply Z.eqb_neq. intros H0.
    assert (Z.testbit (Z.land v (2 ^ k)) k = true) as Ht.
    { rewrite Z.land_spec, E, Z.pow2_bits_true; auto. }
    rewrite H0, Z.bits_0 in Ht. discriminate.
  - apply Z.eqb_eq. apply Z.bits_inj'. intros n Hn.
    rewrite Z.land_spec, Z.bits_0.
    destruct (Z.eq_dec n k) as [-> | Hne].
    + rewrite E. reflexivity.
    + rewrite Z.pow2_bits_false by lia. apply andb_false_r.
Qed.

Lemma lor_pow2_bits v k j :
  0 <= k -> 0 <= j ->
  Z.testbit (Z.lor v (2 ^ k)) j = Z.testbit v j || (j =? k).
Proof.
  intros Hk Hj. rewrite Z.lor_spec. f_equal.
  destruct (Z.eqb_spec j k) as [-> | Hne].
  - apply Z.pow2_bits_true; lia.
  - apply Z.pow2_bits_false; lia.
Qed.

Lemma ldiff_pow2_bits v k j :
  0 <= k -> 0 <= j ->
  Z.testbit (Z.ldiff v (2 ^ k)) j = Z.testbit v j && negb (j =? k).
Proof.
  intros Hk Hj. rewrite Z.ldiff_spec. f_equal.
  destruct (Z.eqb_spec j k) as [-> | Hne]; simpl.
  - rewrite Z.pow2_bits_true; auto.
  - rewrite Z.pow2_bits_false; auto; lia.
Qed.

Lemma is_byte_bits v : 0 <= v -> (is_byte v <-> forall j, 8 <= j -> Z.testbit v j = false).
Proof.
  intros Hv. unfold is_byte. split.
  - intros H j Hj. apply Z.bits_above_log2; [lia|].
    destruct (Z.eq_dec v 0) as [-> | Hne]; [simpl; lia|].
    apply Z.log2_lt_pow2; [lia|].
    apply Z.lt_le_trans with (2 ^ 8); [lia|].
    apply Z.pow_le_mono_r; lia.
  - intros H. split; [lia|].
    destruct (Z_lt_le_dec v 256) as [Hlt | Hge]; [exact Hlt|exfalso].
    assert (0 < v) as Hpos by lia.
    pose proof (Z.bit_log2 v Hpos) as Hb.
    rewrite H in Hb; [discriminate|].
    change 8 with (Z.log2 256). apply Z.log2_le_mono. lia.
Qed.

Lemma lor_pow2_byte v k : is_byte v -> 0 <= k < 8 -> is_byte (Z.lor v (2 ^ k)).
Proof.
  intros Hv Hk.
  assert (0 <= Z.lor v (2 ^ k)) as H0.
  { apply Z.lor_nonneg. split; [unfold is_byte in Hv; lia | apply Z.pow_nonneg; lia]. }
  apply is_byte_bits; [exact H0|]. intros j Hj.
  rewrite lor_pow2_bits by lia.
  destruct Hv as [Hv0 Hv1].
  rewrite (proj1 (is_byte_bits v Hv0)) by (unfold is_byte; lia || auto).
  simpl. apply Z.eqb_neq. lia.
Qed.

Lemma ldiff_pow2_byte v k : is_byte v -> 0 <= k < 8 -> is_byte (Z.ldiff v (2 ^ k)).
Proof.
  intros Hv Hk.
  assert (0 <= Z.ldiff v (2 ^ k)) as H0.
  { apply Z.ldiff_nonneg. left. unfold is_byte in Hv; lia. }
  apply is_byte_bits; [exact H0|]. intros j Hj.
  rewrite ldiff_pow2_bits by lia.
  destruct Hv as [Hv0 Hv1].
  rewrite (proj1 (is_byte_bits v Hv0)) by (unfold is_byte; lia || auto).
  reflexivity.
Qed.

Lemma byte_eq_bits v v' :
  is_byte v -> is_byte v' ->
  (forall k, 0 <= k < 8 -> Z.testbit v k = Z.testbit v' k) -> v = v'.
Proof.
  intros Hv Hv' H. apply Z.bits_inj'. intros n Hn.
  destruct (Z_lt_le_dec n 8) as [Hlt | Hge]; [apply H; lia|].
  destruct Hv as [? ?], Hv' as [? ?].
  rewrite (proj1 (is_byte_bits v ltac:(lia))), (proj1 (is_byte_bits v' ltac:(lia)));
    unfold is_byte; auto; lia.
Qed.

(** ** Outcomes and loops *)

Lemma bind_Ok {A B : Type} (m : result A) (k : A -> result B) a :
  m = Ok a -> bind m k = k a.
Proof. intros ->. reflexivity. Qed.

Lemma bind_Ok_inv {A B : Type} (m : result A) (k : A -> result B) b :
  bind m k = Ok b -> exists a, m = Ok a /\ k a = Ok b.
Proof. destruct m; simpl; intros H; try discriminate. eauto. Qed.

(** A loop whose body keeps an invariant and never fails runs to its end. *)
Lemma loop_inv {T : Type} (I : Z -> T -> Prop) (body : Z -> T -> result T) n :
  forall i s,
    I i s ->
    (forall j t, i <= j < i + Z.of_nat n -> I j t ->
                 exists t', body j t = Ok t' /\ I (j + 1) t') ->
    exists s', loop n i body s = Ok s' /\ I (i + Z.of_nat n) s'.
Proof.
  induction n as [|n IH]; intros i s Hi Hstep.
  - exists s. split; [reflexivity|]. replace (i + Z.of_nat 0) with i by lia. exact Hi.
  - destruct (Hstep i s ltac:(lia) Hi) as (t & Hb & Ht).
    destruct (IH (i + 1) t Ht) as (s' & Hl & Hs').
    { intros j u Hj Hu. apply Hstep; [lia | exact Hu]. }
    exists s'. split.
    + simpl. rewrite Hb. simpl. exact Hl.
    + replace (i + Z.of_nat (S n)) with (i + 1 + Z.of_nat n) by lia. exact Hs'.
Qed.

Lemma for_range_inv {T : Type} (I : Z -> T -> Prop) (body : Z -> T -> result T)
    lo hi s :
  lo <= hi ->
  I lo s ->
  (forall j t, lo <= j < hi -> I j t -> exists t', body j t = Ok t' /\ I (j + 1) t') ->
  exists s', for_range lo hi body s = Ok s' /\ I hi s'.
Proof.
  intros Hle Hi Hstep. unfold for_range.
  destruct (loop_inv I body (Z.to_nat (hi - lo)) lo s Hi) as (s' & Hl & Hs').
  - intros j t Hj. apply Hstep. lia.
  - exists s'. split; [exact Hl|].
    replace (lo + Z.of_nat (Z.to_nat (hi - lo))) with hi in Hs' by lia. exact Hs'.
Qed.

Lemma for_range_empty {T : Type} (body : Z -> T -> result T) lo hi s :
  hi <= lo -> for_range lo hi body s = Ok s.
Proof.
  intros H. unfold for_range. replace (Z.to_nat (hi - lo)) with O by lia. reflexivity.
Qed.

(** ** Byte lists *)

Definition byte_at (l : list Z) (i : Z) : Z := default 0 (l !! Z.to_nat i).

Definition getbit (l : list Z) (i k : Z) : bool := Z.testbit (byte_at l i) k.

Lemma len_nonneg {A : Type} (l : list A) : 0 <= len l.
Proof. unfold len. lia. Qed.

Lemma index_ok (l : list Z) i :
  0 <= i < len l -> index l i = Ok (byte_at l i).
Proof.
  intros H. unfold index, byte_at, len in *.
  destruct (Z.ltb_spec i 0); [lia|].
  destruct (lookup_lt_is_Some_2 l (Z.to_nat i) ltac:(lia)) as [v Hv].
  rewrite Hv. reflexivity.
Qed.

Lemma assign_ok (l : list Z) i v :
  0 <= i < len l -> assign l i v = Ok (<[Z.to_nat i := v]> l).
Proof.
  intros H. unfold assign.
  destruct (Z.leb_spec 0 i); [|lia]. destruct (Z.ltb_spec i (len l)); [|lia].
  reflexivity.
Qed.

Lemma len_insert (l : list Z) n v : len (<[n := v]> l) = len l.
Proof. unfold len. rewrite length_insert. reflexivity. Qed.

Lemma byte_at_insert (l : list Z) i j v :
  0 <= i < len l -> 0 <= j ->
  byte_at (<[Z.to_nat i := v]> l) j = if j =? i then v else byte_at l j.
Proof.
  intros Hi Hj. unfold byte_at, len in *.
  destruct (Z.eqb_spec j i) as [-> | Hne].
  - rewrite list_lookup_insert_eq by lia. reflexivity.
  - rewrite list_lookup_insert_ne by lia. reflexivity.
Qed.

Lemma Forall_insert_byte (l : list Z) n v :
  Forall is_byte l -> is_byte v -> Forall is_byte (<[n := v]> l).
Proof. intros Hl Hv. apply Forall_insert; assumption. Qed.

Lemma byte_at_is_byte (l : list Z) i : Forall is_byte l -> is_byte (byte_at l i).
Proof.
  intros Hl. unfold byte_at.
  destruct (l !! Z.to_nat i) as [v|] eqn:E; simpl.
  - eapply Forall_lookup_1; eauto.
  - unfold is_byte. lia.
Qed.

(** Two byte lists of one length that agree on every bit are equal. *)
Lemma bytes_eq_bits (l l' : list Z) :
  Forall is_byte l -> Forall is_byte l' -> length l = length l' ->
  (forall i k, 0 <= i < len l -> 0 <= k < 8 -> getbit l i k = getbit l' i k) ->
  l = l'.
Proof.
  intros Hl Hl' Hlen H. apply list_eq_same_length with (length l); auto.
  intros n v v' Hn Hv Hv'.
  specialize (H (Z.of_nat n)). unfold getbit, byte_at in H.
  rewrite Nat2Z.id, Hv, Hv' in H. simpl in H.
  apply byte_eq_bits.
  - exact (Forall_lookup_1 _ _ _ _ Hl Hv).
  - exact (Forall_lookup_1 _ _ _ _ Hl' Hv').
  - intros k Hk. apply H; [unfold len; lia | exact Hk].
Qed.

(** ** Well-formed images

    What [NewBinary] and [SubImage] give: a canonical rectangle (whose
    sides, and the width plus 7, are within [int]), a non-negative stride
    no smaller than a visible row, and a buffer that reaches the last
    visible byte. *)

Definition rect_ok (r : Rectangle) : Prop :=
  int_range (MinX r) /\ int_range (MaxX r) /\ int_range (MinY r) /\ int_range (MaxY r) /\
  MinX r <= MaxX r /\ MinY r <= MaxY r /\
  MaxX r - MinX r + 7 < 2 ^ 63 /\ MaxY r - MinY r < 2 ^ 63.

Definition width (b : bin_img.Binary) : Z :=
  MaxX (bin_img.Rect b) - MinX (bin_img.Rect b).

Definition height (b : bin_img.Binary) : Z :=
  MaxY (bin_img.Rect b) - MinY (bin_img.Rect b).

Record wf (b : bin_img.Binary) : Prop := {
  wf_rect : rect_ok (bin_img.Rect b);
  wf_bytes : Forall is_byte (bin_img.Pix b);
  wf_len : len (bin_img.Pix b) < 2 ^ 63;
  wf_stride : 0 <= bin_img.Stride b;
  wf_fit : 0 < width b -> 0 < height b ->
           (width b + 7) / 8 <= bin_img.Stride b /\
           (height b - 1) * bin_img.Stride b + (width b + 7) / 8
             <= len (bin_img.Pix b)
}.

(** The byte that holds pixel [(x, y)], and the pixel itself. *)
Definition off (b : bin_img.Binary) (x y : Z) : Z :=
  (y - MinY (bin_img.Rect b)) * bin_img.Stride b + (x - MinX (bin_img.Rect b)) / 8.

Definition pixel (b : bin_img.Binary) (x y : Z) : bool :=
  getbit (bin_img.Pix b) (off b x y) (7 - x mod 8).

Definition inside (b : bin_img.Binary) (x y : Z) : Prop :=
  MinX (bin_img.Rect b) <= x < MaxX (bin_img.Rect b) /\
  MinY (bin_img.Rect b) <= y < MaxY (bin_img.Rect b).

Lemma In_inside b x y : In x y (bin_img.Rect b) = true <-> inside b x y.
Proof.
  unfold In, inside. rewrite !andb_true_iff, !Z.leb_le, !Z.ltb_lt. tauto.
Qed.

Lemma Dx_ok r : rect_ok r -> Dx r = MaxX r - MinX r.
Proof.
  unfold rect_ok, int_range, Dx. intros H. apply isub_small. unfold int_range. lia.
Qed.

Lemma Dy_ok r : rect_ok r -> Dy r = MaxY r - MinY r.
Proof.
  unfold rect_ok, int_range, Dy. intros H. apply isub_small. unfold int_range. lia.
Qed.

Lemma off_range b x y :
  wf b -> inside b x y -> 0 <= off b x y < len (bin_img.Pix b).
Proof.
  intros [Hr _ Hl Hs Hf] [Hx Hy]. unfold off.
  unfold width, height in Hf.
  destruct Hf as [Hf1 Hf2]; [lia | lia |].
  set (S := bin_img.Stride b) in *.
  set (dx := x - MinX (bin_img.Rect b)).
  set (dy := y - MinY (bin_img.Rect b)).
  assert (0 <= dx / 8 < (MaxX (bin_img.Rect b) - MinX (bin_img.Rect b) + 7) / 8) as Hq.
  { split; [apply Z.div_pos; lia|].
    subst dx. apply Z.div_lt_upper_bound; [lia|].
    pose proof (Z.mul_div_le (MaxX (bin_img.Rect b) - MinX (bin_img.Rect b) + 7) 8 ltac:(lia)).
    pose proof (Z.mod_pos_bound (MaxX (bin_img.Rect b) - MinX (bin_img.Rect b) + 7) 8 ltac:(lia)).
    pose proof (Z.div_mod (MaxX (bin_img.Rect b) - MinX (bin_img.Rect b) + 7) 8 ltac:(lia)).
    lia. }
  assert (0 <= dy * S <= (MaxY (bin_img.Rect b) - MinY (bin_img.Rect b) - 1) * S) by (subst dy; nia).
  lia.
Qed.

Lemma pixOffset_ok b x y :
  wf b -> inside b x y -> bin_img.pixOffset b x y = off b x y.
Proof.
  intros Hwf Hin. pose proof (off_range b x y Hwf Hin) as Ho.
  destruct Hwf as [Hr _ Hl Hs Hf]. destruct Hin as [Hx Hy].
  unfold rect_ok, int_range in Hr. unfold off in Ho. unfold bin_img.pixOffset, off.
  assert (0 <= (x - MinX (bin_img.Rect b)) / 8) by (apply Z.div_pos; lia).
  assert (0 <= (y - MinY (bin_img.Rect b)) * bin_img.Stride b) by nia.
  rewrite (isub_small y) by (unfold int_range; lia).
  rewrite (isub_small x) by (unfold int_range; lia).
  rewrite Z.quot_div_nonneg by lia.
  rewrite imul_small by (unfold int_range; lia).
  rewrite iadd_small by (unfold int_range; lia).
  reflexivity.
Qed.

Lemma bit_inside b x y :
  wf b -> inside b x y -> bin_img.bit b x y = Ok (pixel b x y).
Proof.
  intros Hwf Hin. unfold bin_img.bit.
  rewrite pixOffset_ok by assumption.
  rewrite index_ok by (apply off_range; assumption). simpl.
  rewrite mask_pow2.
  pose proof (Z.mod_pos_bound x 8 ltac:(lia)).
  rewrite land_pow2_eqb by lia. rewrite negb_involutive. reflexivity.
Qed.

(** [setBit] inside the rectangle: one bit changes. *)
Lemma setBit_inside b x y on :
  wf b -> inside b x y ->
  exists b',
    bin_img.setBit b x y on = Ok b' /\ wf b' /\
    bin_img.Rect b' = bin_img.Rect b /\ bin_img.Stride b' = bin_img.Stride b /\
    length (bin_img.Pix b') = length (bin_img.Pix b) /\
    forall i k, 0 <= i -> 0 <= k ->
      getbit (bin_img.Pix b') i k =
      if (i =? off b x y) && (k =? 7 - x mod 8) then on
      else getbit (bin_img.Pix b) i k.
Proof.
  intros Hwf Hin. pose proof (off_range b x y Hwf Hin) as Ho.
  pose proof (Z.mod_pos_bound x 8 ltac:(lia)) as Hm.
  unfold bin_img.setBit. rewrite pixOffset_ok by assumption.
  rewrite index_ok by assumption. simpl.
  rewrite assign_ok by assumption. simpl.
  eexists. split; [reflexivity|].
  rewrite mask_pow2.
  assert (is_byte (if on then Z.lor (byte_at (bin_img.Pix b) (off b x y)) (2 ^ (7 - x mod 8))
                   else Z.ldiff (byte_at (bin_img.Pix b) (off b x y)) (2 ^ (7 - x mod 8)))) as Hb.
  { pose proof (byte_at_is_byte (bin_img.Pix b) (off b x y) (wf_bytes b Hwf)).
    destruct on; [apply lor_pow2_byte | apply ldiff_pow2_byte]; auto; lia. }
  split; [|split; [reflexivity|split; [reflexivity|split]]].
  - destruct Hwf as [Hr Hby Hl Hs Hf]. constructor; simpl; auto.
    + apply Forall_insert_byte; assumption.
    + rewrite len_insert. assumption.
    + unfold width, height in *. simpl. rewrite len_insert. exact Hf.
  - simpl. apply length_insert.
  - intros i k Hi Hk. simpl. unfold getbit.
    rewrite byte_at_insert by lia.
    destruct (Z.eqb_spec i (off b x y)) as [-> | Hne]; simpl; [|reflexivity].
    destruct on.
    + rewrite lor_pow2_bits by lia.
      destruct (Z.eqb_spec k (7 - x mod 8)); [apply orb_true_r | apply orb_false_r].
    + rewrite ldiff_pow2_bits by lia.
      destruct (Z.eqb_spec k (7 - x mod 8)); [apply andb_false_r | apply andb_true_r].
Qed.

Lemma col_range b x :
  MinX (bin_img.Rect b) <= x < MaxX (bin_img.Rect b) ->
  0 <= (x - MinX (bin_img.Rect b)) / 8 < (width b + 7) / 8.
Proof.
  intros Hx. unfold width. split; [apply Z.div_pos; lia|].
  apply Z.div_lt_upper_bound; [lia|].
  pose proof (Z.mod_pos_bound (MaxX (bin_img.Rect b) - MinX (bin_img.Rect b) + 7) 8 ltac:(lia)).
  pose proof (Z.div_mod (MaxX (bin_img.Rect b) - MinX (bin_img.Rect b) + 7) 8 ltac:(lia)).
  lia.
Qed.

(** Distinct pixels of the rectangle live in distinct bits. *)
Lemma addr_inj b x y x' y' :
  wf b -> inside b x y -> inside b x' y' ->
  off b x y = off b x' y' -> x mod 8 = x' mod 8 -> x = x' /\ y = y'.
Proof.
  intros Hwf [Hx Hy] [Hx' Hy'] Ho Hm.
  pose proof (col_range b x Hx) as Hq. pose proof (col_range b x' Hx') as Hq'.
  destruct Hwf as [Hr _ Hl Hs Hf]. unfold width, height in *.
  destruct Hf as [Hf1 Hf2]; [lia | lia |].
  unfold off in Ho.
  set (S := bin_img.Stride b) in *.
  set (q := (x - MinX (bin_img.Rect b)) / 8) in *.
  set (q' := (x' - MinX (bin_img.Rect b)) / 8) in *.
  assert (y = y') as Hyy by nia. subst y'.
  split; [|reflexivity].
  assert (q = q') as Hqq by lia.
  subst q q'.
  pose proof (Z.div_mod (x - MinX (bin_img.Rect b)) 8 ltac:(lia)).
  pose proof (Z.div_mod (x' - MinX (bin_img.Rect b)) 8 ltac:(lia)).
  pose proof (Z.mod_pos_bound (x - MinX (bin_img.Rect b)) 8 ltac:(lia)).
  pose proof (Z.mod_pos_bound (x' - MinX (bin_img.Rect b)) 8 ltac:(lia)).
  pose proof (Z.div_mod x 8 ltac:(lia)).
  pose proof (Z.div_mod x' 8 ltac:(lia)).
  pose proof (Z.mod_pos_bound x 8 ltac:(lia)).
  lia.
Qed.

(** ** Rotation by 180 degrees

    Both paths of [Rotate180] are runs of exchanges between a pixel and its
    mirror image.  [rot_inv b0 D b] says how far a run has come: the
    pixels in [D] and their mirror images hold the mirrored content of
    [b0], all other bits of the buffer are those of [b0]. *)

Definition mx (b : bin_img.Binary) (x : Z) : Z :=
  MinX (bin_img.Rect b) + MaxX (bin_img.Rect b) - 1 - x.

Definition my (b : bin_img.Binary) (y : Z) : Z :=
  MinY (bin_img.Rect b) + MaxY (bin_img.Rect b) - 1 - y.

Definition same_shape (b b' : bin_img.Binary) : Prop :=
  bin_img.Rect b' = bin_img.Rect b /\ bin_img.Stride b' = bin_img.Stride b /\
  length (bin_img.Pix b') = length (bin_img.Pix b).

(** The bit [(i, k)] of the buffer belongs to no pixel of the rectangle. *)
Definition hidden (b : bin_img.Binary) (i k : Z) : Prop :=
  forall x y, inside b x y -> ~ (i = off b x y /\ k = 7 - x mod 8).

Record rot_inv (b0 : bin_img.Binary) (D : Z -> Z -> Prop) (b : bin_img.Binary)
  : Prop := {
  ri_wf : wf b;
  ri_shape : same_shape b0 b;
  ri_done : forall x y, inside b0 x y -> D x y \/ D (mx b0 x) (my b0 y) ->
                        pixel b x y = pixel b0 (mx b0 x) (my b0 y);
  ri_todo : forall x y, inside b0 x y -> ~ D x y -> ~ D (mx b0 x) (my b0 y) ->
                        pixel b x y = pixel b0 x y;
  ri_hidden : forall i k, 0 <= i -> 0 <= k < 8 -> hidden b0 i k ->
                          getbit (bin_img.Pix b) i k = getbit (bin_img.Pix b0) i k
}.

(** The image [b'] is [b0] turned by 180 degrees, in place. *)
Definition rotated (b0 b' : bin_img.Binary) : Prop :=
  wf b' /\ same_shape b0 b' /\
  (forall x y, inside b0 x y -> pixel b' x y = pixel b0 (mx b0 x) (my b0 y)) /\
  (forall i k, 0 <= i -> 0 <= k < 8 -> hidden b0 i k ->
               getbit (bin_img.Pix b') i k = getbit (bin_img.Pix b0) i k).

Lemma same_shape_refl b : same_shape b b.
Proof. repeat split. Qed.

Lemma same_shape_trans b1 b2 b3 :
  same_shape b1 b2 -> same_shape b2 b3 -> same_shape b1 b3.
Proof.
  intros (H1 & H2 & H3) (H4 & H5 & H6). repeat split; congruence.
Qed.

Lemma same_shape_inside b b' x y : same_shape b b' -> inside b' x y <-> inside b x y.
Proof. intros (H & _). unfold inside. rewrite H. tauto. Qed.

Lemma same_shape_off b b' x y : same_shape b b' -> off b' x y = off b x y.
Proof. intros (H1 & H2 & _). unfold off. rewrite H1, H2. reflexivity. Qed.

Lemma same_shape_mx b b' x : same_shape b b' -> mx b' x = mx b x.
Proof. intros (H & _). unfold mx. rewrite H. reflexivity. Qed.

Lemma same_shape_my b b' y : same_shape b b' -> my b' y = my b y.
Proof. intros (H & _). unfold my. rewrite H. reflexivity. Qed.

Lemma mirror_inside b x y : inside b x y -> inside b (mx b x) (my b y).
Proof. unfold inside, mx, my. lia. Qed.

Lemma mx_mx b x : mx b (mx b x) = x.
Proof. unfold mx. lia. Qed.

Lemma my_my b y : my b (my b y) = y.
Proof. unfold my. lia. Qed.

Lemma rot_inv_init b : wf b -> rot_inv b (fun _ _ => False) b.
Proof.
  intros Hwf. constructor; auto using same_shape_refl.
  intros x y _ [[]|[]].
Qed.

Lemma rot_inv_ext b0 (D D' : Z -> Z -> Prop) b :
  (forall x y, inside b0 x y -> (D x y <-> D' x y)) ->
  rot_inv b0 D b -> rot_inv b0 D' b.
Proof.
  intros Heq [Hwf Hsh Hd Ht Hh]. constructor; auto.
  - intros x y Hin HD. apply Hd; [exact Hin|].
    destruct HD as [HD | HD]; [left | right].
    + apply Heq; assumption.
    + apply Heq; [apply mirror_inside; assumption | assumption].
  - intros x y Hin H1 H2. apply Ht; [exact Hin | |].
    + intros H. apply H1. apply Heq; assumption.
    + intros H. apply H2. apply Heq; [apply mirror_inside; assumption | assumption].
Qed.

(** One step of a run: the pixels [N], not yet treated, trade places with
    their mirror images. *)
Lemma rot_inv_step b0 (D N : Z -> Z -> Prop) b b' :
  rot_inv b0 D b ->
  wf b' -> same_shape b b' ->
  (forall x y, inside b0 x y -> N x y -> ~ D x y /\ ~ D (mx b0 x) (my b0 y)) ->
  (forall x y, inside b0 x y -> N x y \/ N (mx b0 x) (my b0 y) ->
               pixel b' x y = pixel b (mx b0 x) (my b0 y)) ->
  (forall x y, inside b0 x y -> ~ N x y -> ~ N (mx b0 x) (my b0 y) ->
               pixel b' x y = pixel b x y) ->
  (forall i k, 0 <= i -> 0 <= k < 8 -> hidden b0 i k ->
               getbit (bin_img.Pix b') i k = getbit (bin_img.Pix b) i k) ->
  rot_inv b0 (fun x y => D x y \/ N x y) b'.
Proof.
  intros [Hwf Hsh Hd Ht Hh] Hwf' Hsh' Hfresh Hswap Hkeep Hhid.
  assert (forall x y, inside b0 x y -> N x y \/ N (mx b0 x) (my b0 y) ->
                      pixel b' x y = pixel b0 (mx b0 x) (my b0 y)) as HN.
  { intros x y Hin HNN. rewrite Hswap by assumption.
    pose proof (mirror_inside b0 x y Hin) as Hmin.
    apply Ht; [exact Hmin | |]; rewrite ?mx_mx, ?my_my.
    - destruct HNN as [HNp | HNm].
      + apply (Hfresh x y Hin HNp).
      + apply (Hfresh _ _ Hmin HNm).
    - destruct HNN as [HNp | HNm].
      + apply (Hfresh x y Hin HNp).
      + pose proof (Hfresh _ _ Hmin HNm) as [_ H]. rewrite mx_mx, my_my in H. exact H. }
  assert (forall x y, inside b0 x y -> D x y -> ~ N x y /\ ~ N (mx b0 x) (my b0 y)) as HDN.
  { intros x y Hin HD. split; intros HNx.
    - destruct (Hfresh x y Hin HNx) as [H _]. exact (H HD).
    - pose proof (Hfresh _ _ (mirror_inside b0 x y Hin) HNx) as [_ H].
      rewrite mx_mx, my_my in H. auto. }
  constructor; auto.
  - eapply same_shape_trans; eassumption.
  - intros x y Hin [[HD | HNp] | [HD | HNm]].
    + destruct (HDN x y Hin HD) as [H1 H2].
      rewrite Hkeep by assumption. apply Hd; auto.
    + apply HN; auto.
    + pose proof (mirror_inside b0 x y Hin) as Hmin.
      destruct (HDN _ _ Hmin HD) as [H1 H2]. rewrite mx_mx, my_my in H2.
      rewrite Hkeep by assumption. apply Hd; auto.
    + apply HN; auto.
  - intros x y Hin H1 H2.
    rewrite Hkeep by tauto. apply Ht; tauto.
  - intros i k Hi Hk Hhd. rewrite Hhid by assumption. apply Hh; assumption.
Qed.

(** *** The general path *)

Lemma swapBits_spec b x1 y1 x2 y2 :
  wf b -> inside b x1 y1 -> inside b x2 y2 -> ~ (x1 = x2 /\ y1 = y2) ->
  exists b',
    bin_img.swapBits b x1 y1 x2 y2 = Ok b' /\ wf b' /\ same_shape b b' /\
    pixel b' x1 y1 = pixel b x2 y2 /\
    pixel b' x2 y2 = pixel b x1 y1 /\
    (forall x y, inside b x y -> ~ (x = x1 /\ y = y1) -> ~ (x = x2 /\ y = y2) ->
                 pixel b' x y = pixel b x y) /\
    (forall i k, 0 <= i -> 0 <= k < 8 -> hidden b i k ->
                 getbit (bin_img.Pix b') i k = getbit (bin_img.Pix b) i k).
Proof.
  intros Hwf H1 H2 Hne. unfold bin_img.swapBits.
  rewrite !bit_inside by assumption. simpl.
  destruct (setBit_inside b x1 y1 (pixel b x2 y2) Hwf H1)
    as (b1 & E1 & Hwf1 & HR1 & HS1 & HL1 & Hb1).
  rewrite E1. simpl.
  assert (same_shape b b1) as Hsh1 by (repeat split; assumption).
  assert (inside b1 x2 y2) as H2' by (apply (same_shape_inside b b1); assumption).
  destruct (setBit_inside b1 x2 y2 (pixel b x1 y1) Hwf1 H2')
    as (b2 & E2 & Hwf2 & HR2 & HS2 & HL2 & Hb2).
  rewrite E2. exists b2.
  assert (same_shape b1 b2) as Hsh2 by (repeat split; assumption).
  assert (same_shape b b2) as Hsh by (eapply same_shape_trans; eassumption).
  (* every bit of the result, in terms of [b] *)
  assert (forall x y, inside b x y ->
            pixel b2 x y =
            if (off b x y =? off b x2 y2) && (7 - x mod 8 =? 7 - x2 mod 8)
            then pixel b x1 y1
            else if (off b x y =? off b x1 y1) && (7 - x mod 8 =? 7 - x1 mod 8)
                 then pixel b x2 y2 else pixel b x y) as Hpix.
  { intros x y Hin. unfold pixel.
    pose proof (off_range b x y Hwf Hin).
    pose proof (Z.mod_pos_bound x 8 ltac:(lia)).
    rewrite (same_shape_off b b2) by assumption.
    rewrite Hb2 by lia. rewrite (same_shape_off b b1) by assumption.
    rewrite Hb1 by lia. reflexivity. }
  assert (forall x y x' y', inside b x y -> inside b x' y' -> ~ (x = x' /\ y = y') ->
            (off b x y =? off b x' y') && (7 - x mod 8 =? 7 - x' mod 8) = false) as Hdiff.
  { intros x y x' y' Hin Hin' Hn.
    apply andb_false_iff.
    destruct (Z.eqb_spec (off b x y) (off b x' y')) as [Ho|]; [|left; reflexivity].
    destruct (Z.eqb_spec (7 - x mod 8) (7 - x' mod 8)) as [Hm|]; [|right; reflexivity].
    exfalso. apply Hn. apply (addr_inj b); auto. lia. }
  split; [reflexivity|]. split; [exact Hwf2|]. split; [exact Hsh|].
  split; [|split; [|split]].
  - rewrite Hpix by assumption. rewrite Hdiff by assumption.
    rewrite !Z.eqb_refl. reflexivity.
  - rewrite Hpix by assumption. rewrite !Z.eqb_refl. reflexivity.
  - intros x y Hin Hn1 Hn2. rewrite Hpix by assumption.
    rewrite !Hdiff by assumption. reflexivity.
  - intros i k Hi Hk Hhid.
    rewrite Hb2 by lia. rewrite (same_shape_off b b1) by assumption.
    rewrite Hb1 by lia.
    destruct (Z.eqb_spec i (off b x2 y2)) as [Ei|]; simpl.
    + destruct (Z.eqb_spec k (7 - x2 mod 8)) as [Ek|]; simpl.
      * exfalso. apply (Hhid x2 y2 H2). split; assumption.
      * destruct ((i =? off b x1 y1) && (k =? 7 - x1 mod 8)) eqn:E; [|reflexivity].
        apply andb_true_iff in E. destruct E as [E3 E4].
        apply Z.eqb_eq in E3, E4. exfalso. apply (Hhid x1 y1 H1). split; assumption.
    + destruct ((i =? off b x1 y1) && (k =? 7 - x1 mod 8)) eqn:E; [|reflexivity].
      apply andb_true_iff in E. destruct E as [E3 E4].
      apply Z.eqb_eq in E3, E4. exfalso. apply (Hhid x1 y1 H1). split; assumption.
Qed.

Lemma hidden_shape b b' i k : same_shape b b' -> hidden b i k -> hidden b' i k.
Proof.
  intros Hsh Hh x y Hin. rewrite (same_shape_off b b') by assumption.
  apply Hh. apply (same_shape_inside b b'); assumption.
Qed.

(** Exchanging a pixel not yet treated with its distinct mirror image. *)
Lemma general_step b0 (D : Z -> Z -> Prop) b x y :
  rot_inv b0 D b -> inside b0 x y ->
  ~ (x = mx b0 x /\ y = my b0 y) ->
  ~ D x y -> ~ D (mx b0 x) (my b0 y) ->
  exists b',
    bin_img.swapBits b x y (mx b0 x) (my b0 y) = Ok b' /\
    rot_inv b0 (fun x' y' => D x' y' \/ (x' = x /\ y' = y)) b'.
Proof.
  intros Hinv Hin Hne HD HDm.
  pose proof (ri_wf _ _ _ Hinv) as Hwf. pose proof (ri_shape _ _ _ Hinv) as Hsh.
  pose proof (mirror_inside b0 x y Hin) as Hmin.
  assert (inside b x y) as Hin' by (apply (same_shape_inside b0 b); assumption).
  assert (inside b (mx b0 x) (my b0 y)) as Hmin'
    by (apply (same_shape_inside b0 b); assumption).
  destruct (swapBits_spec b x y (mx b0 x) (my b0 y) Hwf Hin' Hmin' Hne)
    as (b' & E & Hwf' & Hsh' & P1 & P2 & P3 & P4).
  exists b'. split; [exact E|].
  apply (rot_inv_step b0 D (fun x' y' => x' = x /\ y' = y) b b'); auto.
  - intros x' y' _ [-> ->]. split; assumption.
  - intros x' y' Hin1 [[-> ->] | [Hx Hy]].
    + exact P1.
    + assert (x' = mx b0 x) as -> by (rewrite <- Hx; symmetry; apply mx_mx).
      assert (y' = my b0 y) as -> by (rewrite <- Hy; symmetry; apply my_my).
      rewrite mx_mx, my_my. exact P2.
  - intros x' y' Hin1 Hn1 Hn2. apply P3.
    + apply (same_shape_inside b0 b); assumption.
    + exact Hn1.
    + intros [-> ->]. apply Hn2. rewrite mx_mx, my_my. split; reflexivity.
  - intros i k Hi Hk Hh. apply P4; auto. eapply hidden_shape; eassumption.
Qed.

(** The pixels before [(x, y)] in row-major order, relative to the corner. *)
Definition Dlex (b0 : bin_img.Binary) (y x : Z) : Z -> Z -> Prop :=
  fun px py =>
    py - MinY (bin_img.Rect b0) < y \/
    (py - MinY (bin_img.Rect b0) = y /\ px - MinX (bin_img.Rect b0) < x).

Ltac unwrap1 :=
  match goal with
  | |- context [?a +i ?b] => rewrite (iadd_small a b) by (unfold int_range; lia)
  | |- context [?a -i ?b] => rewrite (isub_small a b) by (unfold int_range; lia)
  | |- context [?a *i ?b] => rewrite (imul_small a b) by (unfold int_range; lia)
  end.

Ltac unwrap := repeat unwrap1.

Lemma general_row b0 b y1 y2 w n y :
  wf b0 -> w = width b0 ->
  0 <= y -> y1 = MinY (bin_img.Rect b0) + y -> y2 = my b0 y1 ->
  y2 < MaxY (bin_img.Rect b0) ->
  (y1 < y2 /\ n <= w) \/ (y1 = y2 /\ 2 * n <= w) ->
  rot_inv b0 (Dlex b0 y 0) b ->
  exists b',
    for_range 0 n (fun x b =>
      bin_img.swapBits b (MinX (bin_img.Rect b0) +i x) y1
        (MinX (bin_img.Rect b0) +i (w -i 1 -i x)) y2) b = Ok b' /\
    rot_inv b0 (Dlex b0 y n) b'.
Proof.
  intros Hwf0 Hw Hy Hy1 Hy2 Hy2max Hn Hinv.
  pose proof (wf_rect _ Hwf0) as Hr. unfold rect_ok, int_range in Hr.
  unfold width in Hw.
  destruct (Z_le_gt_dec 0 n) as [Hn0 | Hn0].
  2:{ rewrite for_range_empty by lia. exists b. split; [reflexivity|].
      eapply rot_inv_ext; [|exact Hinv].
      intros px py Hpin. unfold Dlex, inside in *. lia. }
  apply (for_range_inv (fun x b => rot_inv b0 (Dlex b0 y x) b)); [lia | exact Hinv |].
  intros x t Hx Ht.
  assert (MinX (bin_img.Rect b0) +i x = MinX (bin_img.Rect b0) + x) as ->
    by (unwrap; reflexivity).
  assert (MinX (bin_img.Rect b0) +i (w -i 1 -i x) = mx b0 (MinX (bin_img.Rect b0) + x)) as ->
    by (unwrap; unfold mx; lia).
  rewrite Hy2.
  assert (inside b0 (MinX (bin_img.Rect b0) + x) y1) as Hin
    by (unfold inside, my in *; lia).
  destruct (general_step b0 (Dlex b0 y x) t (MinX (bin_img.Rect b0) + x) y1 Ht Hin)
    as (t' & E & Hinv').
  - unfold my, mx in *. lia.
  - unfold Dlex. lia.
  - unfold Dlex, my, mx in *. lia.
  - exists t'. split; [exact E|].
    eapply rot_inv_ext; [|exact Hinv'].
    intros px py Hpin. unfold Dlex, inside in *. simpl. lia.
Qed.

Lemma general_rows b0 w h :
  wf b0 -> w = width b0 -> h = height b0 ->
  exists b',
    for_range 0 (Z.quot h 2) (fun y b =>
      let y1 := MinY (bin_img.Rect b0) +i y in
      let y2 := MinY (bin_img.Rect b0) +i (h -i 1 -i y) in
      for_range 0 w (fun x b =>
        bin_img.swapBits b (MinX (bin_img.Rect b0) +i x) y1
          (MinX (bin_img.Rect b0) +i (w -i 1 -i x)) y2) b) b0 = Ok b' /\
    rot_inv b0 (Dlex b0 (Z.quot h 2) 0) b'.
Proof.
  intros Hwf0 Hw Hh.
  pose proof (wf_rect _ Hwf0) as Hr. unfold rect_ok, int_range in Hr.
  unfold width in Hw. unfold height in Hh.
  assert (0 <= h) as Hh0 by lia.
  pose proof (Z.quot_div_nonneg h 2 Hh0 ltac:(lia)) as Hq.
  pose proof (Z.div_mod h 2 ltac:(lia)) as Hdm.
  pose proof (Z.mod_pos_bound h 2 ltac:(lia)) as Hmb.
  apply (for_range_inv (fun y b => rot_inv b0 (Dlex b0 y 0) b)).
  - lia.
  - eapply rot_inv_ext; [|apply rot_inv_init; exact Hwf0].
    intros x y Hin. unfold Dlex, inside in *. simpl. lia.
  - intros y t Hy Ht. cbv zeta.
    assert (MinY (bin_img.Rect b0) +i y = MinY (bin_img.Rect b0) + y) as Ey1
      by (unwrap; reflexivity).
    assert (MinY (bin_img.Rect b0) +i (h -i 1 -i y) = MinY (bin_img.Rect b0) + (h - 1 - y))
      as Ey2 by (unwrap; reflexivity).
    destruct (general_row b0 t (MinY (bin_img.Rect b0) +i y)
                (MinY (bin_img.Rect b0) +i (h -i 1 -i y)) w w y Hwf0)
      as (t' & E & Hinv');
      [ exact Hw | lia | exact Ey1 | rewrite Ey1, Ey2; unfold my; lia
      | rewrite Ey2; lia | rewrite Ey1, Ey2; lia | exact Ht | ].
    exists t'. split; [exact E|].
    eapply rot_inv_ext; [|exact Hinv'].
    intros px py Hpin. unfold Dlex, inside in *. lia.
Qed.

Lemma rot_inv_finish b0 (D : Z -> Z -> Prop) b :
  rot_inv b0 D b ->
  (forall x y, inside b0 x y ->
     D x y \/ D (mx b0 x) (my b0 y) \/
     (~ D x y /\ ~ D (mx b0 x) (my b0 y) /\ x = mx b0 x /\ y = my b0 y)) ->
  rotated b0 b.
Proof.
  intros [Hwf Hsh Hd Ht Hh] Hcov.
  split; [exact Hwf|]. split; [exact Hsh|]. split; [|exact Hh].
  intros x y Hin. destruct (Hcov x y Hin) as [H | [H | (H1 & H2 & H3 & H4)]].
  - apply Hd; auto.
  - apply Hd; auto.
  - rewrite Ht by assumption. rewrite <- H3, <- H4. reflexivity.
Qed.

Lemma rotate_general_spec b :
  wf b ->
  exists b', bin_img.rotate_general b (width b) (height b) = Ok b' /\ rotated b b'.
Proof.
  intros Hwf. unfold bin_img.rotate_general.
  destruct (general_rows b (width b) (height b) Hwf eq_refl eq_refl) as (b1 & E1 & Hinv1).
  cbv zeta in E1. rewrite E1. simpl.
  pose proof (wf_rect _ Hwf) as Hr. unfold rect_ok, int_range in Hr.
  set (w := width b) in *. set (h := height b) in *.
  assert (0 <= h /\ 0 <= w) as [Hh0 Hw0] by (subst w h; unfold width, height; lia).
  pose proof (Z.quot_div_nonneg h 2 Hh0 ltac:(lia)) as Hq.
  pose proof (Z.rem_mod_nonneg h 2 Hh0 ltac:(lia)) as Hrm.
  pose proof (Z.div_mod h 2 ltac:(lia)) as Hdm.
  pose proof (Z.mod_pos_bound h 2 ltac:(lia)) as Hmb.
  pose proof (Z.quot_div_nonneg w 2 Hw0 ltac:(lia)) as Hqw.
  pose proof (Z.div_mod w 2 ltac:(lia)) as Hdmw.
  pose proof (Z.mod_pos_bound w 2 ltac:(lia)) as Hmbw.
  destruct (Z.eqb_spec (Z.rem h 2) 1) as [Hodd | Heven].
  - (* the middle row *)
    assert (MinY (bin_img.Rect b) +i Z.quot h 2 = MinY (bin_img.Rect b) + Z.quot h 2) as Ey
      by (subst w h; unfold width, height in *; unwrap; reflexivity).
    destruct (general_row b b1 (MinY (bin_img.Rect b) +i Z.quot h 2)
                (MinY (bin_img.Rect b) +i Z.quot h 2) w (Z.quot w 2) (Z.quot h 2) Hwf)
      as (b2 & E2 & Hinv2);
      [ reflexivity | lia | exact Ey
      | rewrite Ey; subst h; unfold my, height in *; lia
      | rewrite Ey; subst h; unfold height in *; lia
      | right; split; [reflexivity | lia]
      | exact Hinv1 | ].
    exists b2. split; [exact E2|].
    eapply rot_inv_finish; [exact Hinv2|].
    intros x y Hin. subst w h. unfold Dlex, inside, mx, my, width, height in *. lia.
  - exists b1. split; [reflexivity|].
    eapply rot_inv_finish; [exact Hinv1|].
    intros x y Hin. subst w h. unfold Dlex, inside, mx, my, width, height in *. lia.
Qed.

(** *** The fast path *)

Lemma Reverse8_bits v k : 0 <= k < 8 -> Z.testbit (Reverse8 v) k = Z.testbit v (7 - k).
Proof.
  intros Hk. unfold Reverse8.
  assert (k = 0 \/ k = 1 \/ k = 2 \/ k = 3 \/ k = 4 \/ k = 5 \/ k = 6 \/ k = 7)
    as Hc by lia.
  destruct Hc as [-> | [-> | [-> | [-> | [-> | [-> | [-> | ->]]]]]]];
    match goal with
    | |- _ = Z.testbit v (7 - ?c) =>
        let r := eval compute in (7 - c) in change (7 - c) with r
    end;
    destruct (Z.testbit v 0), (Z.testbit v 1), (Z.testbit v 2), (Z.testbit v 3),
             (Z.testbit v 4), (Z.testbit v 5), (Z.testbit v 6), (Z.testbit v 7);
    reflexivity.
Qed.

Lemma Reverse8_byte v : is_byte (Reverse8 v).
Proof.
  unfold Reverse8, is_byte.
  destruct (Z.testbit v 0), (Z.testbit v 1), (Z.testbit v 2), (Z.testbit v 3),
           (Z.testbit v 4), (Z.testbit v 5), (Z.testbit v 6), (Z.testbit v 7);
    (split; [apply Z.leb_le | apply Z.ltb_lt]; reflexivity).
Qed.

Lemma Reverse8_involutive v : is_byte v -> Reverse8 (Reverse8 v) = v.
Proof.
  intros Hv. apply byte_eq_bits; [apply Reverse8_byte | exact Hv |].
  intros k Hk. rewrite !Reverse8_bits by lia. f_equal. lia.
Qed.

(** The pixels of byte [i] of row [y]. *)
Definition in_byte (b0 : bin_img.Binary) (y i : Z) : Z -> Z -> Prop :=
  fun px py =>
    py - MinY (bin_img.Rect b0) = y /\ (px - MinX (bin_img.Rect b0)) / 8 = i.

Definition with_pix_shape b pix :
  length pix = length (bin_img.Pix b) -> same_shape b (bin_img.with_Pix b pix).
Proof. intros H. repeat split. exact H. Qed.

Lemma fast_step b0 (D : Z -> Z -> Prop) pix y i R :
  wf b0 -> MinX (bin_img.Rect b0) mod 8 = 0 -> width b0 = 8 * R ->
  rot_inv b0 D (bin_img.with_Pix b0 pix) ->
  0 <= y < height b0 -> 0 <= i < R ->
  (forall px py, inside b0 px py -> in_byte b0 y i px py ->
                 ~ D px py /\ ~ D (mx b0 px) (my b0 py)) ->
  let a1 := y * bin_img.Stride b0 + i in
  let a2 := (height b0 - 1 - y) * bin_img.Stride b0 + (R - 1 - i) in
  0 <= a1 < len pix /\ 0 <= a2 < len pix /\
  rot_inv b0 (fun px py => D px py \/ in_byte b0 y i px py)
    (bin_img.with_Pix b0
       (<[Z.to_nat a2 := Reverse8 (byte_at pix a1)]>
          (<[Z.to_nat a1 := Reverse8 (byte_at pix a2)]> pix))).
Proof.
  intros Hwf0 Hal Hw Hinv Hy Hi Hfresh a1 a2.
  pose proof (ri_wf _ _ _ Hinv) as Hwf. pose proof (ri_shape _ _ _ Hinv) as Hsh.
  pose proof (wf_rect _ Hwf0) as Hr. unfold rect_ok, int_range in Hr.
  unfold width in Hw. unfold height in Hy, a2.
  set (X0 := MinX (bin_img.Rect b0)) in *. set (Y0 := MinY (bin_img.Rect b0)) in *.
  set (X1 := MaxX (bin_img.Rect b0)) in *. set (Y1 := MaxY (bin_img.Rect b0)) in *.
  set (S := bin_img.Stride b0) in *.
  (* the corner pixels of the two bytes *)
  assert (inside b0 (X0 + 8 * i) (Y0 + y)) as Hp1 by (unfold inside; fold X0 X1 Y0 Y1; lia).
  assert (inside b0 (X0 + 8 * (R - 1 - i)) (Y0 + (Y1 - Y0 - 1 - y))) as Hp2
    by (unfold inside; fold X0 X1 Y0 Y1; lia).
  assert (a1 = off b0 (X0 + 8 * i) (Y0 + y)) as Ea1.
  { unfold off, a1. fold X0 Y0 S. replace (X0 + 8 * i - X0) with (i * 8) by lia.
    rewrite Z.div_mul by lia. f_equal. lia. }
  assert (a2 = off b0 (X0 + 8 * (R - 1 - i)) (Y0 + (Y1 - Y0 - 1 - y))) as Ea2.
  { unfold off, a2. fold X0 Y0 S.
    replace (X0 + 8 * (R - 1 - i) - X0) with ((R - 1 - i) * 8) by lia.
    rewrite Z.div_mul by lia. f_equal. lia. }
  assert (len pix = len (bin_img.Pix b0)) as Hlen.
  { destruct Hsh as (_ & _ & Hl). simpl in Hl. unfold len. lia. }
  assert (0 <= a1 < len pix) as Ha1 by (rewrite Ea1, Hlen; apply off_range; assumption).
  assert (0 <= a2 < len pix) as Ha2 by (rewrite Ea2, Hlen; apply off_range; assumption).
  split; [exact Ha1|]. split; [exact Ha2|].
  set (pix' := <[Z.to_nat a2 := Reverse8 (byte_at pix a1)]>
                 (<[Z.to_nat a1 := Reverse8 (byte_at pix a2)]> pix)).
  assert (forall a k, 0 <= a -> 0 <= k < 8 ->
            getbit pix' a k =
            if a =? a2 then getbit pix a1 (7 - k)
            else if a =? a1 then getbit pix a2 (7 - k) else getbit pix a k) as Hbits.
  { intros a k Ha Hk. unfold getbit, pix'.
    rewrite byte_at_insert by (rewrite ?len_insert; lia).
    destruct (Z.eqb_spec a a2); [apply Reverse8_bits; lia|].
    rewrite byte_at_insert by lia.
    destruct (Z.eqb_spec a a1); [apply Reverse8_bits; lia|reflexivity]. }
  (* where a pixel lives *)
  assert (forall px py, inside b0 px py ->
            off b0 px py = (py - Y0) * S + (px - X0) / 8 /\
            px mod 8 = (px - X0) mod 8 /\
            0 <= (px - X0) / 8 < R /\ 0 <= (py - Y0) < Y1 - Y0) as Hgeo.
  { intros px py [Hpx Hpy]. fold X0 X1 in Hpx. fold Y0 Y1 in Hpy.
    split; [reflexivity|]. split.
    - replace px with ((px - X0) + X0) at 1 by lia.
      rewrite <- Z.add_mod_idemp_r, Hal, Z.add_0_r by lia. reflexivity.
    - split; [|lia]. split; [apply Z.div_pos; lia|].
      apply Z.div_lt_upper_bound; lia. }
  assert (0 < S /\ R <= S) as [HS0 HRS].
  { destruct (wf_fit _ Hwf0) as [Hf _]; unfold width, height; fold X0 X1 Y0 Y1 S; try lia.
    revert Hf. unfold width. fold X0 X1 S. rewrite Hw.
    replace (8 * R + 7) with (7 + R * 8) by lia.
    rewrite Z.div_add by lia. change (7 / 8) with 0. lia. }
  (* the byte of a pixel decides its row and column *)
  assert (forall px py r c, inside b0 px py -> 0 <= r -> 0 <= c < R ->
            (off b0 px py = r * S + c <-> py - Y0 = r /\ (px - X0) / 8 = c)) as Hbyte.
  { intros px py r c Hin Hr0 Hc.
    destruct (Hgeo px py Hin) as (Eo & _ & Hq & Hrow). rewrite Eo.
    split; [|intros [-> ->]; reflexivity].
    intros E. assert (py - Y0 = r) by nia. split; [assumption|]. subst r. lia. }
  assert (forall px py, inside b0 px py ->
            (off b0 px py = a1 <-> in_byte b0 y i px py)) as Hin1.
  { intros px py Hin. unfold a1, in_byte. fold X0 Y0. apply Hbyte; auto; lia. }
  assert (forall px py, inside b0 px py ->
            (off b0 px py = a2 <-> in_byte b0 y i (mx b0 px) (my b0 py))) as Hin2.
  { intros px py Hin. unfold a2, in_byte, mx, my. fold X0 Y0 X1 Y1.
    rewrite (Hbyte px py (Y1 - Y0 - 1 - y) (R - 1 - i)) by (auto; lia).
    destruct (Hgeo px py Hin) as (_ & _ & Hq & Hrow).
    replace (X0 + X1 - 1 - px - X0) with (8 * R - 1 - (px - X0)) by lia.
    pose proof (Z.div_mod (px - X0) 8 ltac:(lia)).
    pose proof (Z.mod_pos_bound (px - X0) 8 ltac:(lia)).
    pose proof (Z.div_mod (8 * R - 1 - (px - X0)) 8 ltac:(lia)).
    pose proof (Z.mod_pos_bound (8 * R - 1 - (px - X0)) 8 ltac:(lia)).
    lia. }
  assert (forall px py, inside b0 px py ->
            (mx b0 px) mod 8 = 7 - px mod 8) as Hmbit.
  { intros px py Hin.
    destruct (Hgeo px py Hin) as (_ & Em & Hq & _).
    destruct (Hgeo _ _ (mirror_inside b0 px py Hin)) as (_ & Em' & _ & _).
    rewrite Em', Em. unfold mx. fold X0 X1.
    replace (X0 + X1 - 1 - px - X0) with (8 * R - 1 - (px - X0)) by lia.
    pose proof (Z.div_mod (px - X0) 8 ltac:(lia)).
    pose proof (Z.mod_pos_bound (px - X0) 8 ltac:(lia)).
    pose proof (Z.div_mod (8 * R - 1 - (px - X0)) 8 ltac:(lia)).
    pose proof (Z.mod_pos_bound (8 * R - 1 - (px - X0)) 8 ltac:(lia)).
    lia. }
  assert (forall px py, inside b0 px py ->
            pixel (bin_img.with_Pix b0 pix') px py =
            if off b0 px py =? a2 then getbit pix a1 (px mod 8)
            else if off b0 px py =? a1 then getbit pix a2 (px mod 8)
                 else pixel (bin_img.with_Pix b0 pix) px py) as Hpix.
  { intros px py Hin. unfold pixel. simpl.
    change (off (bin_img.with_Pix b0 pix') px py) with (off b0 px py).
    change (off (bin_img.with_Pix b0 pix) px py) with (off b0 px py).
    pose proof (off_range b0 px py Hwf0 Hin).
    pose proof (Z.mod_pos_bound px 8 ltac:(lia)).
    rewrite Hbits by lia. replace (7 - (7 - px mod 8)) with (px mod 8) by lia.
    reflexivity. }
  apply (rot_inv_step b0 D (in_byte b0 y i) (bin_img.with_Pix b0 pix)); auto.
  - destruct Hwf as [W1 W2 W3 W4 W5]. constructor; simpl in *; auto.
    + unfold pix'. repeat apply Forall_insert_byte; auto using Reverse8_byte.
    + unfold pix'. rewrite !len_insert. exact W3.
    + unfold pix'. rewrite !len_insert. exact W5.
  - unfold same_shape. simpl. split; [reflexivity|]. split; [reflexivity|].
    unfold pix'. rewrite !length_insert. reflexivity.
  - (* the exchanged pixels *)
    intros px py Hin HN.
    pose proof (mirror_inside b0 px py Hin) as Hmin.
    assert (pixel (bin_img.with_Pix b0 pix) (mx b0 px) (my b0 py) =
            getbit pix (off b0 (mx b0 px) (my b0 py)) (px mod 8)) as ->.
    { unfold pixel. simpl.
      change (off (bin_img.with_Pix b0 pix) (mx b0 px) (my b0 py))
        with (off b0 (mx b0 px) (my b0 py)).
      rewrite (Hmbit px py Hin). f_equal. lia. }
    rewrite Hpix by assumption.
    destruct (Z.eqb_spec (off b0 px py) a2) as [E2 | N2].
    + (* the pixel is in the second byte, its mirror image in the first *)
      apply Hin2 in E2; [|assumption]. apply Hin1 in E2; [|assumption].
      rewrite E2. reflexivity.
    + destruct (Z.eqb_spec (off b0 px py) a1) as [E1 | N1].
      * apply Hin1 in E1; [|assumption].
        assert (off b0 (mx b0 px) (my b0 py) = a2) as ->; [|reflexivity].
        apply Hin2; [assumption|]. rewrite mx_mx, my_my. exact E1.
      * exfalso. destruct HN as [HN | HN].
        -- apply N1. apply Hin1; assumption.
        -- apply N2. apply Hin2; assumption.
  - intros px py Hin Hn1 Hn2. rewrite Hpix by assumption.
    destruct (Z.eqb_spec (off b0 px py) a2) as [E2 | N2].
    + exfalso. apply Hn2. apply Hin2; assumption.
    + destruct (Z.eqb_spec (off b0 px py) a1) as [E1 | N1]; [|reflexivity].
      exfalso. apply Hn1. apply Hin1; assumption.
  - (* bits of no pixel *)
    intros a k Ha Hk Hhid. simpl. rewrite Hbits by lia.
    assert (forall r c, 0 <= r < Y1 - Y0 -> 0 <= c < R -> a <> r * S + c) as Hno.
    { intros r c Hr0 Hc Ea.
      apply (Hhid (X0 + 8 * c + (7 - k)) (Y0 + r)).
      - unfold inside. fold X0 X1 Y0 Y1. lia.
      - split.
        + rewrite Ea. unfold off. fold X0 Y0 S.
          replace (X0 + 8 * c + (7 - k) - X0) with ((7 - k) + c * 8) by lia.
          rewrite Z.div_add by lia. rewrite Z.div_small by lia. lia.
        + replace (X0 + 8 * c + (7 - k)) with ((7 - k) + (X0 + c * 8)) by lia.
          rewrite <- Z.add_mod_idemp_r by lia.
          rewrite Z.mod_add by lia. rewrite Hal, Z.add_0_r.
          rewrite Z.mod_small by lia. lia. }
    destruct (Z.eqb_spec a a2) as [E2 | N2].
    + exfalso. apply (Hno (Y1 - Y0 - 1 - y) (R - 1 - i)); first [lia | exact E2].
    + destruct (Z.eqb_spec a a1) as [E1 | N1]; [|reflexivity].
      exfalso. apply (Hno y i); first [lia | exact E1].
Qed.

Lemma win_get_ok (pix : list Z) row i :
  0 <= i < w_len row -> 0 <= w_lo row + i < len pix ->
  win_get pix row i = Ok (byte_at pix (w_lo row + i)).
Proof.
  intros Hi Ha. unfold win_get.
  destruct (Z.leb_spec 0 i); [|lia]. destruct (Z.ltb_spec i (w_len row)); [|lia].
  simpl. apply index_ok. exact Ha.
Qed.

Lemma win_set_ok (pix : list Z) row i v :
  0 <= i < w_len row -> 0 <= w_lo row + i < len pix ->
  win_set pix row i v = Ok (<[Z.to_nat (w_lo row + i) := v]> pix).
Proof.
  intros Hi Ha. unfold win_set.
  destruct (Z.leb_spec 0 i); [|lia]. destruct (Z.ltb_spec i (w_len row)); [|lia].
  simpl. apply assign_ok. exact Ha.
Qed.

Lemma reslice_ok (pix : list Z) lo hi :
  0 <= lo <= hi -> hi <= len pix ->
  reslice pix lo hi = Ok {| w_lo := lo; w_len := hi - lo |}.
Proof.
  intros H1 H2. unfold reslice.
  destruct (Z.leb_spec 0 lo); [|lia]. destruct (Z.leb_spec lo hi); [|lia].
  destruct (Z.leb_spec hi (len pix)); [|lia]. reflexivity.
Qed.

(** The inner loop of the fast path over the windows of rows [y] and
    [h-1-y]; the middle row is the case where the two are one. *)
Lemma fast_inner b0 pix y row1 row2 R n :
  wf b0 -> MinX (bin_img.Rect b0) mod 8 = 0 -> width b0 = 8 * R ->
  0 <= y < height b0 -> 0 <= n ->
  w_lo row1 = y * bin_img.Stride b0 -> w_len row1 = R ->
  w_lo row2 = (height b0 - 1 - y) * bin_img.Stride b0 -> w_len row2 = R ->
  (y < height b0 - 1 - y /\ n <= R) \/ (y = height b0 - 1 - y /\ 2 * n <= R) ->
  rot_inv b0 (Dlex b0 y 0) (bin_img.with_Pix b0 pix) ->
  exists pix',
    for_range 0 n (fun i pix =>
      let j := R -i 1 -i i in
      a <- win_get pix row1 i ;;
      c <- win_get pix row2 j ;;
      pix <- win_set pix row1 i (Reverse8 c) ;;
      win_set pix row2 j (Reverse8 a)) pix = Ok pix' /\
    rot_inv b0 (Dlex b0 y (8 * n)) (bin_img.with_Pix b0 pix').
Proof.
  intros Hwf0 Hal Hw Hy Hn0 L1 N1 L2 N2 Hcase Hinv.
  pose proof (wf_rect _ Hwf0) as Hr. unfold rect_ok, int_range in Hr.
  assert (0 <= R < 2 ^ 63) as HR by (unfold width in Hw; lia).
  apply (for_range_inv
           (fun i pix => rot_inv b0 (Dlex b0 y (8 * i)) (bin_img.with_Pix b0 pix)));
    [lia | exact Hinv |].
  intros i t Hi Ht. cbv zeta.
  assert (R -i 1 -i i = R - 1 - i) as -> by (unwrap; reflexivity).
  destruct (fast_step b0 (Dlex b0 y (8 * i)) t y i R Hwf0 Hal Hw Ht Hy ltac:(lia))
    as (Ha1 & Ha2 & Hinv').
  { intros px py Hin [Ey Ex]. revert Hcase Hw Hy Hi.
    pose proof (Z.div_mod (px - MinX (bin_img.Rect b0)) 8 ltac:(lia)).
    pose proof (Z.mod_pos_bound (px - MinX (bin_img.Rect b0)) 8 ltac:(lia)).
    unfold Dlex, mx, my, width, height, inside in *. lia. }
  rewrite <- L1 in Ha1. rewrite <- L2 in Ha2.
  rewrite (win_get_ok t row1 i) by lia. simpl.
  rewrite (win_get_ok t row2 (R - 1 - i)) by lia. simpl.
  rewrite (win_set_ok t row1 i) by lia. simpl.
  rewrite (win_set_ok _ row2 (R - 1 - i)) by (rewrite ?len_insert; lia).
  eexists. split; [reflexivity|].
  rewrite L1, L2.
  eapply rot_inv_ext; [|exact Hinv'].
  intros px py Hin. unfold Dlex, in_byte, inside in *. simpl.
  pose proof (Z.div_mod (px - MinX (bin_img.Rect b0)) 8 ltac:(lia)).
  pose proof (Z.mod_pos_bound (px - MinX (bin_img.Rect b0)) 8 ltac:(lia)).
  lia.
Qed.

(** A window on row [y] of an image whose rows are [R] bytes wide. *)
Lemma row_window b0 (pix : list Z) y R :
  wf b0 -> width b0 = 8 * R -> 0 < R -> 0 <= y < height b0 ->
  len pix = len (bin_img.Pix b0) ->
  y *i bin_img.Stride b0 = y * bin_img.Stride b0 /\
  reslice pix (y * bin_img.Stride b0) (y * bin_img.Stride b0 +i R) =
    Ok {| w_lo := y * bin_img.Stride b0; w_len := R |}.
Proof.
  intros Hwf0 Hw HR Hy Hlen.
  pose proof (wf_rect _ Hwf0) as Hr. unfold rect_ok, int_range in Hr.
  pose proof (wf_len _ Hwf0) as Hl. pose proof (wf_stride _ Hwf0) as Hs.
  destruct (wf_fit _ Hwf0) as [Hf1 Hf2]; [lia | lia |].
  rewrite Hw in Hf1, Hf2.
  replace (8 * R + 7) with (7 + R * 8) in Hf1, Hf2 by lia.
  rewrite Z.div_add in Hf1, Hf2 by lia. change (7 / 8) with 0 in Hf1, Hf2.
  assert (0 <= y * bin_img.Stride b0 <= (height b0 - 1) * bin_img.Stride b0) by nia.
  split; [unwrap; reflexivity|].
  assert (y * bin_img.Stride b0 +i R = y * bin_img.Stride b0 + R) as ->
    by (unwrap; reflexivity).
  rewrite reslice_ok by lia. f_equal. f_equal. lia.
Qed.

Lemma rotate_fast_spec b R :
  wf b -> MinX (bin_img.Rect b) mod 8 = 0 -> width b = 8 * R -> 0 < R ->
  exists b', bin_img.rotate_fast b (height b) R = Ok b' /\ rotated b b'.
Proof.
  intros Hwf Hal Hw HR. unfold bin_img.rotate_fast.
  pose proof (wf_rect _ Hwf) as Hr. unfold rect_ok, int_range in Hr.
  set (h := height b).
  assert (0 <= h < 2 ^ 63) as Hh0 by (subst h; unfold height; lia).
  pose proof (Z.quot_div_nonneg h 2 ltac:(lia) ltac:(lia)) as Hq.
  pose proof (Z.rem_mod_nonneg h 2 ltac:(lia) ltac:(lia)) as Hrm.
  pose proof (Z.div_mod h 2 ltac:(lia)) as Hdm.
  pose proof (Z.mod_pos_bound h 2 ltac:(lia)) as Hmb.
  pose proof (Z.quot_div_nonneg R 2 ltac:(lia) ltac:(lia)) as HqR.
  pose proof (Z.rem_mod_nonneg R 2 ltac:(lia) ltac:(lia)) as HrmR.
  pose proof (Z.div_mod R 2 ltac:(lia)) as HdmR.
  pose proof (Z.mod_pos_bound R 2 ltac:(lia)) as HmbR.
  (* the row pairs *)
  destruct (for_range_inv
              (fun y pix => rot_inv b (Dlex b y 0) (bin_img.with_Pix b pix))
              (fun y pix =>
                 let off1 := y *i bin_img.Stride b in
                 let off2 := (h -i 1 -i y) *i bin_img.Stride b in
                 row1 <- reslice pix off1 (off1 +i R) ;;
                 row2 <- reslice pix off2 (off2 +i R) ;;
                 for_range 0 R (fun i pix =>
                   let j := R -i 1 -i i in
                   a <- win_get pix row1 i ;;
                   c <- win_get pix row2 j ;;
                   pix <- win_set pix row1 i (Reverse8 c) ;;
                   win_set pix row2 j (Reverse8 a)) pix)
              0 (Z.quot h 2) (bin_img.Pix b)) as (pix1 & E1 & Hinv1).
  - lia.
  - replace (bin_img.with_Pix b (bin_img.Pix b)) with b by (destruct b; reflexivity).
    eapply rot_inv_ext; [|apply rot_inv_init; exact Hwf].
    intros x y Hin. unfold Dlex, inside in *. simpl. lia.
  - intros y t Hy Ht. cbv zeta.
    assert (len t = len (bin_img.Pix b)) as Hlen.
    { destruct (ri_shape _ _ _ Ht) as (_ & _ & Hl). simpl in Hl. unfold len. lia. }
    assert (h -i 1 -i y = h - 1 - y) as -> by (unwrap; reflexivity).
    destruct (row_window b t y R Hwf Hw HR ltac:(fold h; lia) Hlen) as [-> ->].
    destruct (row_window b t (h - 1 - y) R Hwf Hw HR ltac:(fold h; lia) Hlen) as [-> ->].
    simpl.
    destruct (fast_inner b t y
                {| w_lo := y * bin_img.Stride b; w_len := R |}
                {| w_lo := (h - 1 - y) * bin_img.Stride b; w_len := R |}
                R R Hwf Hal Hw ltac:(fold h; lia) ltac:(lia)
                eq_refl eq_refl eq_refl eq_refl ltac:(fold h; lia) Ht)
      as (t' & E & Hinv').
    exists t'. split; [exact E|].
    eapply rot_inv_ext; [|exact Hinv'].
    intros px py Hin. unfold Dlex, inside, width in *. lia.
  - cbv zeta in E1. rewrite E1. simpl.
    assert (len pix1 = len (bin_img.Pix b)) as Hlen1.
    { destruct (ri_shape _ _ _ Hinv1) as (_ & _ & Hl). simpl in Hl. unfold len. lia. }
    destruct (Z.eqb_spec (Z.rem h 2) 1) as [Hodd | Heven].
    + (* the middle row *)
      destruct (row_window b pix1 (Z.quot h 2) R Hwf Hw HR ltac:(fold h; lia) Hlen1)
        as [-> ->].
      simpl.
      destruct (fast_inner b pix1 (Z.quot h 2)
                  {| w_lo := Z.quot h 2 * bin_img.Stride b; w_len := R |}
                  {| w_lo := Z.quot h 2 * bin_img.Stride b; w_len := R |}
                  R (Z.quot R 2) Hwf Hal Hw
                  ltac:(fold h; lia) ltac:(lia) eq_refl eq_refl
                  ltac:(simpl; fold h; f_equal; lia) eq_refl
                  ltac:(fold h; lia) Hinv1)
        as (pix2 & E2 & Hinv2).
      cbv zeta in E2. rewrite E2. simpl.
      assert (len pix2 = len (bin_img.Pix b)) as Hlen2.
      { destruct (ri_shape _ _ _ Hinv2) as (_ & _ & Hl). simpl in Hl. unfold len. lia. }
      destruct (Z.eqb_spec (Z.rem R 2) 1) as [HoddR | HevenR].
      * (* the middle byte *)
        destruct (fast_step b (Dlex b (Z.quot h 2) (8 * Z.quot R 2)) pix2
                    (Z.quot h 2) (Z.quot R 2) R Hwf Hal Hw Hinv2
                    ltac:(fold h; lia) ltac:(lia)) as (Ha1 & Ha2 & Hinv3).
        { intros px py Hin [Ey Ex]. revert Hw.
          pose proof (Z.div_mod (px - MinX (bin_img.Rect b)) 8 ltac:(lia)).
          pose proof (Z.mod_pos_bound (px - MinX (bin_img.Rect b)) 8 ltac:(lia)).
          subst h. unfold Dlex, mx, my, width, height, inside in *. lia. }
        fold h in Ha2, Hinv3.
        replace ((h - 1 - Z.quot h 2) * bin_img.Stride b + (R - 1 - Z.quot R 2))
          with (Z.quot h 2 * bin_img.Stride b + Z.quot R 2) in Hinv3, Ha2
          by (f_equal; lia).
        rewrite list_insert_insert_eq in Hinv3.
        rewrite (win_get_ok pix2) by (simpl; lia). simpl.
        rewrite (win_set_ok pix2) by (simpl; lia). simpl.
        eexists. split; [reflexivity|].
        eapply rot_inv_finish; [exact Hinv3|].
        intros x y Hin. revert Hw.
        pose proof (Z.div_mod (x - MinX (bin_img.Rect b)) 8 ltac:(lia)).
        pose proof (Z.mod_pos_bound (x - MinX (bin_img.Rect b)) 8 ltac:(lia)).
        pose proof (Z.div_mod (mx b x - MinX (bin_img.Rect b)) 8 ltac:(lia)).
        pose proof (Z.mod_pos_bound (mx b x - MinX (bin_img.Rect b)) 8 ltac:(lia)).
        subst h. unfold Dlex, in_byte, inside, mx, my, width, height in *. lia.
      * exists (bin_img.with_Pix b pix2). split; [reflexivity|].
        eapply rot_inv_finish; [exact Hinv2|].
        intros x y Hin. revert Hw.
        subst h. unfold Dlex, inside, mx, my, width, height in *. lia.
    + exists (bin_img.with_Pix b pix1). split; [reflexivity|].
      eapply rot_inv_finish; [exact Hinv1|].
      intros x y Hin. subst h. unfold Dlex, inside, mx, my, width, height in *. lia.
Qed.

(** *** [Rotate180] *)

Lemma land_7 x : Z.land x 7 = x mod 8.
Proof. change 7 with (Z.ones 3). rewrite Z.land_ones by lia. reflexivity. Qed.

Lemma Rotate180_spec b :
  wf b -> exists b', bin_img.Rotate180 b = Ok b' /\ rotated b b'.
Proof.
  intros Hwf. unfold bin_img.Rotate180.
  pose proof (wf_rect _ Hwf) as Hr.
  rewrite (Dx_ok _ Hr), (Dy_ok _ Hr).
  unfold rect_ok, int_range in Hr.
  change (MaxX (bin_img.Rect b) - MinX (bin_img.Rect b)) with (width b).
  change (MaxY (bin_img.Rect b) - MinY (bin_img.Rect b)) with (height b).
  assert (0 <= width b /\ 0 <= height b /\ width b + 7 < 2 ^ 63) as (Hw0 & Hh0 & Hw7)
    by (unfold width, height; lia).
  assert (rotated b b -> exists b', Ok b = Ok b' /\ rotated b b') as Hsame
    by (intros H; exists b; split; [reflexivity | exact H]).
  assert ((forall x y, inside b x y -> x = mx b x /\ y = my b y) -> rotated b b) as Hid.
  { intros H. split; [exact Hwf|]. split; [apply same_shape_refl|]. split; [|auto].
    intros x y Hin. destruct (H x y Hin) as [<- <-]. reflexivity. }
  destruct ((width b <=? 1) && (height b <=? 1)) eqn:Esmall.
  { apply Hsame, Hid. apply andb_true_iff in Esmall. destruct Esmall as [E1 E2].
    apply Z.leb_le in E1, E2. intros x y Hin.
    unfold inside, mx, my, width, height in *. lia. }
  rewrite iadd_small by (unfold int_range; lia).
  rewrite Z.shiftr_div_pow2 by lia. change (2 ^ 3) with 8.
  pose proof (Z.div_mod (width b + 7) 8 ltac:(lia)) as Hdm.
  pose proof (Z.mod_pos_bound (width b + 7) 8 ltac:(lia)) as Hmb.
  destruct (Z.leb_spec ((width b + 7) / 8) 0) as [Hrb | Hrb].
  { apply Hsame, Hid. intros x y Hin. unfold inside, width in *. lia. }
  rewrite !land_7.
  destruct (Z.eqb_spec (MinX (bin_img.Rect b) mod 8) 0) as [Hal | Hal]; simpl.
  - destruct (Z.eqb_spec (width b mod 8) 0) as [Hw8 | Hw8]; simpl.
    + apply rotate_fast_spec; auto.
      pose proof (Z.div_mod (width b) 8 ltac:(lia)). lia.
    + apply rotate_general_spec; assumption.
  - apply rotate_general_spec; assumption.
Qed.

(** Every bit of the buffer is the bit of one pixel of the rectangle, or
    of none. *)
Lemma addr_dec b i k :
  wf b -> 0 <= i -> 0 <= k < 8 ->
  (exists x y, inside b x y /\ i = off b x y /\ k = 7 - x mod 8) \/ hidden b i k.
Proof.
  intros Hwf Hi Hk.
  pose proof (wf_rect _ Hwf) as Hr. unfold rect_ok, int_range in Hr.
  set (X0 := MinX (bin_img.Rect b)). set (Y0 := MinY (bin_img.Rect b)).
  set (X1 := MaxX (bin_img.Rect b)). set (Y1 := MaxY (bin_img.Rect b)).
  set (S := bin_img.Stride b).
  destruct (Z_le_gt_dec (X1 - X0) 0) as [Hw | Hw].
  { right. intros x y [Hx Hy]. fold X0 X1 in Hx. lia. }
  destruct (Z_le_gt_dec (Y1 - Y0) 0) as [Hh | Hh].
  { right. intros x y [Hx Hy]. fold Y0 Y1 in Hy. lia. }
  destruct (wf_fit _ Hwf) as [Hf1 Hf2]; [unfold width; fold X0 X1; lia
                                        | unfold height; fold Y0 Y1; lia |].
  unfold width, height in Hf1, Hf2. fold X0 X1 Y0 Y1 S in Hf1, Hf2.
  pose proof (Z.div_mod (X1 - X0 + 7) 8 ltac:(lia)) as Hdm.
  pose proof (Z.mod_pos_bound (X1 - X0 + 7) 8 ltac:(lia)) as Hmb.
  assert (0 < S) as HS by lia.
  set (dy := i / S). set (q := i mod S). set (r := (7 - k - X0) mod 8).
  pose proof (Z.div_mod i S ltac:(lia)) as Hi1. fold dy q in Hi1.
  pose proof (Z.mod_pos_bound i S ltac:(lia)) as Hi2. fold q in Hi2.
  pose proof (Z.mod_pos_bound (7 - k - X0) 8 ltac:(lia)) as Hr2. fold r in Hr2.
  assert (0 <= dy) as Hdy by (apply Z.div_pos; lia).
  assert (forall x, X0 <= x -> x mod 8 = 7 - k -> (x - X0) mod 8 = r) as Hcol.
  { intros x Hx Hm. unfold r. rewrite <- Hm.
    rewrite Zminus_mod_idemp_l. reflexivity. }
  destruct (Z_lt_ge_dec dy (Y1 - Y0)) as [Hrow | Hrow];
    [destruct (Z_lt_ge_dec (8 * q + r) (X1 - X0)) as [Hc | Hc]|].
  - left. exists (X0 + (8 * q + r)), (Y0 + dy).
    assert ((X0 + (8 * q + r)) mod 8 = 7 - k) as Hm.
    { unfold r. replace (X0 + (8 * q + (7 - k - X0) mod 8))
        with ((X0 + (7 - k - X0) mod 8) + q * 8) by lia.
      rewrite Z.mod_add by lia. rewrite Zplus_mod_idemp_r.
      replace (X0 + (7 - k - X0)) with (7 - k) by lia. apply Z.mod_small. lia. }
    split; [unfold inside; fold X0 X1 Y0 Y1; lia|]. split; [|lia].
    unfold off. fold X0 Y0 S.
    replace (X0 + (8 * q + r) - X0) with (r + q * 8) by lia.
    rewrite Z.div_add by lia. rewrite Z.div_small by lia. lia.
  - right. intros x y [Hx Hy] [Eo Ek]. fold X0 X1 in Hx. fold Y0 Y1 in Hy.
    unfold off in Eo. fold X0 Y0 S in Eo.
    pose proof (col_range b x Hx) as Hq. unfold width in Hq. fold X0 X1 in Hq.
    pose proof (Z.div_mod (x - X0) 8 ltac:(lia)) as Hx1.
    rewrite (Hcol x ltac:(lia) ltac:(lia)) in Hx1.
    assert ((x - X0) / 8 = q /\ y - Y0 = dy) as [Eq Ey].
    { assert (y - Y0 = dy) by nia. split; [|assumption]. lia. }
    lia.
  - right. intros x y [Hx Hy] [Eo Ek]. fold X0 X1 in Hx. fold Y0 Y1 in Hy.
    unfold off in Eo. fold X0 Y0 S in Eo.
    pose proof (col_range b x Hx) as Hq. unfold width in Hq. fold X0 X1 in Hq.
    assert (y - Y0 = dy) by nia. lia.
Qed.

Lemma rotated_twice b b1 b2 : wf b -> rotated b b1 -> rotated b1 b2 -> b2 = b.
Proof.
  intros Hwf (Hwf1 & Hsh1 & Hp1 & Hh1) (Hwf2 & Hsh2 & Hp2 & Hh2).
  pose proof (same_shape_trans _ _ _ Hsh1 Hsh2) as Hsh.
  assert (bin_img.Pix b2 = bin_img.Pix b) as EP.
  { apply bytes_eq_bits.
    - exact (wf_bytes _ Hwf2).
    - exact (wf_bytes _ Hwf).
    - apply Hsh.
    - intros i k Hi Hk.
      destruct (addr_dec b i k Hwf ltac:(lia) Hk) as [(x & y & Hin & -> & ->) | Hhid].
      + pose proof (mirror_inside b x y Hin) as Hmin.
        assert (inside b1 x y) as Hin1 by (apply (same_shape_inside b b1); assumption).
        specialize (Hp2 x y Hin1). specialize (Hp1 _ _ Hmin).
        rewrite (same_shape_mx b b1), (same_shape_my b b1) in Hp2 by assumption.
        rewrite mx_mx, my_my in Hp1.
        unfold pixel in Hp1, Hp2.
        rewrite (same_shape_off b b2) in Hp2 by assumption.
        rewrite (same_shape_off b b1) in Hp2, Hp1 by assumption.
        exact (eq_trans Hp2 Hp1).
      + rewrite <- (Hh1 i k ltac:(lia) Hk Hhid).
        apply (Hh2 i k ltac:(lia) Hk). eapply hidden_shape; eassumption. }
  destruct Hsh as (ER & ES & _).
  destruct b, b2. simpl in *. subst. reflexivity.
Qed.

Lemma rotated_unique b r1 r2 : wf b -> rotated b r1 -> rotated b r2 -> r1 = r2.
Proof.
  intros Hwf (Hwf1 & Hsh1 & Hp1 & Hh1) (Hwf2 & Hsh2 & Hp2 & Hh2).
  assert (bin_img.Pix r1 = bin_img.Pix r2) as EP.
  { apply bytes_eq_bits.
    - exact (wf_bytes _ Hwf1).
    - exact (wf_bytes _ Hwf2).
    - destruct Hsh1 as (_ & _ & ->). destruct Hsh2 as (_ & _ & ->). reflexivity.
    - intros i k Hi Hk.
      destruct (addr_dec b i k Hwf ltac:(lia) Hk) as [(x & y & Hin & -> & ->) | Hhid].
      + specialize (Hp1 x y Hin). specialize (Hp2 x y Hin).
        unfold pixel in Hp1, Hp2.
        rewrite (same_shape_off b r1) in Hp1 by assumption.
        rewrite (same_shape_off b r2) in Hp2 by assumption.
        congruence.
      + rewrite (Hh1 i k ltac:(lia) Hk Hhid), (Hh2 i k ltac:(lia) Hk Hhid).
        reflexivity. }
  destruct Hsh1 as (ER1 & ES1 & _), Hsh2 as (ER2 & ES2 & _).
  destruct r1, r2. simpl in *. subst. reflexivity.
Qed.

(** Which path [Rotate180] takes. *)
Lemma Rotate180_aligned b :
  wf b -> MinX (bin_img.Rect b) mod 8 = 0 -> width b mod 8 = 0 -> 0 < width b ->
  bin_img.Rotate180 b = bin_img.rotate_fast b (height b) (width b / 8).
Proof.
  intros Hwf Hal Hw8 Hw. unfold bin_img.Rotate180.
  pose proof (wf_rect _ Hwf) as Hr. rewrite (Dx_ok _ Hr), (Dy_ok _ Hr).
  unfold rect_ok, int_range in Hr.
  change (MaxX (bin_img.Rect b) - MinX (bin_img.Rect b)) with (width b) in *.
  change (MaxY (bin_img.Rect b) - MinY (bin_img.Rect b)) with (height b) in *.
  pose proof (Z.div_mod (width b) 8 ltac:(lia)) as Hdm.
  destruct (Z.leb_spec (width b) 1); [lia|]. simpl.
  rewrite iadd_small by (unfold int_range; lia).
  rewrite Z.shiftr_div_pow2 by lia. change (2 ^ 3) with 8.
  assert ((width b + 7) / 8 = width b / 8) as ->.
  { replace (width b + 7) with (7 + (width b / 8) * 8) by lia.
    rewrite Z.div_add by lia. reflexivity. }
  destruct (Z.leb_spec (width b / 8) 0); [lia|].
  rewrite !land_7, Hal, Hw8. reflexivity.
Qed.

Lemma Rotate180_unaligned b :
  wf b -> MinX (bin_img.Rect b) mod 8 <> 0 \/ width b mod 8 <> 0 ->
  1 < width b \/ (1 <= width b /\ 1 < height b) ->
  bin_img.Rotate180 b = bin_img.rotate_general b (width b) (height b).
Proof.
  intros Hwf Hun Hbig. unfold bin_img.Rotate180.
  pose proof (wf_rect _ Hwf) as Hr. rewrite (Dx_ok _ Hr), (Dy_ok _ Hr).
  unfold rect_ok, int_range in Hr.
  change (MaxX (bin_img.Rect b) - MinX (bin_img.Rect b)) with (width b) in *.
  change (MaxY (bin_img.Rect b) - MinY (bin_img.Rect b)) with (height b) in *.
  assert ((width b <=? 1) && (height b <=? 1) = false) as ->.
  { apply andb_false_iff. rewrite !Z.leb_gt. lia. }
  rewrite iadd_small by (unfold int_range; lia).
  rewrite Z.shiftr_div_pow2 by lia. change (2 ^ 3) with 8.
  pose proof (Z.div_mod (width b + 7) 8 ltac:(lia)) as Hdm.
  pose proof (Z.mod_pos_bound (width b + 7) 8 ltac:(lia)) as Hmb.
  destruct (Z.leb_spec ((width b + 7) / 8) 0); [lia|].
  rewrite !land_7.
  destruct (Z.eqb_spec (MinX (bin_img.Rect b) mod 8) 0);
    destruct (Z.eqb_spec (width b mod 8) 0); simpl; try reflexivity.
  lia.
Qed.

(** The fast path and the general path on one and the same aligned image:
    the buffers they leave are equal. *)
Lemma fast_path_refines_general b :
  wf b -> MinX (bin_img.Rect b) mod 8 = 0 -> width b mod 8 = 0 -> 0 < width b ->
  bin_img.rotate_fast b (height b) (width b / 8) =
  bin_img.rotate_general b (width b) (height b).
Proof.
  intros Hwf Hal Hw8 Hw.
  pose proof (Z.div_mod (width b) 8 ltac:(lia)) as Hdm.
  destruct (rotate_fast_spec b (width b / 8) Hwf Hal ltac:(lia) ltac:(lia))
    as (r1 & E1 & H1).
  destruct (rotate_general_spec b Hwf) as (r2 & E2 & H2).
  rewrite E1, E2. f_equal. eapply rotated_unique; eassumption.
Qed.

(** C4.  Applying [Rotate180] twice to a well-formed image, aligned or
    not, of any width and height, gives back the image it started from:
    the same rectangle, stride and buffer, byte for byte. *)
Theorem Rotate180_twice b :
  wf b ->
  exists b1, bin_img.Rotate180 b = Ok b1 /\ bin_img.Rotate180 b1 = Ok b.
Proof.
  intros Hwf.
  destruct (Rotate180_spec b Hwf) as (b1 & E1 & H1).
  pose proof H1 as (Hwf1 & _).
  destruct (Rotate180_spec b1 Hwf1) as (b2 & E2 & H2).
  exists b1. split; [exact E1|].
  rewrite E2. f_equal. eapply rotated_twice; eassumption.
Qed.

(** C5.  An aligned image (fast path) and an unaligned view (general path)
    of the same size that show the same pixels show the same pixels after
    [Rotate180]. *)
Theorem Rotate180_paths_agree b1 b2 :
  wf b1 -> wf b2 ->
  width b1 = width b2 -> height b1 = height b2 ->
  MinX (bin_img.Rect b1) mod 8 = 0 -> width b1 mod 8 = 0 -> 0 < width b1 ->
  MinX (bin_img.Rect b2) mod 8 <> 0 ->
  (forall dx dy, 0 <= dx < width b1 -> 0 <= dy < height b1 ->
     bin_img.bit b1 (MinX (bin_img.Rect b1) + dx) (MinY (bin_img.Rect b1) + dy) =
     bin_img.bit b2 (MinX (bin_img.Rect b2) + dx) (MinY (bin_img.Rect b2) + dy)) ->
  exists r1 r2,
    bin_img.Rotate180 b1 = Ok r1 /\
    bin_img.Rotate180 b1 = bin_img.rotate_fast b1 (height b1) (width b1 / 8) /\
    bin_img.Rotate180 b2 = Ok r2 /\
    bin_img.Rotate180 b2 = bin_img.rotate_general b2 (width b2) (height b2) /\
    forall dx dy, 0 <= dx < width b1 -> 0 <= dy < height b1 ->
      bin_img.bit r1 (MinX (bin_img.Rect b1) + dx) (MinY (bin_img.Rect b1) + dy) =
      bin_img.bit r2 (MinX (bin_img.Rect b2) + dx) (MinY (bin_img.Rect b2) + dy).
Proof.
  intros Hwf1 Hwf2 Ew Eh Hal Hw8 Hw Hun Hsame.
  destruct (Rotate180_spec b1 Hwf1) as (r1 & E1 & Hr1wf & Hsh1 & Hp1 & _).
  destruct (Rotate180_spec b2 Hwf2) as (r2 & E2 & Hr2wf & Hsh2 & Hp2 & _).
  pose proof (Z.div_mod (width b1) 8 ltac:(lia)) as Hdm.
  exists r1, r2. split; [exact E1|]. split; [apply Rotate180_aligned; assumption|].
  split; [exact E2|]. split; [apply Rotate180_unaligned; auto; lia|].
  intros dx dy Hdx Hdy.
  assert (inside b1 (MinX (bin_img.Rect b1) + dx) (MinY (bin_img.Rect b1) + dy)) as Hin1
    by (unfold inside, width, height in *; lia).
  assert (inside b2 (MinX (bin_img.Rect b2) + dx) (MinY (bin_img.Rect b2) + dy)) as Hin2
    by (unfold inside, width, height in *; lia).
  rewrite (bit_inside r1) by (auto; apply (same_shape_inside b1 r1); assumption).
  rewrite (bit_inside r2) by (auto; apply (same_shape_inside b2 r2); assumption).
  rewrite Hp1, Hp2 by assumption.
  specialize (Hsame (width b1 - 1 - dx) (height b1 - 1 - dy) ltac:(lia) ltac:(lia)).
  rewrite (bit_inside b1), (bit_inside b2) in Hsame;
    try assumption; try (unfold inside, width, height in *; lia).
  replace (mx b1 (MinX (bin_img.Rect b1) + dx))
    with (MinX (bin_img.Rect b1) + (width b1 - 1 - dx)) by (unfold mx, width; lia).
  replace (my b1 (MinY (bin_img.Rect b1) + dy))
    with (MinY (bin_img.Rect b1) + (height b1 - 1 - dy)) by (unfold my, height; lia).
  replace (mx b2 (MinX (bin_img.Rect b2) + dx))
    with (MinX (bin_img.Rect b2) + (width b1 - 1 - dx)) by (unfold mx, width in *; lia).
  replace (my b2 (MinY (bin_img.Rect b2) + dy))
    with (MinY (bin_img.Rect b2) + (height b1 - 1 - dy)) by (unfold my, height in *; lia).
  exact Hsame.
Qed.

(** Example images: a 9x3 view that starts at x = 3 of a buffer with two
    bytes a row, an aligned 8x2 image, and an 8x2 view that starts at
    x = 3 and shows the same pixels. *)
Definition view_9x3 : bin_img.Binary :=
  {| bin_img.Pix := [180; 90; 60; 195; 153; 102]; bin_img.Stride := 2;
     bin_img.Rect := {| MinX := 3; MinY := 1; MaxX := 12; MaxY := 4 |} |}.

Definition aligned_8x2 : bin_img.Binary :=
  {| bin_img.Pix := [180; 90]; bin_img.Stride := 1;
     bin_img.Rect := {| MinX := 0; MinY := 0; MaxX := 8; MaxY := 2 |} |}.

Definition view_8x2 : bin_img.Binary :=
  {| bin_img.Pix := [150; 75]; bin_img.Stride := 1;
     bin_img.Rect := {| MinX := 3; MinY := 0; MaxX := 11; MaxY := 2 |} |}.

Ltac wf_by_computation :=
  constructor;
  [ unfold rect_ok, int_range; simpl; lia
  | repeat constructor; unfold is_byte; lia
  | unfold len; simpl; lia
  | simpl; lia
  | intros _ _; vm_compute; split; discriminate ].

Lemma view_9x3_wf : wf view_9x3.
Proof. wf_by_computation. Defined.

Lemma aligned_8x2_wf : wf aligned_8x2.
Proof. wf_by_computation. Defined.

Lemma view_8x2_wf : wf view_8x2.
Proof. wf_by_computation. Defined.

Lemma Rotate180_twice_witness :
  wf view_9x3 /\
  exists b1, bin_img.Rotate180 view_9x3 = Ok b1 /\ bin_img.Rotate180 b1 = Ok view_9x3.
Proof.
  split; [exact view_9x3_wf | exact (Rotate180_twice view_9x3 view_9x3_wf)].
Defined.

Lemma Rotate180_paths_agree_witness :
  exists r1 r2,
    bin_img.Rotate180 aligned_8x2 = Ok r1 /\
    bin_img.Rotate180 aligned_8x2 = bin_img.rotate_fast aligned_8x2 2 1 /\
    bin_img.Rotate180 view_8x2 = Ok r2 /\
    bin_img.Rotate180 view_8x2 = bin_img.rotate_general view_8x2 8 2 /\
    forall dx dy, 0 <= dx < 8 -> 0 <= dy < 2 ->
      bin_img.bit r1 (0 + dx) (0 + dy) = bin_img.bit r2 (3 + dx) (0 + dy).
Proof.
  apply (Rotate180_paths_agree aligned_8x2 view_8x2 aligned_8x2_wf view_8x2_wf).
  - reflexivity.
  - reflexivity.
  - reflexivity.
  - reflexivity.
  - vm_compute. reflexivity.
  - vm_compute. discriminate.
  - intros dx dy Hdx Hdy.
    assert (dx = 0 \/ dx = 1 \/ dx = 2 \/ dx = 3 \/ dx = 4 \/ dx = 5 \/ dx = 6 \/ dx = 7)
      as Hx by (change (width aligned_8x2) with 8 in Hdx; lia).
    assert (dy = 0 \/ dy = 1) as Hy by (change (height aligned_8x2) with 2 in Hdy; lia).
    destruct Hy as [-> | ->];
      destruct Hx as [-> | [-> | [-> | [-> | [-> | [-> | [-> | ->]]]]]]]; reflexivity.
Defined.

(** ** Reading outside the rectangle *)

(** C9.  [IsWhite] and [IsBlack] go straight to [bit], without the bounds
    test that [At] and [Set] make.  On the 8x1 image of [NewBinary] the
    coordinate (0, 1), below the rectangle, is a fault for both, where [At]
    answers black; and on an 8x2 image with pixel (0, 1) on, the
    coordinate (8, 0), right of the rectangle, reads that pixel:
    [IsWhite] is true and [IsBlack] false. *)
Theorem IsWhite_outside_rect :
  (exists b,
     bin_img.NewBinary 8 1 = Ok b /\
     In 0 1 (bin_img.Rect b) = false /\
     bin_img.IsWhite b 0 1 = Panic /\
     bin_img.IsBlack b 0 1 = Panic /\
     bin_img.At b 0 1 = Ok (Gray 0)) /\
  (exists b,
     (b0 <- bin_img.NewBinary 8 2 ;; bin_img.SetOn b0 0 1) = Ok b /\
     In 8 0 (bin_img.Rect b) = false /\
     bin_img.IsWhite b 8 0 = Ok true /\
     bin_img.IsBlack b 8 0 = Ok false /\
     bin_img.At b 8 0 = Ok (Gray 0)).
Proof.
  split; eexists; (split; [vm_compute; reflexivity|]); repeat split; reflexivity.
Qed.

(** Inside the rectangle the two read the pixel. *)
Lemma IsWhite_inside b x y :
  wf b -> inside b x y ->
  bin_img.IsWhite b x y = Ok (pixel b x y) /\
  bin_img.IsBlack b x y = Ok (negb (pixel b x y)).
Proof.
  intros Hwf Hin. unfold bin_img.IsWhite, bin_img.IsBlack.
  rewrite bit_inside by assumption. split; reflexivity.
Qed.

(** ** Thresholding *)

(** A buffer with whole rows: every row of the rectangle has its [Stride]
    bytes in the buffer, as after [NewBinary]. *)
Definition whole_rows (b : bin_img.Binary) : Prop :=
  width b <= 8 * bin_img.Stride b /\
  height b * bin_img.Stride b <= len (bin_img.Pix b).

Lemma zero_row (pix0 : list Z) lo n :
  0 <= lo -> 0 <= n -> lo + n <= len pix0 -> Forall is_byte pix0 ->
  exists pix,
    for_range 0 n (fun i pix => win_set pix {| w_lo := lo; w_len := n |} i 0) pix0
      = Ok pix /\
    length pix = length pix0 /\ Forall is_byte pix /\
    forall j, 0 <= j ->
      byte_at pix j = if (lo <=? j) && (j <? lo + n) then 0 else byte_at pix0 j.
Proof.
  intros Hlo Hn Hfit Hby.
  destruct (for_range_inv
              (fun i pix => length pix = length pix0 /\ Forall is_byte pix /\
                 forall j, 0 <= j ->
                   byte_at pix j = if (lo <=? j) && (j <? lo + i) then 0 else byte_at pix0 j)
              (fun i pix => win_set pix {| w_lo := lo; w_len := n |} i 0)
              0 n pix0) as (pix & E & H); [lia | | | eauto].
  - split; [reflexivity|]. split; [assumption|]. intros j Hj.
    destruct (Z.leb_spec lo j), (Z.ltb_spec j (lo + 0)); simpl; try reflexivity. lia.
  - intros i t Hi (Hl & Hb & Ht).
    assert (len t = len pix0) as Hlen by (unfold len; lia).
    rewrite win_set_ok by (simpl; lia). eexists. split; [reflexivity|].
    split; [rewrite length_insert; exact Hl|].
    split; [apply Forall_insert_byte; [assumption | unfold is_byte; lia]|].
    intros j Hj. simpl. rewrite byte_at_insert by lia. rewrite Ht by assumption.
    destruct (Z.eqb_spec j (lo + i)), (Z.leb_spec lo j), (Z.ltb_spec j (lo + i)),
      (Z.ltb_spec j (lo + (i + 1))); simpl; try reflexivity; lia.
Qed.

(** Two pixels of one row in one byte and one bit are one pixel. *)
Lemma col_inj X0 x x' :
  X0 <= x -> X0 <= x' ->
  (x - X0) / 8 = (x' - X0) / 8 -> x mod 8 = x' mod 8 -> x = x'.
Proof.
  intros Hx Hx' Hq Hm.
  pose proof (Z.div_mod (x - X0) 8 ltac:(lia)).
  pose proof (Z.div_mod (x' - X0) 8 ltac:(lia)).
  pose proof (Z.mod_pos_bound (x - X0) 8 ltac:(lia)).
  pose proof (Z.mod_pos_bound (x' - X0) 8 ltac:(lia)).
  pose proof (Z.div_mod x 8 ltac:(lia)).
  pose proof (Z.div_mod x' 8 ltac:(lia)).
  pose proof (Z.mod_pos_bound x 8 ltac:(lia)).
  lia.
Qed.

Section Threshold.

Variable src : Source.
Variable thresh : Z.

Let on (x y : Z) : bool := bin_img.threshold_on (image.At src x y) thresh.

(** The pixel loop of one row, over a row of zero bytes. *)
Lemma threshold_row (pix0 : list Z) X0 X1 S lo y :
  int_range X0 -> int_range X1 -> X0 <= X1 -> X1 - X0 < 2 ^ 63 ->
  X1 - X0 <= 8 * S -> 0 <= lo -> lo + S <= len pix0 -> Forall is_byte pix0 ->
  (forall j, lo <= j < lo + S -> byte_at pix0 j = 0) ->
  exists pix,
    for_range X0 X1 (fun x pix =>
      if on x y then
        let i := Z.shiftr (x -i X0) 3 in
        v <- win_get pix {| w_lo := lo; w_len := S |} i ;;
        win_set pix {| w_lo := lo; w_len := S |} i (Z.lor v (bin_img.mask x))
      else Ok pix) pix0 = Ok pix /\
    length pix = length pix0 /\ Forall is_byte pix /\
    (forall j, 0 <= j -> ~ (lo <= j < lo + S) -> byte_at pix j = byte_at pix0 j) /\
    (forall x, X0 <= x < X1 ->
       getbit pix (lo + (x - X0) / 8) (7 - x mod 8) = on x y).
Proof.
  intros HX0 HX1 Hle Hw HwS Hlo Hfit Hby Hzero. unfold int_range in *.
  destruct (for_range_inv
     (fun x pix =>
        length pix = length pix0 /\ Forall is_byte pix /\
        (forall j, 0 <= j -> ~ (lo <= j < lo + S) -> byte_at pix j = byte_at pix0 j) /\
        (forall x', X0 <= x' < x ->
           getbit pix (lo + (x' - X0) / 8) (7 - x' mod 8) = on x' y) /\
        (forall x', x <= x' < X1 ->
           getbit pix (lo + (x' - X0) / 8) (7 - x' mod 8) = false))
     (fun x pix =>
        if on x y then
          let i := Z.shiftr (x -i X0) 3 in
          v <- win_get pix {| w_lo := lo; w_len := S |} i ;;
          win_set pix {| w_lo := lo; w_len := S |} i (Z.lor v (bin_img.mask x))
        else Ok pix)
     X0 X1 pix0) as (pix & E & Hl & Hb & Hout & Hdone & _).
  - exact Hle.
  - split; [reflexivity|]. split; [assumption|]. split; [auto|].
    split; [intros; lia|].
    intros x' Hx'. unfold getbit.
    pose proof (Z.div_pos (x' - X0) 8 ltac:(lia) ltac:(lia)).
    assert ((x' - X0) / 8 < S) by (apply Z.div_lt_upper_bound; lia).
    rewrite Hzero by lia. apply Z.bits_0.
  - intros x t Hx (Hl & Hb & Hout & Hdone & Htodo).
    assert (len t = len pix0) as Hlen by (unfold len; lia).
    pose proof (Z.div_pos (x - X0) 8 ltac:(lia) ltac:(lia)) as Hq0.
    assert ((x - X0) / 8 < S) as Hq1 by (apply Z.div_lt_upper_bound; lia).
    pose proof (Z.mod_pos_bound x 8 ltac:(lia)) as Hm.
    destruct (on x y) eqn:Eon.
    + cbv zeta. rewrite isub_small by (unfold int_range; lia).
      rewrite Z.shiftr_div_pow2 by lia. change (2 ^ 3) with 8.
      rewrite win_get_ok by (simpl; lia). simpl.
      rewrite win_set_ok by (simpl; lia). simpl.
      eexists. split; [reflexivity|].
      rewrite mask_pow2.
      assert (forall j k, 0 <= j -> 0 <= k ->
                getbit (<[Z.to_nat (lo + (x - X0) / 8) :=
                            Z.lor (byte_at t (lo + (x - X0) / 8)) (2 ^ (7 - x mod 8))]> t) j k =
                getbit t j k || ((j =? lo + (x - X0) / 8) && (k =? 7 - x mod 8))) as Hbits.
      { intros j k Hj Hk. unfold getbit. rewrite byte_at_insert by lia.
        destruct (Z.eqb_spec j (lo + (x - X0) / 8)) as [-> | Hne]; simpl.
        - apply lor_pow2_bits; lia.
        - rewrite orb_false_r. reflexivity. }
      split; [rewrite length_insert; exact Hl|].
      split.
      { apply Forall_insert_byte; [assumption|].
        apply lor_pow2_byte; [apply byte_at_is_byte; assumption | lia]. }
      split.
      { intros j Hj Hnj. rewrite byte_at_insert by lia.
        destruct (Z.eqb_spec j (lo + (x - X0) / 8)); [lia|]. apply Hout; assumption. }
      split.
      * intros x' Hx'.
        pose proof (Z.div_pos (x' - X0) 8 ltac:(lia) ltac:(lia)).
        pose proof (Z.mod_pos_bound x' 8 ltac:(lia)).
        rewrite Hbits by lia.
        destruct (Z.eq_dec x' x) as [-> | Hne].
        -- rewrite !Z.eqb_refl, Eon. apply orb_true_r.
        -- rewrite Hdone by lia.
           destruct (Z.eqb_spec (lo + (x' - X0) / 8) (lo + (x - X0) / 8)) as [E1|];
             [|simpl; apply orb_false_r].
           destruct (Z.eqb_spec (7 - x' mod 8) (7 - x mod 8)) as [E2|];
             [|simpl; apply orb_false_r].
           exfalso. apply Hne. apply (col_inj X0); lia.
      * intros x' Hx'.
        pose proof (Z.div_pos (x' - X0) 8 ltac:(lia) ltac:(lia)).
        pose proof (Z.mod_pos_bound x' 8 ltac:(lia)).
        rewrite Hbits by lia. rewrite Htodo by lia. simpl.
        destruct (Z.eqb_spec (lo + (x' - X0) / 8) (lo + (x - X0) / 8)) as [E1|];
          [|reflexivity].
        destruct (Z.eqb_spec (7 - x' mod 8) (7 - x mod 8)) as [E2|]; [|reflexivity].
        exfalso. assert (x' = x) by (apply (col_inj X0); lia). lia.
    + exists t. split; [reflexivity|]. split; [exact Hl|]. split; [exact Hb|].
      split; [exact Hout|]. split.
      * intros x' Hx'. destruct (Z.eq_dec x' x) as [-> | Hne].
        -- rewrite Eon. apply Htodo. lia.
        -- apply Hdone. lia.
      * intros x' Hx'. apply Htodo. lia.
  - exists pix. split; [exact E|]. split; [exact Hl|]. split; [exact Hb|].
    split; [exact Hout|]. intros x Hx. apply Hdone. lia.
Qed.

End Threshold.

Lemma threshold_on_spec c t :
  (A c = 0 -> bin_img.threshold_on c t = false) /\
  (A c <> 0 -> bin_img.threshold_on c t = (t <=? bin_img.luma8 c)) /\
  (A c <> 0 -> bin_img.luma8 c = t -> bin_img.threshold_on c t = true) /\
  (A c <> 0 -> bin_img.luma8 c = t - 1 -> bin_img.threshold_on c t = false).
Proof.
  unfold bin_img.threshold_on.
  destruct (Z.eqb_spec (A c) 0) as [E | E].
  - repeat split; intros; try reflexivity; contradiction.
  - repeat split; intros; try contradiction; try reflexivity.
    + apply Z.leb_le. lia.
    + apply Z.leb_gt. lia.
Qed.

(** On 16-bit channels nothing wraps and nothing is cut off: the sum, the
    division by 1000, then the shift by 8. *)
Lemma luma8_16bit c :
  0 <= R c <= 65535 -> 0 <= G c <= 65535 -> 0 <= B c <= 65535 ->
  bin_img.luma8 c = (299 * R c + 587 * G c + 114 * B c) / 1000 / 2 ^ 8 /\
  0 <= bin_img.luma8 c <= 255.
Proof.
  intros HR HG HB. unfold bin_img.luma8, u32, u8.
  set (s := 299 * R c + 587 * G c + 114 * B c).
  assert (0 <= s <= 65535000) as Hs by (subst s; lia).
  rewrite (Z.mod_small s) by lia.
  rewrite Z.quot_div_nonneg by lia.
  rewrite Z.shiftr_div_pow2 by lia.
  assert (0 <= s / 1000 <= 65535) as Hq.
  { split; [apply Z.div_pos; lia|].
    apply Z.lt_succ_r. apply Z.div_lt_upper_bound; lia. }
  assert (0 <= s / 1000 / 2 ^ 8 <= 255) as Hq2.
  { split; [apply Z.div_pos; lia|].
    apply Z.lt_succ_r. apply Z.div_lt_upper_bound; lia. }
  rewrite Z.mod_small by lia. split; [reflexivity | lia].
Qed.

Lemma Binary_FromGrayThreshold_spec b src t :
  wf b -> whole_rows b ->
  exists b',
    bin_img.Binary_FromGrayThreshold b src t = Ok b' /\ wf b' /\ same_shape b b' /\
    forall x y, inside b x y ->
      bin_img.bit b' x y = Ok (bin_img.threshold_on (image.At src x y) t).
Proof.
  intros Hwf [HwS HhS]. unfold bin_img.Binary_FromGrayThreshold.
  pose proof (wf_rect _ Hwf) as Hr. unfold rect_ok, int_range in Hr.
  pose proof (wf_len _ Hwf) as Hl. pose proof (wf_stride _ Hwf) as Hs.
  unfold width, height in HwS, HhS.
  set (X0 := MinX (bin_img.Rect b)) in *. set (Y0 := MinY (bin_img.Rect b)) in *.
  set (X1 := MaxX (bin_img.Rect b)) in *. set (Y1 := MaxY (bin_img.Rect b)) in *.
  set (S := bin_img.Stride b) in *.
  set (on := fun x y => bin_img.threshold_on (image.At src x y) t).
  destruct (for_range_inv
     (fun y pix =>
        length pix = length (bin_img.Pix b) /\ Forall is_byte pix /\
        forall x' y', X0 <= x' < X1 -> Y0 <= y' < y ->
          getbit pix ((y' - Y0) * S + (x' - X0) / 8) (7 - x' mod 8) = on x' y')
     (fun y pix =>
        row <- reslice pix ((y -i Y0) *i S) ((y -i Y0 +i 1) *i S) ;;
        pix <- for_range 0 (w_len row) (fun i pix => win_set pix row i 0) pix ;;
        for_range X0 X1 (fun x pix =>
          if bin_img.threshold_on (image.At src x y) t then
            let i := Z.shiftr (x -i X0) 3 in
            v <- win_get pix row i ;;
            win_set pix row i (Z.lor v (bin_img.mask x))
          else Ok pix) pix)
     Y0 Y1 (bin_img.Pix b)) as (pix & E & Hlen & Hby & Hpix).
  - lia.
  - split; [reflexivity|]. split; [exact (wf_bytes _ Hwf)|]. intros; lia.
  - intros y p Hy (Hlp & Hbp & Hp).
    assert (len p = len (bin_img.Pix b)) as Hlenp by (unfold len; lia).
    assert (0 <= (y - Y0) * S /\ (y - Y0 + 1) * S <= (Y1 - Y0) * S) as [Hlo Hhi] by nia.
    assert ((y -i Y0) *i S = (y - Y0) * S) as -> by (unwrap; reflexivity).
    assert ((y -i Y0 +i 1) *i S = (y - Y0 + 1) * S) as -> by (unwrap; reflexivity).
    rewrite reslice_ok by lia.
    replace ((y - Y0 + 1) * S - (y - Y0) * S) with S by lia.
    simpl.
    destruct (zero_row p ((y - Y0) * S) S) as (pA & EA & HlA & HbA & HA);
      [lia | lia | lia | assumption |].
    rewrite EA. simpl.
    destruct (threshold_row src t pA X0 X1 S ((y - Y0) * S) y)
      as (pB & EB & HlB & HbB & HoutB & HrowB);
      try assumption; unfold int_range; try lia.
    { unfold len in *. lia. }
    { intros j Hj. rewrite HA by lia.
      destruct (Z.leb_spec ((y - Y0) * S) j), (Z.ltb_spec j ((y - Y0) * S + S));
        simpl; try reflexivity; lia. }
    exists pB. split; [exact EB|].
    split; [congruence|]. split; [assumption|].
    intros x' y' Hx' Hy'.
    destruct (Z.eq_dec y' y) as [-> | Hne]; [apply HrowB; assumption|].
    pose proof (Z.div_pos (x' - X0) 8 ltac:(lia) ltac:(lia)) as Hq0.
    assert ((x' - X0) / 8 < S) as Hq1 by (apply Z.div_lt_upper_bound; lia).
    assert (0 <= (y' - Y0) * S /\ (y' - Y0 + 1) * S <= (y - Y0) * S) as [Hlo' Hhi'] by nia.
    unfold getbit. rewrite HoutB by lia. rewrite HA by lia.
    destruct (Z.leb_spec ((y - Y0) * S) ((y' - Y0) * S + (x' - X0) / 8)); simpl; [lia|].
    apply Hp; lia.
  - cbv zeta in E |- *. rewrite E. simpl. eexists. split; [reflexivity|].
    assert (wf (bin_img.with_Pix b pix)) as Hwf'.
    { destruct Hwf as [W1 W2 W3 W4 W5]. constructor; simpl; auto.
      - unfold len in *. rewrite Hlen. exact W3.
      - unfold width, height, len in *. simpl. rewrite Hlen. exact W5. }
    split; [exact Hwf'|]. split; [repeat split; exact Hlen|].
    intros x y Hin.
    rewrite bit_inside by assumption. f_equal.
    unfold pixel, off. simpl. destruct Hin as [Hx Hy]. apply Hpix; assumption.
Qed.

(** ** [NewBinary] *)

Definition blank (w h : Z) : bin_img.Binary :=
  {| bin_img.Pix := replicate (Z.to_nat (w / 8 * h)) 0; bin_img.Stride := w / 8;
     bin_img.Rect := {| MinX := 0; MinY := 0; MaxX := w; MaxY := h |} |}.

Lemma NewBinary_ok w h :
  0 < w -> w mod 8 = 0 -> 0 < h -> w / 8 * h <= maxAlloc ->
  bin_img.NewBinary w h = Ok (blank w h) /\ wf (blank w h) /\ whole_rows (blank w h).
Proof.
  intros Hw Hw8 Hh Hal. unfold maxAlloc in Hal.
  pose proof (Z.div_mod w 8 ltac:(lia)) as Hdm.
  assert (0 < w / 8) as Hq by lia.
  assert (w / 8 <= 2 ^ 48 /\ h <= 2 ^ 48) as [Hq48 Hh48] by nia.
  split; [|split].
  - unfold bin_img.NewBinary, make_bytes, maxAlloc.
    destruct (Z.leb_spec w 0); [lia|]. destruct (Z.leb_spec h 0); [lia|]. simpl.
    rewrite Z.rem_mod_nonneg by lia. rewrite Hw8. simpl.
    rewrite Z.quot_div_nonneg by lia.
    rewrite imul_small by (unfold int_range; nia).
    destruct (Z.ltb_spec (w / 8 * h) 0); [nia|].
    destruct (Z.ltb_spec (2 ^ 48) (w / 8 * h)); [lia|]. simpl.
    unfold blank, image.Rect.
    destruct (Z.ltb_spec w 0); [lia|]. destruct (Z.ltb_spec h 0); [lia|]. reflexivity.
  - constructor; simpl.
    + unfold rect_ok, int_range. simpl. lia.
    + apply Forall_replicate. unfold is_byte. lia.
    + unfold len. rewrite length_replicate. lia.
    + lia.
    + intros _ _. unfold width, height, len. simpl. rewrite length_replicate.
      replace (w - 0 + 7) with (7 + w / 8 * 8) by lia.
      rewrite Z.div_add by lia. change (7 / 8) with 0. nia.
  - unfold whole_rows, width, height, len. simpl. rewrite length_replicate. nia.
Qed.

Lemma NewBinary_inv w h b :
  bin_img.NewBinary w h = Ok b ->
  0 < w /\ w mod 8 = 0 /\ 0 < h /\ (w / 8) *i h <= maxAlloc /\
  bin_img.Stride b = w / 8 /\
  bin_img.Rect b = {| MinX := 0; MinY := 0; MaxX := w; MaxY := h |} /\
  bin_img.Pix b = replicate (Z.to_nat ((w / 8) *i h)) 0.
Proof.
  unfold bin_img.NewBinary, make_bytes.
  destruct (Z.leb_spec w 0); [discriminate|]. destruct (Z.leb_spec h 0); [discriminate|].
  simpl. rewrite Z.rem_mod_nonneg by lia. rewrite Z.quot_div_nonneg by lia.
  destruct (Z.eqb_spec (w mod 8) 0); [|discriminate]. simpl.
  destruct (Z.ltb_spec (w / 8 *i h) 0); [discriminate|].
  destruct (Z.ltb_spec maxAlloc (w / 8 *i h)); [discriminate|]. simpl.
  intros [= <-]. simpl. unfold image.Rect.
  destruct (Z.ltb_spec w 0); [lia|]. destruct (Z.ltb_spec h 0); [lia|].
  repeat split; auto.
Qed.

(** A source of eight grey pixels, 0, 36, ..., 252, and a transparent one. *)
Definition grey_row : Source :=
  {| image.Bounds := image.Rect 0 0 8 1;
     image.At := fun x y => if x =? 7 then {| R := 0; G := 0; B := 0; A := 0 |}
                            else Gray (36 * x) |}.

(** C3.  [FromGrayThreshold] into a well-formed image with whole rows, for
    a threshold [t] in 0..255: the bit of every pixel of the rectangle is
    off where the source pixel has alpha 0, and otherwise on exactly when
    [t <= uint8(((299*R + 587*G + 114*B) / 1000) >> 8)]; so a luma equal to
    [t] is on and a luma of [t - 1] is off.  On 16-bit channels that luma
    is the exact sum, divided by 1000, divided by 256. *)
Theorem FromGrayThreshold_decides b src t :
  wf b -> whole_rows b -> 0 <= t <= 255 ->
  exists b',
    bin_img.Binary_FromGrayThreshold b src t = Ok b' /\
    forall x y, inside b x y ->
      let c := image.At src x y in
      (A c = 0 -> bin_img.bit b' x y = Ok false) /\
      (A c <> 0 -> bin_img.bit b' x y = Ok (t <=? bin_img.luma8 c)) /\
      (A c <> 0 -> bin_img.luma8 c = t -> bin_img.bit b' x y = Ok true) /\
      (A c <> 0 -> bin_img.luma8 c = t - 1 -> bin_img.bit b' x y = Ok false) /\
      (0 <= R c <= 65535 -> 0 <= G c <= 65535 -> 0 <= B c <= 65535 ->
       bin_img.luma8 c = (299 * R c + 587 * G c + 114 * B c) / 1000 / 2 ^ 8).
Proof.
  intros Hwf Hrows Ht.
  destruct (Binary_FromGrayThreshold_spec b src t Hwf Hrows) as (b' & E & _ & _ & Hbit).
  exists b'. split; [exact E|]. intros x y Hin c.
  rewrite (Hbit x y Hin). fold c.
  destruct (threshold_on_spec c t) as (H1 & H2 & H3 & H4).
  split; [intros H; rewrite H1; auto|].
  split; [intros H; rewrite H2; auto|].
  split; [intros H H'; rewrite H3; auto|].
  split; [intros H H'; rewrite H4; auto|].
  intros HR HG HB. apply luma8_16bit; assumption.
Qed.

Lemma FromGrayThreshold_decides_witness :
  exists b',
    bin_img.Binary_FromGrayThreshold (blank 8 1) grey_row 144 = Ok b' /\
    forall x y, inside (blank 8 1) x y ->
      let c := image.At grey_row x y in
      (A c = 0 -> bin_img.bit b' x y = Ok false) /\
      (A c <> 0 -> bin_img.bit b' x y = Ok (144 <=? bin_img.luma8 c)) /\
      (A c <> 0 -> bin_img.luma8 c = 144 -> bin_img.bit b' x y = Ok true) /\
      (A c <> 0 -> bin_img.luma8 c = 144 - 1 -> bin_img.bit b' x y = Ok false) /\
      (0 <= R c <= 65535 -> 0 <= G c <= 65535 -> 0 <= B c <= 65535 ->
       bin_img.luma8 c = (299 * R c + 587 * G c + 114 * B c) / 1000 / 2 ^ 8).
Proof.
  apply (FromGrayThreshold_decides (blank 8 1) grey_row 144).
  - apply (NewBinary_ok 8 1); [lia | reflexivity | lia | vm_compute; discriminate].
  - apply (NewBinary_ok 8 1); [lia | reflexivity | lia | vm_compute; discriminate].
  - lia.
Defined.

(** ** The BITMAP header: printing and scanning *)

Lemma digits_spec fuel :
  forall u acc, (0 < fuel)%nat -> 0 <= u < 10 ^ Z.of_nat fuel ->
    exists ds, fmt.digits fuel u acc = ds ++ acc /\ ds <> [] /\
               Forall (fun c => fmt.isDigit c = true) ds /\
               fold_left (fun n c => 10 * n + (c - 48)) ds 0 = u.
Proof.
  induction fuel as [|f IH]; intros u acc Hf Hu.
  - lia.
  - cbn [fmt.digits]. destruct (Z.ltb_spec u 10) as [Hlt | Hge].
    + exists [48 + u]. split; [reflexivity|]. split; [discriminate|]. split.
      * constructor; [|constructor]. unfold fmt.isDigit, fmt.between.
        apply andb_true_iff. rewrite !Z.leb_le. lia.
      * simpl. lia.
    + rewrite Z.quot_div_nonneg, Z.rem_mod_nonneg by lia.
      pose proof (Z.div_mod u 10 ltac:(lia)) as Hdm.
      pose proof (Z.mod_pos_bound u 10 ltac:(lia)) as Hmb.
      rewrite Nat2Z.inj_succ, Z.pow_succ_r in Hu by lia.
      assert (0 <= u / 10 < 10 ^ Z.of_nat f) as Hq.
      { split; [apply Z.div_pos; lia|]. apply Z.div_lt_upper_bound; lia. }
      assert (0 < f)%nat as Hf'.
      { destruct f; [|lia]. simpl in Hq. lia. }
      destruct (IH (u / 10) ((48 + u mod 10) :: acc) Hf' Hq) as (ds & E & Hne & Hd & Hv).
      exists (ds ++ [48 + u mod 10]). split; [|split; [|split]].
      * rewrite E, <- app_assoc. reflexivity.
      * destruct ds; discriminate.
      * apply Forall_app. split; [exact Hd|]. constructor; [|constructor].
        unfold fmt.isDigit, fmt.between. apply andb_true_iff. rewrite !Z.leb_le. lia.
      * rewrite fold_left_app, Hv. simpl. lia.
Qed.

Lemma fmt_d_spec n :
  0 <= n < 2 ^ 63 ->
  fmt.fmt_d n <> [] /\ Forall (fun c => fmt.isDigit c = true) (fmt.fmt_d n) /\
  fmt.digits_value (fmt.fmt_d n) = n.
Proof.
  intros Hn. unfold fmt.fmt_d. destruct (Z.ltb_spec n 0); [lia|].
  destruct (digits_spec 20 n [] ltac:(lia)) as (ds & E & Hne & Hd & Hv).
  { split; [lia|]. apply Z.lt_le_trans with (2 ^ 63); [lia|].
    apply Z.leb_le. vm_compute. reflexivity. }
  rewrite E, app_nil_r. auto.
Qed.

Lemma scanNumber_digits ds c rest :
  Forall (fun c => fmt.isDigit c = true) ds -> fmt.isDigit c = false ->
  fmt.scanNumber (ds ++ c :: rest) = (ds, c :: rest).
Proof.
  intros Hd Hc. induction Hd as [|d ds Hd1 Hd2 IH]; simpl.
  - rewrite Hc. reflexivity.
  - rewrite Hd1, IH. reflexivity.
Qed.

Lemma SkipSpace_digit d rest :
  fmt.isDigit d = true -> fmt.SkipSpace (d :: rest) = fmt.Scanned tt (d :: rest).
Proof.
  intros Hd. unfold fmt.isDigit, fmt.between in Hd.
  apply andb_true_iff in Hd. rewrite !Z.leb_le in Hd.
  unfold fmt.SkipSpace. cbn [length fmt.SkipSpace_loop fmt.decodeRune].
  destruct (Z.ltb_spec d 128); [|lia].
  destruct (Z.eqb_spec d 10); [lia|].
  assert (fmt.isSpace d = false) as ->; [|reflexivity].
  unfold fmt.isSpace, fmt.between.
  repeat (apply orb_false_iff; split);
    try (apply andb_false_iff; rewrite !Z.leb_gt; lia); apply Z.eqb_neq; lia.
Qed.

(** Scanning a printed number gives the number back and stops at the
    first byte that is no digit. *)
Lemma verb_d_fmt_d n c rest :
  0 <= n < 2 ^ 63 -> fmt.isDigit c = false ->
  fmt.verb_d (fmt.fmt_d n ++ c :: rest) = fmt.Scanned n (c :: rest).
Proof.
  intros Hn Hc. destruct (fmt_d_spec n Hn) as (Hne & Hd & Hv).
  destruct (fmt.fmt_d n) as [|d ds] eqn:E; [contradiction|].
  pose proof (Forall_inv Hd) as Hd1.
  unfold fmt.verb_d. rewrite <- app_comm_cons.
  rewrite SkipSpace_digit by assumption. cbn [fmt.sbind].
  unfold fmt.scanInt. rewrite SkipSpace_digit by assumption.
  assert (d <> 45 /\ d <> 43) as [H45 H43].
  { unfold fmt.isDigit, fmt.between in Hd1.
    apply andb_true_iff in Hd1. rewrite !Z.leb_le in Hd1. lia. }
  destruct (Z.eqb_spec d 45); [contradiction|].
  destruct (Z.eqb_spec d 43); [contradiction|].
  rewrite app_comm_cons, scanNumber_digits by assumption.
  rewrite Hv. destruct (Z.leb_spec (2 ^ 63) n); [lia|]. reflexivity.
Qed.

Lemma literal_head c rest : 0 <= c < 128 -> fmt.literal c (c :: rest) = fmt.Scanned tt rest.
Proof.
  intros Hc. unfold fmt.literal, fmt.decodeRune.
  destruct (Z.ltb_spec c 128); [|lia]. rewrite Z.eqb_refl. reflexivity.
Qed.

Fixpoint count_commas (l : list Z) : Z :=
  match l with
  | [] => 0
  | b :: l' => (if b =? 44 then 1 else 0) + count_commas l'
  end.

Lemma count_commas_nonneg l : 0 <= count_commas l.
Proof. induction l as [|b l IH]; simpl; [lia|]. destruct (b =? 44); lia. Qed.

Lemma count_commas_app l l' : count_commas (l ++ l') = count_commas l + count_commas l'.
Proof. induction l as [|b l IH]; simpl; [reflexivity|]. rewrite IH. lia. Qed.

Lemma count_commas_digits ds :
  Forall (fun c => fmt.isDigit c = true) ds -> count_commas ds = 0.
Proof.
  induction 1 as [|d ds Hd _ IH]; simpl; [reflexivity|].
  unfold fmt.isDigit, fmt.between in Hd.
  apply andb_true_iff in Hd. rewrite !Z.leb_le in Hd.
  destruct (Z.eqb_spec d 44); lia.
Qed.

(** The comma loop: it stops on the comma that brings the count to five. *)
Lemma fifth_comma_short body :
  forall i c, 0 <= c -> c + count_commas body < 5 -> tspl.fifth_comma body i c = -1.
Proof.
  induction body as [|b body IH]; intros i c Hc Hn; simpl in *; [reflexivity|].
  pose proof (count_commas_nonneg body).
  destruct (Z.eqb_spec b 44).
  - rewrite iadd_small by (unfold int_range; lia).
    destruct (Z.eqb_spec (c + 1) 5); [lia|]. apply IH; lia.
  - apply IH; lia.
Qed.

Lemma fifth_comma_found pre rest :
  forall i c, 0 <= c -> c + count_commas pre = 4 ->
    tspl.fifth_comma (pre ++ 44 :: rest) i c = i + len pre.
Proof.
  induction pre as [|b pre IH]; intros i c Hc Hn; simpl in *.
  - rewrite iadd_small by (unfold int_range; lia).
    destruct (Z.eqb_spec (c + 1) 5); [|lia]. unfold len. simpl. lia.
  - pose proof (count_commas_nonneg pre).
    replace (i + len (b :: pre)) with (i + 1 + len pre) by (unfold len; simpl; lia).
    destruct (Z.eqb_spec b 44).
    + rewrite iadd_small by (unfold int_range; lia).
      destruct (Z.eqb_spec (c + 1) 5); [lia|]. apply IH; lia.
    + apply IH; lia.
Qed.

Lemma fifth_comma_inv body :
  forall i c r, 0 <= c < 5 -> 0 <= i -> tspl.fifth_comma body i c = r -> r <> -1 ->
    exists pre rest, body = pre ++ 44 :: rest /\ r = i + len pre /\
                     c + count_commas pre = 4.
Proof.
  induction body as [|b body IH]; intros i c r Hc Hi E Hr; simpl in E; [congruence|].
  destruct (Z.eqb_spec b 44) as [-> | Hb].
  - rewrite iadd_small in E by (unfold int_range; lia).
    destruct (Z.eqb_spec (c + 1) 5) as [E5 | N5].
    + exists [], body. split; [reflexivity|]. unfold len. simpl. lia.
    + destruct (IH (i + 1) (c + 1) r ltac:(lia) ltac:(lia) E Hr)
        as (pre & rest & -> & -> & Hn).
      exists (44 :: pre), rest. split; [reflexivity|].
      unfold len. simpl. lia.
  - destruct (IH (i + 1) c r ltac:(lia) ltac:(lia) E Hr) as (pre & rest & -> & -> & Hn).
    exists (b :: pre), rest. split; [reflexivity|].
    unfold len. simpl. destruct (Z.eqb_spec b 44); [contradiction|]. lia.
Qed.

Lemma HasPrefix_spec s p :
  tspl.HasPrefix s p = true <-> exists rest, s = p ++ rest.
Proof.
  revert s. induction p as [|c p IH]; intros s; destruct s as [|d s]; simpl.
  - split; [intros _; exists []; reflexivity | reflexivity].
  - split; [intros _; exists (d :: s); reflexivity | reflexivity].
  - split; [discriminate | intros (rest & H); discriminate].
  - rewrite andb_true_iff, IH, Z.eqb_eq. split.
    + intros (-> & rest & ->). exists rest. reflexivity.
    + intros (rest & [= -> ->]). split; [reflexivity | exists rest; reflexivity].
Qed.

Lemma digits_length fuel :
  forall u acc, (length (fmt.digits fuel u acc) <= fuel + length acc)%nat.
Proof.
  induction fuel as [|f IH]; intros u acc; cbn [fmt.digits]; [lia|].
  destruct (u <? 10); [simpl; lia|].
  specialize (IH (Z.quot u 10) ((48 + Z.rem u 10) :: acc)). simpl in IH. lia.
Qed.

Lemma fmt_d_length n : len (fmt.fmt_d n) <= 21.
Proof.
  unfold fmt.fmt_d, len. destruct (n <? 0).
  - pose proof (digits_length 20 (- n) []) as H. cbn [length] in *. lia.
  - pose proof (digits_length 20 n []) as H. cbn [length] in *. lia.
Qed.

Lemma bitmap_header_eq rowBytes height :
  tspl.bitmap_header rowBytes height =
  [66; 73; 84; 77; 65; 80; 32; 48; 44; 48; 44] ++ fmt.fmt_d rowBytes ++ [44]
    ++ fmt.fmt_d height ++ [44; 49; 44].
Proof. reflexivity. Qed.

Lemma bitmap_header_length rowBytes height :
  15 <= len (tspl.bitmap_header rowBytes height) <= 57.
Proof.
  rewrite bitmap_header_eq. unfold len. rewrite !length_app. simpl.
  pose proof (fmt_d_length rowBytes). pose proof (fmt_d_length height).
  unfold len in *. lia.
Qed.

(** The header [Image2Bytes] prints, whatever follows it, parses to the
    numbers printed, and the payload starts where the header ends. *)
Lemma ParseBitmapHeader_printed rowBytes height rest :
  0 <= rowBytes < 2 ^ 63 -> 0 <= height < 2 ^ 63 ->
  tspl.ParseBitmapHeader (tspl.bitmap_header rowBytes height ++ rest) =
  Ok {| tspl.RowBytes := rowBytes; tspl.Width := rowBytes *i 8;
        tspl.Height := height;
        tspl.HeaderEnd := len (tspl.bitmap_header rowBytes height) |}.
Proof.
  intros Hrb Hh.
  pose proof (bitmap_header_length rowBytes height) as Hlen.
  destruct (fmt_d_spec rowBytes Hrb) as (_ & Hd1 & _).
  destruct (fmt_d_spec height Hh) as (_ & Hd2 & _).
  assert (tspl.bitmap_header rowBytes height ++ rest =
          ([66; 73; 84; 77; 65; 80; 32; 48; 44; 48; 44] ++ fmt.fmt_d rowBytes ++ [44]
             ++ fmt.fmt_d height ++ [44; 49]) ++ 44 :: rest) as Esplit.
  { rewrite bitmap_header_eq. repeat rewrite <- app_assoc. reflexivity. }
  assert (len (tspl.bitmap_header rowBytes height) =
          len ([66; 73; 84; 77; 65; 80; 32; 48; 44; 48; 44] ++ fmt.fmt_d rowBytes ++ [44]
                 ++ fmt.fmt_d height ++ [44; 49]) + 1) as Elen.
  { rewrite bitmap_header_eq. unfold len. rewrite !length_app. simpl. lia. }
  unfold tspl.ParseBitmapHeader.
  assert (tspl.HasPrefix (tspl.bitmap_header rowBytes height ++ rest) (bytes "BITMAP") = true)
    as ->.
  { apply HasPrefix_spec. rewrite bitmap_header_eq.
    exists ([32; 48; 44; 48; 44] ++ fmt.fmt_d rowBytes ++ [44]
              ++ fmt.fmt_d height ++ [44; 49; 44] ++ rest).
    repeat rewrite <- app_assoc. reflexivity. }
  assert (tspl.fifth_comma (tspl.bitmap_header rowBytes height ++ rest) 0 0 =
          len (tspl.bitmap_header rowBytes height) - 1) as ->.
  { rewrite Esplit, fifth_comma_found; [lia | lia |].
    rewrite !count_commas_app, (count_commas_digits _ Hd1), (count_commas_digits _ Hd2).
    reflexivity. }
  destruct (Z.eqb_spec (len (tspl.bitmap_header rowBytes height) - 1) (-1)); [lia|].
  rewrite iadd_small by (unfold int_range; lia).
  replace (len (tspl.bitmap_header rowBytes height) - 1 + 1)
    with (len (tspl.bitmap_header rowBytes height)) by lia.
  assert (fmt.Sscanf_BITMAP (tspl.bitmap_header rowBytes height ++ rest) =
          fmt.Scanned (0, 0, rowBytes, height, 1) rest) as ->; [|reflexivity].
  rewrite bitmap_header_eq. repeat rewrite <- app_assoc.
  unfold fmt.Sscanf_BITMAP. cbn [app].
  repeat (rewrite literal_head by lia; cbn [fmt.sbind]).
  assert (forall r, fmt.format_space (32 :: 48 :: r) = fmt.Scanned tt (48 :: r)) as ->.
  { intros r. reflexivity. }
  cbn [fmt.sbind].
  change (48 :: 44 :: 48 :: 44 :: ?r) with (fmt.fmt_d 0 ++ 44 :: fmt.fmt_d 0 ++ 44 :: r).
  rewrite verb_d_fmt_d by (try reflexivity; lia). cbn [fmt.sbind].
  rewrite literal_head by lia. cbn [fmt.sbind].
  rewrite verb_d_fmt_d by (try reflexivity; lia). cbn [fmt.sbind].
  rewrite literal_head by lia. cbn [fmt.sbind].
  rewrite verb_d_fmt_d by (try reflexivity; lia). cbn [fmt.sbind].
  rewrite literal_head by lia. cbn [fmt.sbind].
  rewrite verb_d_fmt_d by (try reflexivity; lia). cbn [fmt.sbind].
  rewrite literal_head by lia. cbn [fmt.sbind].
  change (49 :: 44 :: rest) with (fmt.fmt_d 1 ++ 44 :: rest).
  rewrite verb_d_fmt_d by (try reflexivity; lia). cbn [fmt.sbind].
  rewrite literal_head by lia. reflexivity.
Qed.

Lemma ParseBitmapHeader_end body h :
  len body < 2 ^ 63 ->
  tspl.ParseBitmapHeader body = Ok h ->
  exists pre rest,
    body = pre ++ 44 :: rest /\ count_commas pre = 4 /\ tspl.HeaderEnd h = len pre + 1.
Proof.
  intros Hlen. unfold tspl.ParseBitmapHeader.
  destruct (tspl.HasPrefix body (bytes "BITMAP")); [|discriminate].
  destruct (Z.eqb_spec (tspl.fifth_comma body 0 0) (-1)) as [|Hr]; [discriminate|].
  destruct (fifth_comma_inv body 0 0 _ ltac:(lia) ltac:(lia) eq_refl Hr)
    as (pre & rest & Eb & Er & Hn).
  rewrite Er.
  destruct (fmt.Sscanf_BITMAP body) as [[[[[x y] rowBytes] height] mode] r | e];
    [|discriminate].
  intros [= <-]. simpl. exists pre, rest.
  split; [exact Eb|]. split; [lia|].
  assert (len pre < len body).
  { rewrite Eb. unfold len. rewrite length_app. simpl. lia. }
  pose proof (len_nonneg pre).
  rewrite iadd_small by (unfold int_range; lia). lia.
Qed.

(** C2.  A buffer that begins with the text [BITMAP 0,0,3,10,1,] parses to
    3 bytes a row, width 24, height 10, the payload starting at offset 18;
    whenever a buffer parses, the payload starts one past its fifth comma;
    a buffer that does not begin with [BITMAP] is "not a BITMAP line"; one
    that does and holds fewer than five commas is "invalid BITMAP
    format". *)
Theorem ParseBitmapHeader_cases :
  (forall rest,
     tspl.ParseBitmapHeader (bytes "BITMAP 0,0,3,10,1," ++ rest) =
     Ok {| tspl.RowBytes := 3; tspl.Width := 24; tspl.Height := 10;
           tspl.HeaderEnd := 18 |}) /\
  (forall body h,
     len body < 2 ^ 63 -> tspl.ParseBitmapHeader body = Ok h ->
     exists pre rest,
       body = pre ++ 44 :: rest /\ count_commas pre = 4 /\
       tspl.HeaderEnd h = len pre + 1) /\
  (forall body,
     ~ (exists rest, body = bytes "BITMAP" ++ rest) ->
     tspl.ParseBitmapHeader body = Err ENotABitmapLine) /\
  (forall body,
     (exists rest, body = bytes "BITMAP" ++ rest) -> count_commas body < 5 ->
     tspl.ParseBitmapHeader body = Err EInvalidBitmapFormat).
Proof.
  split; [|split; [|split]].
  - intros rest.
    change (bytes "BITMAP 0,0,3,10,1,") with (tspl.bitmap_header 3 10).
    rewrite ParseBitmapHeader_printed by lia. reflexivity.
  - apply ParseBitmapHeader_end.
  - intros body Hn. unfold tspl.ParseBitmapHeader.
    destruct (tspl.HasPrefix body (bytes "BITMAP")) eqn:E; [|reflexivity].
    exfalso. apply Hn. apply HasPrefix_spec. exact E.
  - intros body Hp Hc. unfold tspl.ParseBitmapHeader.
    apply HasPrefix_spec in Hp. rewrite Hp.
    rewrite fifth_comma_short by lia. reflexivity.
Qed.

Lemma ParseBitmapHeader_cases_witness :
  (exists pre rest,
     bytes "BITMAP 0,0,3,10,1," ++ [255; 0] = pre ++ 44 :: rest /\
     count_commas pre = 4 /\ 18 = len pre + 1) /\
  tspl.ParseBitmapHeader (bytes "PRINT 1,1") = Err ENotABitmapLine /\
  tspl.ParseBitmapHeader (bytes "BITMAP 0,0,3,10,1") = Err EInvalidBitmapFormat.
Proof.
  destruct ParseBitmapHeader_cases as (H1 & H2 & H3 & H4).
  split; [|split].
  - apply (H2 (bytes "BITMAP 0,0,3,10,1," ++ [255; 0])
              {| tspl.RowBytes := 3; tspl.Width := 24; tspl.Height := 10;
                 tspl.HeaderEnd := 18 |}).
    + vm_compute. reflexivity.
    + apply H1.
  - apply H3. intros (rest & H). vm_compute in H. discriminate.
  - apply H4.
    + exists (bytes " 0,0,3,10,1"). vm_compute. reflexivity.
    + vm_compute. reflexivity.
Defined.

(** ** Bits of an encoded buffer *)

(** One bit of a buffer written, the way [Image2Bytes] and [setBitmapBit]
    write it. *)
Definition put_bit (l : list Z) (i k : Z) (v : bool) : list Z :=
  <[Z.to_nat i := if v then Z.lor (byte_at l i) (2 ^ k)
                  else Z.ldiff (byte_at l i) (2 ^ k)]> l.

Lemma getbit_put_bit l i k v j k' :
  0 <= i < len l -> 0 <= k -> 0 <= j -> 0 <= k' ->
  getbit (put_bit l i k v) j k' = if (j =? i) && (k' =? k) then v else getbit l j k'.
Proof.
  intros Hi Hk Hj Hk'. unfold getbit, put_bit. rewrite byte_at_insert by lia.
  destruct (Z.eqb_spec j i) as [-> | Hne]; simpl; [|reflexivity].
  destruct v.
  - rewrite lor_pow2_bits by lia.
    destruct (Z.eqb_spec k' k); [apply orb_true_r | apply orb_false_r].
  - rewrite ldiff_pow2_bits by lia.
    destruct (Z.eqb_spec k' k); [apply andb_false_r | apply andb_true_r].
Qed.

Lemma length_put_bit l i k v : length (put_bit l i k v) = length l.
Proof. unfold put_bit. apply length_insert. Qed.

Lemma byte_at_put_bit l i k v j :
  0 <= i < len l -> 0 <= j -> j <> i -> byte_at (put_bit l i k v) j = byte_at l j.
Proof.
  intros Hi Hj Hne. unfold put_bit. rewrite byte_at_insert by lia.
  destruct (Z.eqb_spec j i); [contradiction | reflexivity].
Qed.

Lemma bit_at_ok k : 0 <= k < 8 -> tspl.bit_at k = Ok (2 ^ k).
Proof.
  intros Hk. unfold tspl.bit_at, u8. destruct (Z.ltb_spec k 0); [lia|].
  rewrite Z.shiftl_1_l. f_equal. apply Z.mod_small.
  split; [apply Z.pow_nonneg; lia|].
  apply Z.pow_lt_mono_r; lia.
Qed.

Lemma bit_of_ok v k :
  0 <= k -> exists r, tspl.bit_of v k = Ok r /\ (r =? 0) = negb (Z.testbit v k).
Proof.
  intros Hk. unfold tspl.bit_of. destruct (Z.ltb_spec k 0); [lia|].
  eexists. split; [reflexivity|].
  change 1 with (2 ^ 0). rewrite land_pow2_eqb by lia.
  rewrite Z.shiftr_spec by lia. reflexivity.
Qed.

Lemma setBitmapBit_ok body headerEnd rowBytes x y bit :
  0 <= x -> int_range (y * rowBytes) -> int_range (headerEnd + y * rowBytes) ->
  0 <= headerEnd + y * rowBytes + x / 8 < len body -> len body < 2 ^ 63 ->
  tspl.setBitmapBit body headerEnd rowBytes x y bit =
  Ok (put_bit body (headerEnd + y * rowBytes + x / 8) (7 - x mod 8)
        (negb (bit =? 0))).
Proof.
  intros Hx H1 H2 H3 Hl. unfold tspl.setBitmapBit, int_range in *.
  rewrite Z.quot_div_nonneg, Z.rem_mod_nonneg by lia.
  pose proof (Z.mod_pos_bound x 8 ltac:(lia)) as Hm.
  pose proof (Z.div_pos x 8 ltac:(lia) ltac:(lia)) as Hq.
  assert (headerEnd +i y *i rowBytes +i x / 8 = headerEnd + y * rowBytes + x / 8) as ->
    by (unwrap; reflexivity).
  assert (7 -i x mod 8 = 7 - x mod 8) as -> by (unwrap; reflexivity).
  rewrite bit_at_ok by lia. simpl. rewrite index_ok by lia. simpl.
  destruct (bit =? 0); simpl; rewrite assign_ok by lia; reflexivity.
Qed.

(** Pixels of a row-major grid of [w] columns, [rb] bytes a row, live in
    distinct bits. *)
Lemma grid_inj w rb x y x' y' :
  0 <= x < w -> 0 <= x' < w -> 0 <= y -> 0 <= y' -> w <= 8 * rb ->
  y * rb + x / 8 = y' * rb + x' / 8 -> x mod 8 = x' mod 8 -> x = x' /\ y = y'.
Proof.
  intros Hx Hx' Hy Hy' Hw E Em.
  pose proof (Z.div_mod x 8 ltac:(lia)). pose proof (Z.div_mod x' 8 ltac:(lia)).
  pose proof (Z.mod_pos_bound x 8 ltac:(lia)).
  pose proof (Z.mod_pos_bound x' 8 ltac:(lia)).
  assert (0 <= x / 8 < rb) by (split; [apply Z.div_pos; lia | apply Z.div_lt_upper_bound; lia]).
  assert (0 <= x' / 8 < rb) by (split; [apply Z.div_pos; lia | apply Z.div_lt_upper_bound; lia]).
  assert (y = y') by nia. subst y'. split; [lia | reflexivity].
Qed.

Lemma copy_header n hd :
  (length hd <= n)%nat ->
  tspl.copy (replicate n 0) hd = hd ++ replicate (n - length hd) 0.
Proof.
  intros H. unfold tspl.copy. rewrite length_replicate.
  rewrite Nat.min_r by lia. rewrite firstn_all.
  rewrite drop_replicate. reflexivity.
Qed.

(** Row-major order on pixel coordinates. *)
Definition before (y x y' x' : Z) : Prop := y' < y \/ (y' = y /\ x' < x).

Lemma before_dec y x y' x' : {before y x y' x'} + {~ before y x y' x'}.
Proof.
  unfold before.
  destruct (Z_lt_dec y' y); [left; lia|].
  destruct (Z.eq_dec y' y); [|right; lia].
  destruct (Z_lt_dec x' x); [left; lia | right; lia].
Defined.

(** ** [Image2Bytes] *)

(** The bytes a row of [b] takes in the encoding. *)
Definition row_bytes (b : bin_img.Binary) : Z := (width b + 7) / 8.

Definition header_of (b : bin_img.Binary) : list Z :=
  tspl.bitmap_header (row_bytes b) (height b).

(** An image whose rectangle starts at the origin, as [Image2Bytes] reads
    it, and whose encoding the run time can allocate. *)
Definition encodable (b : bin_img.Binary) : Prop :=
  wf b /\ MinX (bin_img.Rect b) = 0 /\ MinY (bin_img.Rect b) = 0 /\
  len (header_of b) + row_bytes b * height b <= maxAlloc.

Lemma Image2Bytes_spec b :
  encodable b ->
  exists payload,
    tspl.Image2Bytes (tspl.IsBinary b) = Ok (len (header_of b), header_of b ++ payload) /\
    len payload = row_bytes b * height b /\
    forall x y, 0 <= x < width b -> 0 <= y < height b ->
      getbit (header_of b ++ payload)
        (len (header_of b) + y * row_bytes b + x / 8) (7 - x mod 8) = pixel b x y.
Proof.
  intros (Hwf & HX0 & HY0 & Halloc).
  pose proof (wf_rect _ Hwf) as Hr.
  unfold tspl.Image2Bytes. cbn [bind]. unfold bin_img.Bounds.
  rewrite (Dx_ok _ Hr), (Dy_ok _ Hr). unfold rect_ok, int_range in Hr.
  change (MaxX (bin_img.Rect b) - MinX (bin_img.Rect b)) with (width b).
  change (MaxY (bin_img.Rect b) - MinY (bin_img.Rect b)) with (height b).
  assert (0 <= width b /\ 0 <= height b /\ width b + 7 < 2 ^ 63) as (Hw0 & Hh0 & Hw7)
    by (unfold width, height; lia).
  rewrite (iadd_small (width b) 7) by (unfold int_range; lia).
  rewrite Z.quot_div_nonneg by lia. fold (row_bytes b). fold (header_of b).
  set (w := width b) in *. set (h := height b) in *. set (rb := row_bytes b) in *.
  set (hd := header_of b) in *. set (H := len hd) in *.
  assert (0 <= rb /\ w <= 8 * rb) as [Hrb0 Hwrb].
  { subst rb. unfold row_bytes. fold w.
    pose proof (Z.div_mod (w + 7) 8 ltac:(lia)).
    pose proof (Z.mod_pos_bound (w + 7) 8 ltac:(lia)).
    split; [apply Z.div_pos; lia | lia]. }
  assert (15 <= H <= 57) as HH by apply bitmap_header_length.
  unfold maxAlloc in Halloc.
  assert (0 <= rb * h) as Hrbh by nia.
  assert (rb *i h = rb * h) as -> by (unwrap; reflexivity).
  assert (H +i rb * h = H + rb * h) as -> by (unwrap; reflexivity).
  unfold make_bytes, maxAlloc.
  destruct (Z.ltb_spec (H + rb * h) 0); [lia|].
  destruct (Z.ltb_spec (2 ^ 48) (H + rb * h)); [lia|]. cbn [orb bind].
  rewrite copy_header by (subst H; unfold len in *; lia).
  set (N := Z.to_nat (H + rb * h)).
  set (Inv := fun (y x : Z) (bm : list Z) =>
         length bm = N /\ take (Z.to_nat H) bm = hd /\
         forall x' y', 0 <= x' < w -> 0 <= y' < h ->
           getbit bm (H + y' * rb + x' / 8) (7 - x' mod 8) =
           if before_dec y x y' x' then pixel b x' y' else false).
  assert (forall x y, 0 <= x < w -> 0 <= y < h ->
            0 <= x / 8 < rb /\ 0 <= y * rb /\ y * rb + rb <= rb * h /\
            0 <= x mod 8 < 8) as Hgeo.
  { intros x y Hx Hy.
    split; [split; [apply Z.div_pos; lia | apply Z.div_lt_upper_bound; lia]|].
    split; [nia|]. split; [nia|]. apply Z.mod_pos_bound. lia. }
  destruct (for_range_inv (fun y bm => Inv y 0 bm)
     (fun y bitmap =>
        for_range 0 w (fun x bitmap =>
          white <- bin_img.IsWhite b x y ;;
          if white then
            let byteIndex := H +i y *i rb +i Z.quot x 8 in
            let bitIndex := 7 -i Z.rem x 8 in
            v <- index bitmap byteIndex ;;
            m <- tspl.bit_at bitIndex ;;
            assign bitmap byteIndex (Z.lor v m)
          else Ok bitmap) bitmap)
     0 h (hd ++ replicate (N - length hd) 0)) as (bm & E & Hl & Htake & Hbits).
  - lia.
  - (* the zeroed buffer *)
    split; [|split].
    + rewrite length_app, length_replicate. subst N H. unfold len in *. lia.
    + subst H. unfold len. rewrite Nat2Z.id. rewrite take_app_length. reflexivity.
    + intros x' y' Hx' Hy'. destruct (Hgeo x' y' Hx' Hy') as (Hq & Hy1 & Hy2 & Hm).
      destruct (before_dec 0 0 y' x') as [Hb | _]; [unfold before in Hb; lia|].
      unfold getbit, byte_at.
      rewrite lookup_app_r by (subst H; unfold len; lia).
      destruct (replicate (N - length hd) 0 !! (Z.to_nat (H + y' * rb + x' / 8) - length hd)%nat)
        as [v|] eqn:Ev; simpl; [|apply Z.bits_0].
      apply lookup_replicate in Ev. destruct Ev as [-> _]. apply Z.bits_0.
  - intros y t Hy Ht.
    destruct (for_range_inv (fun x bm => Inv y x bm)
       (fun x bitmap =>
          white <- bin_img.IsWhite b x y ;;
          if white then
            let byteIndex := H +i y *i rb +i Z.quot x 8 in
            let bitIndex := 7 -i Z.rem x 8 in
            v <- index bitmap byteIndex ;;
            m <- tspl.bit_at bitIndex ;;
            assign bitmap byteIndex (Z.lor v m)
          else Ok bitmap)
       0 w t) as (t' & E' & Hl' & Htake' & Hbits'); [lia | exact Ht | |].
    + intros x u Hx (Hlu & Htu & Hbu).
      destruct (Hgeo x y Hx Hy) as (Hq & Hy1 & Hy2 & Hm).
      assert (len u = H + rb * h) as Hlenu by (unfold len; subst N; lia).
      unfold bin_img.IsWhite.
      rewrite bit_inside by (auto; unfold inside; subst w h; unfold width, height in *; lia).
      cbn [bind].
      assert (forall u', length u' = N -> take (Z.to_nat H) u' = hd ->
                (forall x' y', 0 <= x' < w -> 0 <= y' < h ->
                   getbit u' (H + y' * rb + x' / 8) (7 - x' mod 8) =
                   if (H + y' * rb + x' / 8 =? H + y * rb + x / 8)
                      && (7 - x' mod 8 =? 7 - x mod 8)
                   then pixel b x y
                   else getbit u (H + y' * rb + x' / 8) (7 - x' mod 8)) ->
                Inv y (x + 1) u') as Hnext.
      { intros u' Hl1 Ht1 Hb1. split; [exact Hl1|]. split; [exact Ht1|].
        intros x' y' Hx' Hy'. rewrite Hb1, Hbu by assumption.
        destruct (Hgeo x' y' Hx' Hy') as (Hq' & _ & _ & Hm').
        destruct ((H + y' * rb + x' / 8 =? H + y * rb + x / 8)
                  && (7 - x' mod 8 =? 7 - x mod 8)) eqn:Eadr.
        - apply andb_true_iff in Eadr. destruct Eadr as [E1 E2].
          apply Z.eqb_eq in E1, E2.
          destruct (grid_inj w rb x' y' x y) as [-> ->]; try lia.
          destruct (before_dec y (x + 1) y x) as [_ | Hn]; [reflexivity|].
          exfalso. apply Hn. unfold before. lia.
        - assert (~ (x' = x /\ y' = y)) as Hne.
          { intros [-> ->]. rewrite !Z.eqb_refl in Eadr. discriminate. }
          destruct (before_dec y x y' x') as [Hb | Hb],
                   (before_dec y (x + 1) y' x') as [Hb' | Hb'];
            try reflexivity; exfalso; unfold before in *; lia. }
      destruct (pixel b x y) eqn:Epx.
      * cbv zeta. rewrite Z.quot_div_nonneg, Z.rem_mod_nonneg by lia.
        assert (H +i y *i rb +i x / 8 = H + y * rb + x / 8) as -> by (unwrap; reflexivity).
        assert (7 -i x mod 8 = 7 - x mod 8) as -> by (unwrap; reflexivity).
        rewrite index_ok by lia. cbn [bind]. rewrite bit_at_ok by lia. cbn [bind].
        rewrite assign_ok by lia.
        exists (put_bit u (H + y * rb + x / 8) (7 - x mod 8) true).
        split; [reflexivity|]. apply Hnext.
        -- rewrite length_put_bit. exact Hlu.
        -- unfold put_bit. rewrite take_insert_ge by lia. exact Htu.
        -- intros x' y' Hx' Hy'. destruct (Hgeo x' y' Hx' Hy') as (Hq' & Hy1' & _ & Hm').
           apply getbit_put_bit; lia.
      * exists u. split; [reflexivity|]. apply Hnext; auto.
        intros x' y' Hx' Hy'.
        destruct ((H + y' * rb + x' / 8 =? H + y * rb + x / 8)
                  && (7 - x' mod 8 =? 7 - x mod 8)) eqn:Eadr; [|reflexivity].
        apply andb_true_iff in Eadr. destruct Eadr as [E1 E2].
        apply Z.eqb_eq in E1, E2.
        destruct (Hgeo x' y' Hx' Hy') as (Hq' & _ & _ & Hm').
        destruct (grid_inj w rb x' y' x y) as [-> ->]; try lia.
        rewrite Hbu by assumption.
        destruct (before_dec y x y x) as [Hb | _]; [unfold before in Hb; lia|].
        reflexivity.
    + exists t'. split; [exact E'|]. split; [exact Hl'|]. split; [exact Htake'|].
      intros x' y' Hx' Hy'. rewrite Hbits' by assumption.
      destruct (before_dec y w y' x') as [Hb | Hb],
               (before_dec (y + 1) 0 y' x') as [Hb' | Hb'];
        try reflexivity; exfalso; unfold before in *; lia.
  - cbv zeta in E. rewrite E. cbn [bind].
    exists (drop (Z.to_nat H) bm).
    assert (hd ++ drop (Z.to_nat H) bm = bm) as Ebm.
    { rewrite <- Htake at 1. apply take_drop. }
    rewrite Ebm. split; [reflexivity|]. split.
    + unfold len. rewrite length_drop, Hl. subst N. lia.
    + intros x y Hx Hy. rewrite Hbits by assumption.
      destruct (before_dec h 0 y x) as [_ | Hb]; [reflexivity|].
      exfalso. apply Hb. unfold before. lia.
Qed.

(** ** [Bytes2Image] *)

Lemma setBit_pixel b x y v :
  wf b -> inside b x y ->
  exists b',
    bin_img.setBit b x y v = Ok b' /\ wf b' /\ same_shape b b' /\
    pixel b' x y = v /\
    forall x' y', inside b x' y' -> ~ (x' = x /\ y' = y) -> pixel b' x' y' = pixel b x' y'.
Proof.
  intros Hwf Hin.
  destruct (setBit_inside b x y v Hwf Hin) as (b' & E & Hwf' & HR & HS & HL & Hb).
  assert (same_shape b b') as Hsh by (repeat split; assumption).
  pose proof (off_range b x y Hwf Hin) as Ho.
  pose proof (Z.mod_pos_bound x 8 ltac:(lia)) as Hm.
  exists b'. split; [exact E|]. split; [exact Hwf'|]. split; [exact Hsh|]. split.
  - unfold pixel. rewrite (same_shape_off b b') by assumption.
    rewrite Hb by lia. rewrite !Z.eqb_refl. reflexivity.
  - intros x' y' Hin' Hne. unfold pixel. rewrite (same_shape_off b b') by assumption.
    pose proof (off_range b x' y' Hwf Hin').
    pose proof (Z.mod_pos_bound x' 8 ltac:(lia)).
    rewrite Hb by lia.
    destruct (Z.eqb_spec (off b x' y') (off b x y)) as [E1|]; [|reflexivity].
    destruct (Z.eqb_spec (7 - x' mod 8) (7 - x mod 8)) as [E2|]; [|reflexivity].
    exfalso. apply Hne. apply (addr_inj b); auto. lia.
Qed.

Lemma blank_pixel w h x y : pixel (blank w h) x y = false.
Proof.
  unfold pixel, getbit, byte_at, blank. simpl.
  destruct (replicate (Z.to_nat (w / 8 * h)) 0 !! _) as [v|] eqn:E; simpl.
  - apply lookup_replicate in E. destruct E as [-> _]. apply Z.bits_0.
  - apply Z.bits_0.
Qed.

(** What the payload says about pixel [(x, y)]: its bit, or off where the
    buffer has ended. *)
Definition decoded (body : list Z) (headerEnd rowBytes x y : Z) : bool :=
  (headerEnd + y * rowBytes + x / 8 <? len body)
  && getbit body (headerEnd + y * rowBytes + x / 8) (7 - x mod 8).

Lemma Bytes2Image_spec body hdr :
  tspl.ParseBitmapHeader body = Ok hdr ->
  0 < tspl.RowBytes hdr -> tspl.Width hdr = 8 * tspl.RowBytes hdr ->
  0 < tspl.Height hdr -> tspl.RowBytes hdr * tspl.Height hdr <= maxAlloc ->
  0 <= tspl.HeaderEnd hdr < len body -> len body < 2 ^ 62 ->
  exists im,
    tspl.Bytes2Image body = Ok im /\
    tspl.Header_ im = take (Z.to_nat (tspl.HeaderEnd hdr)) body /\
    tspl.Tail im =
      drop (Z.to_nat (Z.min (len body)
                        (tspl.HeaderEnd hdr + tspl.RowBytes hdr * tspl.Height hdr))) body /\
    wf (tspl.Bitmap im) /\ same_shape (blank (tspl.Width hdr) (tspl.Height hdr)) (tspl.Bitmap im) /\
    forall x y, 0 <= x < tspl.Width hdr -> 0 <= y < tspl.Height hdr ->
      pixel (tspl.Bitmap im) x y =
      decoded body (tspl.HeaderEnd hdr) (tspl.RowBytes hdr) x y.
Proof.
  intros Hparse Hrb HW Hh Halloc HHE Hlen.
  unfold tspl.Bytes2Image. rewrite Hparse. cbn [bind].
  destruct hdr as [rb W Ht HE]. simpl in *. subst W.
  unfold maxAlloc in Halloc.
  assert (rb <= 2 ^ 48 /\ Ht <= 2 ^ 48) as [Hrb48 Hh48] by nia.
  destruct (Z.leb_spec (8 * rb) 0); [lia|]. destruct (Z.leb_spec Ht 0); [lia|].
  cbn [orb].
  assert (8 * rb / 8 = rb) as Hdiv by (rewrite Z.mul_comm; apply Z.div_mul; lia).
  destruct (NewBinary_ok (8 * rb) Ht) as (EN & Hwf0 & _);
    [lia | rewrite Z.mul_comm; apply Z.mod_mul; lia | lia | rewrite Hdiv; exact Halloc |].
  rewrite EN. cbn [bind].
  set (b0 := blank (8 * rb) Ht) in *. set (L := len body) in *.
  assert (forall x y, 0 <= x < 8 * rb -> 0 <= y < Ht ->
            inside b0 x y /\ 0 <= x / 8 < rb /\ 0 <= y * rb /\ y * rb + rb <= rb * Ht /\
            0 <= x mod 8 < 8 /\ x / 8 - 1 <= (x - 1) / 8 <= x / 8) as Hgeo.
  { intros x y Hx Hy. split; [unfold inside; simpl; lia|].
    pose proof (Z.div_mod x 8 ltac:(lia)). pose proof (Z.mod_pos_bound x 8 ltac:(lia)).
    pose proof (Z.div_mod (x - 1) 8 ltac:(lia)).
    pose proof (Z.mod_pos_bound (x - 1) 8 ltac:(lia)).
    split; [lia|]. split; [nia|]. split; [nia|]. split; lia. }
  set (Inv := fun (y x : Z) (st : bin_img.Binary * Z) =>
         wf (fst st) /\ same_shape b0 (fst st) /\
         (forall x' y', 0 <= x' < 8 * rb -> 0 <= y' < Ht ->
            pixel (fst st) x' y' =
            if before_dec y x y' x' then decoded body HE rb x' y' else false) /\
         ((y = 0 /\ x = 0 /\ snd st = HE) \/
          snd st = Z.min (L - 1) (HE + y * rb + (x - 1) / 8))).
  destruct (for_range_inv (fun y st => Inv y 0 st)
     (fun y st =>
        for_range 0 (8 * rb) (fun x (st : bin_img.Binary * Z) =>
          let byteIndex := HE +i y *i rb +i Z.quot x 8 in
          if L <=? byteIndex then Ok st
          else
            let bitIndex := 7 -i Z.rem x 8 in
            v <- index body byteIndex ;;
            b <- tspl.bit_of v bitIndex ;;
            img <- (if b =? 0 then bin_img.SetOff (fst st) x y
                    else bin_img.SetOn (fst st) x y) ;;
            Ok (img, byteIndex)) st)
     0 Ht (b0, HE)) as (st & E & Hwf & Hsh & Hpix & Hend).
  - lia.
  - split; [exact Hwf0|]. split; [apply same_shape_refl|]. split; [|left; auto].
    intros x' y' Hx' Hy'. simpl.
    replace (pixel b0 x' y') with false by (symmetry; apply blank_pixel).
    destruct (before_dec 0 0 y' x') as [Hb | _]; [unfold before in Hb; lia | reflexivity].
  - intros y t Hy Ht0.
    destruct (for_range_inv (fun x st => Inv y x st)
       (fun x (st : bin_img.Binary * Z) =>
          let byteIndex := HE +i y *i rb +i Z.quot x 8 in
          if L <=? byteIndex then Ok st
          else
            let bitIndex := 7 -i Z.rem x 8 in
            v <- index body byteIndex ;;
            b <- tspl.bit_of v bitIndex ;;
            img <- (if b =? 0 then bin_img.SetOff (fst st) x y
                    else bin_img.SetOn (fst st) x y) ;;
            Ok (img, byteIndex))
       0 (8 * rb) t) as (t' & E' & Hwf' & Hsh' & Hpix' & Hend'); [lia | exact Ht0 | |].
    + intros x [img be] Hx (Hwi & Hshi & Hpi & Hbe). simpl in Hwi, Hshi, Hpi, Hbe.
      destruct (Hgeo x y Hx Hy) as (Hin & Hq & Hy1 & Hy2 & Hm & Hprev).
      cbv zeta. cbn [fst snd]. rewrite Z.quot_div_nonneg, Z.rem_mod_nonneg by lia.
      assert (HE +i y *i rb +i x / 8 = HE + y * rb + x / 8) as -> by (unwrap; reflexivity).
      assert (7 -i x mod 8 = 7 - x mod 8) as -> by (unwrap; reflexivity).
      set (idx := HE + y * rb + x / 8) in *.
      assert (forall img' be',
                wf img' -> same_shape b0 img' ->
                pixel img' x y = decoded body HE rb x y ->
                (forall x' y', inside b0 x' y' -> ~ (x' = x /\ y' = y) ->
                               pixel img' x' y' = pixel img x' y') ->
                be' = Z.min (L - 1) idx ->
                Inv y (x + 1) (img', be')) as Hnext.
      { intros img' be' W1 W2 P1 P2 B1. split; [exact W1|]. split; [exact W2|]. split.
        - intros x' y' Hx' Hy'. simpl.
          destruct (Z.eq_dec x' x) as [-> | Hnx];
            [destruct (Z.eq_dec y' y) as [-> | Hny]|].
          + rewrite P1. destruct (before_dec y (x + 1) y x) as [_ | Hn]; [reflexivity|].
            exfalso. apply Hn. unfold before. lia.
          + rewrite P2 by (try apply Hgeo; auto; lia). rewrite Hpi by assumption.
            destruct (before_dec y x y' x) as [Hb | Hb],
                     (before_dec y (x + 1) y' x) as [Hb' | Hb'];
              try reflexivity; exfalso; unfold before in *; lia.
          + rewrite P2 by (try apply Hgeo; auto; lia). rewrite Hpi by assumption.
            destruct (before_dec y x y' x') as [Hb | Hb],
                     (before_dec y (x + 1) y' x') as [Hb' | Hb'];
              try reflexivity; exfalso; unfold before in *; lia.
        - right. simpl. rewrite B1. replace (x + 1 - 1) with x by lia. reflexivity. }
      destruct (Z.leb_spec L idx) as [Hout | Hinb].
      * exists (img, be). split; [reflexivity|]. apply Hnext; auto.
        -- rewrite Hpi by assumption.
           destruct (before_dec y x y x) as [Hb | _]; [unfold before in Hb; lia|].
           unfold decoded. fold idx L. destruct (Z.ltb_spec idx L); [lia|]. reflexivity.
        -- destruct Hbe as [(-> & -> & ->) | ->].
           ++ subst idx. change (0 / 8) with 0 in Hout. lia.
           ++ fold idx in Hprev. subst idx. lia.
      * rewrite index_ok by (subst idx; fold L; lia). cbn [bind].
        destruct (bit_of_ok (byte_at body idx) (7 - x mod 8) ltac:(lia)) as (r & Er & Hr).
        rewrite Er. cbn [bind].
        assert ((if r =? 0 then bin_img.SetOff img x y else bin_img.SetOn img x y) =
                bin_img.setBit img x y (Z.testbit (byte_at body idx) (7 - x mod 8))) as ->.
        { rewrite Hr. unfold bin_img.SetOff, bin_img.SetOn.
          destruct (Z.testbit (byte_at body idx) (7 - x mod 8)); reflexivity. }
        assert (inside img x y) as Hin' by (apply (same_shape_inside b0 img); assumption).
        destruct (setBit_pixel img x y (Z.testbit (byte_at body idx) (7 - x mod 8)) Hwi Hin')
          as (img' & Es & Hwi' & Hshi' & P1 & P2).
        rewrite Es. cbn [bind]. exists (img', idx). split; [reflexivity|].
        apply Hnext; auto.
        -- eapply same_shape_trans; eassumption.
        -- rewrite P1. unfold decoded. fold idx L.
           destruct (Z.ltb_spec idx L); [reflexivity | lia].
        -- intros x' y' Hi' Hne. apply P2; auto.
           apply (same_shape_inside b0 img); assumption.
        -- lia.
    + exists t'. split; [exact E'|]. split; [exact Hwf'|]. split; [exact Hsh'|]. split.
      * intros x' y' Hx' Hy'. rewrite Hpix' by assumption.
        destruct (before_dec y (8 * rb) y' x') as [Hb | Hb],
                 (before_dec (y + 1) 0 y' x') as [Hb' | Hb'];
          try reflexivity; exfalso; unfold before in *; lia.
      * right. destruct Hend' as [(_ & Hx0 & _) | ->]; [lia|].
        f_equal. change ((0 - 1) / 8) with (-1).
        replace (8 * rb - 1) with (7 + (rb - 1) * 8) by lia.
        rewrite Z.div_add by lia. change (7 / 8) with 0. lia.
  - cbv zeta in E. fold L. rewrite E. cbn [bind].
    destruct st as [img be]. simpl in *.
    assert (be = Z.min (L - 1) (HE + rb * Ht - 1)) as ->.
    { destruct Hend as [(Hy0 & _) | ->]; [lia|].
      change ((0 - 1) / 8) with (-1). f_equal. lia. }
    assert (0 <= rb * Ht) by nia.
    unfold tspl.slice_to, tspl.slice_from. fold L.
    destruct (Z.leb_spec 0 HE); [|lia]. destruct (Z.leb_spec HE L); [|lia]. cbn [andb bind].
    rewrite iadd_small by (unfold int_range; lia).
    destruct (Z.leb_spec 0 (Z.min (L - 1) (HE + rb * Ht - 1) + 1)); [|lia].
    destruct (Z.leb_spec (Z.min (L - 1) (HE + rb * Ht - 1) + 1) L); [|lia].
    cbn [andb bind].
    eexists. split; [reflexivity|]. simpl.
    split; [reflexivity|]. split; [f_equal; lia|]. split; [exact Hwf|].
    split; [exact Hsh|]. intros x y Hx Hy. rewrite Hpix by assumption.
    destruct (before_dec Ht 0 y x) as [_ | Hb]; [reflexivity|].
    exfalso. apply Hb. unfold before. lia.
Qed.

(** ** Encoding and decoding again *)

(** The images of the claim: [NewBinary], then any number of [setBit]
    ([SetOn], [SetOff] and [Set] are [setBit]). *)
Inductive produced : bin_img.Binary -> Prop :=
| produced_new w h b : bin_img.NewBinary w h = Ok b -> produced b
| produced_set b x y on b' :
    produced b -> bin_img.setBit b x y on = Ok b' -> produced b'.

Lemma mask_range x : exists k, 0 <= k < 8 /\ bin_img.mask x = 2 ^ k.
Proof.
  exists (7 - x mod 8). pose proof (Z.mod_pos_bound x 8 ltac:(lia)).
  split; [lia | apply mask_pow2].
Qed.

Lemma produced_shape b :
  produced b ->
  exists w h,
    0 < w /\ w mod 8 = 0 /\ 0 < h /\
    bin_img.Rect b = {| MinX := 0; MinY := 0; MaxX := w; MaxY := h |} /\
    bin_img.Stride b = w / 8 /\
    length (bin_img.Pix b) = Z.to_nat ((w / 8) *i h) /\
    Forall is_byte (bin_img.Pix b).
Proof.
  induction 1 as [w h b E | b x y on b' Hp IH E].
  - apply NewBinary_inv in E. destruct E as (Hw & Hw8 & Hh & _ & HS & HR & HP).
    exists w, h. repeat split; auto.
    + rewrite HP. apply length_replicate.
    + rewrite HP. apply Forall_replicate. unfold is_byte. lia.
  - destruct IH as (w & h & Hw & Hw8 & Hh & HR & HS & HL & HB).
    exists w, h. unfold bin_img.setBit in E.
    destruct (index (bin_img.Pix b) (bin_img.pixOffset b x y)) as [v| |] eqn:Ei;
      try discriminate. cbn [bind] in E.
    unfold assign in E.
    destruct ((0 <=? bin_img.pixOffset b x y)
              && (bin_img.pixOffset b x y <? len (bin_img.Pix b))); [|discriminate].
    cbn [bind] in E. injection E as <-. simpl.
    repeat split; auto.
    + rewrite length_insert. exact HL.
    + apply Forall_insert_byte; [exact HB|].
      assert (is_byte v) as Hv.
      { unfold index in Ei. destruct (bin_img.pixOffset b x y <? 0); [discriminate|].
        destruct (bin_img.Pix b !! Z.to_nat (bin_img.pixOffset b x y)) as [v'|] eqn:El;
          [|discriminate].
        injection Ei as <-. exact (Forall_lookup_1 _ _ _ _ HB El). }
      destruct (mask_range x) as (k & Hk & ->).
      destruct on; [apply lor_pow2_byte | apply ldiff_pow2_byte]; assumption.
Qed.

Lemma produced_encodable b :
  produced b ->
  len (header_of b) + row_bytes b * height b <= maxAlloc ->
  encodable b /\ 0 < width b /\ width b mod 8 = 0 /\ 0 < height b /\
  row_bytes b = width b / 8.
Proof.
  intros Hp Hsize.
  destruct (produced_shape b Hp) as (w & h & Hw & Hw8 & Hh & HR & HS & HL & HB).
  assert (width b = w) as Ew by (unfold width; rewrite HR; simpl; lia).
  assert (height b = h) as Eh by (unfold height; rewrite HR; simpl; lia).
  pose proof (Z.div_mod w 8 ltac:(lia)) as Hdm.
  assert (row_bytes b = w / 8) as Erb.
  { unfold row_bytes. rewrite Ew.
    replace (w + 7) with (7 + w / 8 * 8) by lia. rewrite Z.div_add by lia. reflexivity. }
  pose proof (len_nonneg (header_of b)) as Hh0.
  pose proof Hsize as Hsize'. rewrite Erb, Eh in Hsize'. unfold maxAlloc in Hsize'.
  assert (0 < w / 8) by lia.
  assert (w / 8 <= 2 ^ 48 /\ h <= 2 ^ 48) as [? ?] by nia.
  rewrite imul_small in HL by (unfold int_range; nia).
  split; [|rewrite Ew, Eh, Erb; auto].
  split; [|split; [rewrite HR; reflexivity|split; [rewrite HR; reflexivity|exact Hsize]]].
  constructor.
  - rewrite HR. unfold rect_ok, int_range. simpl. lia.
  - exact HB.
  - unfold len. rewrite HL. nia.
  - rewrite HS. lia.
  - intros _ _. fold (row_bytes b). rewrite Erb, Eh, HS. unfold len. rewrite HL. nia.
Qed.

(** What [Encode] returns starts with the printer set-up lines, and
    [Bytes2Image] takes only a buffer that starts with [BITMAP]. *)
Lemma Bytes2Image_Encode size_text w h dpm img opt enc :
  tspl.Encode size_text w h dpm img opt = Ok enc ->
  tspl.Bytes2Image enc = Err ENotABitmapLine.
Proof.
  unfold tspl.Encode. destruct (tspl.Image2Bytes img) as [r| |]; try discriminate.
  cbn [bind]. intros [= <-].
  unfold tspl.Bytes2Image, tspl.ParseBitmapHeader, tspl.Header.
  let l := eval vm_compute in (bytes "SET CUTTER OFF") in
  change (bytes "SET CUTTER OFF") with l.
  let l := eval vm_compute in (bytes "BITMAP") in
  change (bytes "BITMAP") with l.
  reflexivity.
Qed.

Lemma getbit_app_l (l l' : list Z) i k :
  0 <= i < len l -> getbit (l ++ l') i k = getbit l i k.
Proof.
  intros Hi. unfold getbit, byte_at. rewrite lookup_app_l by (unfold len in Hi; lia).
  reflexivity.
Qed.

Lemma rect_at_origin b :
  MinX (bin_img.Rect b) = 0 -> MinY (bin_img.Rect b) = 0 ->
  bin_img.Rect b = {| MinX := 0; MinY := 0; MaxX := width b; MaxY := height b |}.
Proof.
  unfold width, height. destruct (bin_img.Rect b) as [x0 y0 x1 y1]. simpl.
  intros -> ->. f_equal; lia.
Qed.

(** C1, as the code has it.  For an image made by [NewBinary] and
    [setBit]s, whose encoding the run time can allocate: [Image2Bytes]
    gives a buffer which, with any bytes [tail] after it, [Bytes2Image]
    decodes to an image with the same rectangle and the same pixel at
    every coordinate of the rectangle, the header text and [tail] handed
    back as they were.  The full output of [Encode] starts with the printer
    set-up lines and is refused as "not a BITMAP line". *)
Theorem Bytes2Image_Image2Bytes b tail :
  produced b ->
  len (header_of b) + row_bytes b * height b <= maxAlloc ->
  len tail < 2 ^ 61 ->
  exists bitmap im,
    tspl.Image2Bytes (tspl.IsBinary b) = Ok (len (header_of b), bitmap) /\
    tspl.Bytes2Image (bitmap ++ tail) = Ok im /\
    bin_img.Rect (tspl.Bitmap im) = bin_img.Rect b /\
    tspl.Header_ im = header_of b /\
    tspl.Tail im = tail /\
    (forall x y, inside b x y ->
       bin_img.bit (tspl.Bitmap im) x y = bin_img.bit b x y) /\
    (forall size_text w h dpm opt enc,
       tspl.Encode size_text w h dpm (tspl.IsBinary b) opt = Ok enc ->
       tspl.Bytes2Image enc = Err ENotABitmapLine).
Proof.
  intros Hp Hsize Htail.
  destruct (produced_encodable b Hp Hsize) as (Henc & Hw & Hw8 & Hh & Erb).
  pose proof Henc as (Hwf & HX0 & HY0 & _).
  destruct (Image2Bytes_spec b Henc) as (payload & EI & Hlp & Hbits).
  pose proof (Z.div_mod (width b) 8 ltac:(lia)) as Hdm.
  pose proof (bitmap_header_length (row_bytes b) (height b)) as Hhd.
  fold (header_of b) in Hhd.
  set (hd := header_of b) in *. set (rb := row_bytes b) in *. set (h := height b) in *.
  assert (0 < rb) as Hrb by lia.
  unfold maxAlloc in Hsize.
  assert (rb <= 2 ^ 48 /\ h <= 2 ^ 48 /\ 0 < rb * h) as (Hrb48 & Hh48 & Hrbh) by nia.
  pose proof (len_nonneg tail) as Ht0.
  set (hdr := {| tspl.RowBytes := rb; tspl.Width := rb *i 8; tspl.Height := h;
                 tspl.HeaderEnd := len hd |}).
  assert (tspl.ParseBitmapHeader ((hd ++ payload) ++ tail) = Ok hdr) as Hparse.
  { rewrite <- app_assoc. apply ParseBitmapHeader_printed; lia. }
  assert (len ((hd ++ payload) ++ tail) = len hd + rb * h + len tail) as Hlen.
  { unfold len in *. rewrite !length_app. lia. }
  assert (rb *i 8 = width b) as EW by (unwrap; lia).
  assert (0 < tspl.RowBytes hdr) as P1 by exact Hrb.
  assert (tspl.Width hdr = 8 * tspl.RowBytes hdr) as P2 by (simpl; lia).
  assert (0 < tspl.Height hdr) as P3 by exact Hh.
  assert (tspl.RowBytes hdr * tspl.Height hdr <= maxAlloc) as P4
    by (unfold maxAlloc; simpl; lia).
  assert (0 <= tspl.HeaderEnd hdr < len ((hd ++ payload) ++ tail)) as P5
    by (unfold hdr; cbn [tspl.HeaderEnd]; lia).
  assert (len ((hd ++ payload) ++ tail) < 2 ^ 62) as P6 by lia.
  destruct (Bytes2Image_spec _ hdr Hparse P1 P2 P3 P4 P5 P6)
    as (im & EB & Hhead & Htl & Hwfi & Hshi & Hpix).
  unfold hdr in Hhead, Htl, Hshi, Hpix.
  cbn [tspl.HeaderEnd tspl.RowBytes tspl.Width tspl.Height] in Hhead, Htl, Hshi, Hpix.
  rewrite EW in Hshi, Hpix.
  exists (hd ++ payload), im.
  split; [exact EI|]. split; [exact EB|]. split; [|split; [|split; [|split]]].
  - destruct Hshi as (HR & _). rewrite HR. unfold blank. cbn [bin_img.Rect].
    symmetry. apply rect_at_origin; assumption.
  - rewrite Hhead. rewrite <- app_assoc. apply take_app_length'.
    unfold len. rewrite Nat2Z.id. reflexivity.
  - rewrite Htl, Hlen. rewrite Z.min_r by lia.
    apply drop_app_length'. unfold len in *. rewrite length_app. lia.
  - intros x y Hin.
    assert (0 <= x < width b /\ 0 <= y < h) as [Hx Hy]
      by (unfold inside, width, h, height in *; lia).
    assert (inside (tspl.Bitmap im) x y) as Hin'.
    { apply (same_shape_inside _ _ x y Hshi). unfold inside. simpl. lia. }
    rewrite (bit_inside _ x y Hwfi Hin'), (bit_inside b x y Hwf Hin). f_equal.
    rewrite Hpix by assumption. unfold decoded.
    assert (0 <= x / 8 < rb) as Hq.
    { split; [apply Z.div_pos; lia | apply Z.div_lt_upper_bound; lia]. }
    assert (0 <= y * rb /\ y * rb + rb <= rb * h) as [Hy1 Hy2] by nia.
    rewrite Hlen.
    destruct (Z.ltb_spec (len hd + y * rb + x / 8) (len hd + rb * h + len tail)); [|lia].
    cbn [andb]. rewrite getbit_app_l.
    + apply Hbits; assumption.
    + unfold len in *. rewrite length_app. lia.
  - intros size_text w0 h0 dpm opt enc. apply Bytes2Image_Encode.
Qed.

(** An 8x2 image with pixels (3, 0) and (0, 1) on. *)
Definition two_dots : bin_img.Binary :=
  {| bin_img.Pix := [16; 128]; bin_img.Stride := 1;
     bin_img.Rect := {| MinX := 0; MinY := 0; MaxX := 8; MaxY := 2 |} |}.

Lemma two_dots_produced : produced two_dots.
Proof.
  apply (produced_set {| bin_img.Pix := [16; 0]; bin_img.Stride := 1;
                         bin_img.Rect := {| MinX := 0; MinY := 0; MaxX := 8; MaxY := 2 |} |}
           0 1 true); [|reflexivity].
  apply (produced_set (blank 8 2) 3 0 true); [|reflexivity].
  apply (produced_new 8 2). reflexivity.
Defined.

Lemma Bytes2Image_Image2Bytes_witness :
  exists bitmap im,
    tspl.Image2Bytes (tspl.IsBinary two_dots) = Ok (len (header_of two_dots), bitmap) /\
    tspl.Bytes2Image (bitmap ++ bytes "PRINT 1,1" ++ [13; 10]) = Ok im /\
    bin_img.Rect (tspl.Bitmap im) = bin_img.Rect two_dots /\
    tspl.Header_ im = header_of two_dots /\
    tspl.Tail im = bytes "PRINT 1,1" ++ [13; 10] /\
    (forall x y, inside two_dots x y ->
       bin_img.bit (tspl.Bitmap im) x y = bin_img.bit two_dots x y) /\
    (forall size_text w h dpm opt enc,
       tspl.Encode size_text w h dpm (tspl.IsBinary two_dots) opt = Ok enc ->
       tspl.Bytes2Image enc = Err ENotABitmapLine).
Proof.
  apply (Bytes2Image_Image2Bytes two_dots (bytes "PRINT 1,1" ++ [13; 10])).
  - exact two_dots_produced.
  - vm_compute. discriminate.
  - vm_compute. reflexivity.
Defined.

(** The claim as the specification states it, decoding what [Encode]
    returns, fails on the 8x1 image of [NewBinary]: whatever the size text
    of the header, [Encode] succeeds and [Bytes2Image] refuses its output. *)
Lemma Bytes2Image_Encode_counterexample :
  exists b,
    bin_img.NewBinary 8 1 = Ok b /\
    forall size_text,
      exists enc,
        tspl.Encode size_text 8 1 8 (tspl.IsBinary b) tspl.DefaultOptions = Ok enc /\
        tspl.Bytes2Image enc = Err ENotABitmapLine.
Proof.
  exists (blank 8 1). split; [reflexivity|]. intros size_text.
  assert (tspl.Image2Bytes (tspl.IsBinary (blank 8 1)) =
          Ok (17, bytes "BITMAP 0,0,1,1,1," ++ [0])) as EI by (vm_compute; reflexivity).
  assert (exists enc, tspl.Encode size_text 8 1 8 (tspl.IsBinary (blank 8 1))
                        tspl.DefaultOptions = Ok enc) as (enc & E).
  { unfold tspl.Encode. rewrite EI. cbn [bind]. eexists. reflexivity. }
  exists enc. split; [exact E|]. exact (Bytes2Image_Encode _ _ _ _ _ _ _ E).
Qed.

(** ** [OverlayBinary] over the store *)

(** The store [s'] holds every array of [s] as [s] has it. *)
Definition keeps (s s' : tspl.store) : Prop :=
  forall l, l ∈ dom s -> s' !! l = s !! l.

Lemma keeps_refl s : keeps s s.
Proof. intros l _. reflexivity. Qed.

Lemma keeps_insert_fresh s s' l a :
  keeps s s' -> l ∉ dom s -> keeps s (<[l := a]> s').
Proof.
  intros Hk Hl l' Hl'. rewrite lookup_insert_ne by (intros ->; contradiction).
  apply Hk. exact Hl'.
Qed.

(** A computation that leaves the arrays of [s0] alone, however it ends. *)
Definition framed {A : Type} (s0 : tspl.store) (m : tspl.M A) : Prop :=
  forall s, keeps s0 s -> keeps s0 (fst (m s)).

Lemma framed_lift {A : Type} s0 (r : result A) : framed s0 (tspl.lift r).
Proof. intros s Hs. exact Hs. Qed.

Lemma framed_mret {A : Type} s0 (a : A) : framed s0 (tspl.mret a).
Proof. intros s Hs. exact Hs. Qed.

Lemma framed_read {A : Type} s0 (f : tspl.store -> result A) :
  framed s0 (fun st => (st, f st)).
Proof. intros s Hs. exact Hs. Qed.

Lemma framed_mbind {A B : Type} s0 (m : tspl.M A) (k : A -> tspl.M B) :
  framed s0 m -> (forall a, framed s0 (k a)) -> framed s0 (tspl.mbind m k).
Proof.
  intros Hm Hk s Hs. unfold tspl.mbind. specialize (Hm s Hs).
  destruct (m s) as [s' [a | e |]]; simpl in *; auto. apply Hk. exact Hm.
Qed.

Lemma framed_mloop s0 (body : Z -> tspl.M unit) n :
  (forall i, framed s0 (body i)) -> forall i, framed s0 (tspl.mloop n i body).
Proof.
  intros Hb. induction n as [|n IH]; intros i; simpl.
  - apply framed_mret.
  - apply framed_mbind; [apply Hb | intros _; apply IH].
Qed.

Lemma framed_mfor s0 lo hi (body : Z -> tspl.M unit) :
  (forall i, framed s0 (body i)) -> framed s0 (tspl.mfor lo hi body).
Proof. intros Hb. apply framed_mloop. exact Hb. Qed.

Lemma framed_setBitmapBit_at s0 res headerEnd rowBytes x y bit :
  tspl.s_arr res ∉ dom s0 ->
  framed s0 (tspl.setBitmapBit_at res headerEnd rowBytes x y bit).
Proof.
  intros Hl s Hs. unfold tspl.setBitmapBit_at.
  destruct (tspl.setBitmapBit (tspl.load s res) headerEnd rowBytes x y bit); simpl; auto.
  unfold tspl.save. apply keeps_insert_fresh; assumption.
Qed.

(** Whatever [OverlayBinary] is given and however it ends, every array the
    store held before the call is as it was. *)
Lemma OverlayBinary_keeps baseHeader base overlay xOff yOff st :
  keeps st (fst (tspl.OverlayBinary baseHeader base overlay xOff yOff st)).
Proof.
  assert (framed st (tspl.OverlayBinary baseHeader base overlay xOff yOff)) as H;
    [|apply H; apply keeps_refl].
  unfold tspl.OverlayBinary.
  destruct overlay as [ov|]; [|apply framed_lift].
  destruct ((xOff <? 0) || (yOff <? 0)); [apply framed_lift|].
  destruct (tspl.slen base =? 0); [apply framed_lift|].
  apply framed_mbind; [apply framed_read|]. intros h.
  destruct (tspl.slen base <? _); [apply framed_lift|].
  destruct ((Dx (tspl.RectRef ov) <=? 0) || (Dy (tspl.RectRef ov) <=? 0));
    [apply framed_lift|].
  destruct ((tspl.Width h <? _) || (tspl.Height h <? _)); [apply framed_lift|].
  intros s Hs. unfold tspl.mbind at 1. unfold tspl.clone at 1. cbn [fst].
  set (l := fresh (dom s)).
  set (res := {| tspl.s_arr := l; tspl.s_off := 0%nat; tspl.s_len := tspl.s_len base |}).
  assert (l ∉ dom st) as Hl.
  { intros Hin. assert (l ∈ dom s) as Hin'.
    { apply elem_of_dom. rewrite (Hs l Hin). apply elem_of_dom. exact Hin. }
    exact (is_fresh (dom s) Hin'). }
  assert (framed st
            (tspl.mbind
               (tspl.mfor 0 (Dy (tspl.RectRef ov)) (fun y =>
                  tspl.mfor 0 (Dx (tspl.RectRef ov)) (fun x =>
                    tspl.mbind
                      (fun st => (st, bin_img.IsWhite (tspl.deref st ov)
                                        (x +i MinX (tspl.RectRef ov))
                                        (y +i MinY (tspl.RectRef ov))))
                      (fun white =>
                         tspl.setBitmapBit_at res (tspl.HeaderEnd h) (tspl.RowBytes h)
                           (x +i xOff) (y +i yOff) (if white then 1 else 0)))))
               (fun _ => tspl.mret res))) as Hloop.
  { apply framed_mbind; [|intros _; apply framed_mret].
    apply framed_mfor. intros y. apply framed_mfor. intros x.
    apply framed_mbind; [apply framed_read|]. intros white.
    apply framed_setBitmapBit_at. exact Hl. }
  apply Hloop. apply keeps_insert_fresh; assumption.
Qed.

(** ** [OverlayBinary]: what the returned buffer holds *)

Lemma mloop_ok (I : Z -> tspl.store -> Prop) (body : Z -> tspl.M unit) n :
  forall i s,
    I i s ->
    (forall j t, i <= j < i + Z.of_nat n -> I j t ->
       exists t', body j t = (t', Ok tt) /\ I (j + 1) t') ->
    exists s', tspl.mloop n i body s = (s', Ok tt) /\ I (i + Z.of_nat n) s'.
Proof.
  induction n as [|n IH]; intros i s Hi Hstep.
  - exists s. split; [reflexivity|]. replace (i + Z.of_nat 0) with i by lia. exact Hi.
  - destruct (Hstep i s) as (t & Et & Ht); [lia | exact Hi |].
    destruct (IH (i + 1) t Ht) as (s' & Es & Hs').
    { intros j u Hj Hu. apply Hstep; [lia | exact Hu]. }
    exists s'. split.
    + cbn [tspl.mloop]. unfold tspl.mbind. rewrite Et. exact Es.
    + replace (i + Z.of_nat (S n)) with (i + 1 + Z.of_nat n) by lia. exact Hs'.
Qed.

Lemma mfor_ok (I : Z -> tspl.store -> Prop) (body : Z -> tspl.M unit) lo hi s :
  lo <= hi -> I lo s ->
  (forall i t, lo <= i < hi -> I i t ->
     exists t', body i t = (t', Ok tt) /\ I (i + 1) t') ->
  exists s', tspl.mfor lo hi body s = (s', Ok tt) /\ I hi s'.
Proof.
  intros Hle Hlo Hstep. unfold tspl.mfor.
  destruct (mloop_ok I body (Z.to_nat (hi - lo)) lo s Hlo) as (s' & Es & Hs').
  - intros j t Hj. apply Hstep. lia.
  - exists s'. split; [exact Es|].
    replace (lo + Z.of_nat (Z.to_nat (hi - lo))) with hi in Hs' by lia. exact Hs'.
Qed.

(** A header the later arithmetic of [OverlayBinary] does not overflow on. *)
Definition header_ok (h : tspl.BitmapHeader) : Prop :=
  0 <= tspl.HeaderEnd h /\ 0 <= tspl.RowBytes h /\ 0 <= tspl.Height h /\
  tspl.Width h <= 8 * tspl.RowBytes h /\ tspl.Width h < 2 ^ 63 /\
  tspl.HeaderEnd h + tspl.RowBytes h * tspl.Height h < 2 ^ 62.

(** The header [OverlayBinary] works with: the one passed in, else the one
    parsed from [base]. *)
Definition effective_header (st : tspl.store) (baseHeader : option tspl.BitmapHeader)
    (base : tspl.slice) : result tspl.BitmapHeader :=
  match baseHeader with
  | Some bh => Ok bh
  | None => tspl.ParseBitmapHeader (tspl.load st base)
  end.

(** The slice lies within its array. *)
Definition slice_ok (st : tspl.store) (s : tspl.slice) : Prop :=
  length (tspl.load st s) = tspl.s_len s.

(** Where overlay pixel [(x, y)] (relative to the overlay's origin) lands. *)
Definition patch_byte (h : tspl.BitmapHeader) (xOff yOff x y : Z) : Z :=
  tspl.HeaderEnd h + (y + yOff) * tspl.RowBytes h + (x + xOff) / 8.

Definition patch_bit (xOff x : Z) : Z := 7 - (x + xOff) mod 8.

(** [cur] is [base0] with the overlay's pixels written at the offset, and
    every other bit as in [base0]. *)
Definition patched (base0 cur : list Z) (ovb : bin_img.Binary)
    (h : tspl.BitmapHeader) (xOff yOff : Z) : Prop :=
  length cur = length base0 /\
  (forall x y, 0 <= x < width ovb -> 0 <= y < height ovb ->
     getbit cur (patch_byte h xOff yOff x y) (patch_bit xOff x) =
     pixel ovb (x + MinX (bin_img.Rect ovb)) (y + MinY (bin_img.Rect ovb))) /\
  (forall i k, 0 <= i -> 0 <= k ->
     (forall x y, 0 <= x < width ovb -> 0 <= y < height ovb ->
        ~ (i = patch_byte h xOff yOff x y /\ k = patch_bit xOff x)) ->
     getbit cur i k = getbit base0 i k).

Lemma deref_keeps st s ov :
  keeps st s -> tspl.s_arr (tspl.PixRef ov) ∈ dom st -> tspl.deref s ov = tspl.deref st ov.
Proof.
  intros Hk Hin. unfold tspl.deref, tspl.load. rewrite (Hk _ Hin). reflexivity.
Qed.

Lemma load_whole (s : tspl.store) l n cur :
  s !! l = Some cur -> length cur = n ->
  tspl.load s {| tspl.s_arr := l; tspl.s_off := 0; tspl.s_len := n |} = cur.
Proof.
  intros Hl Hn. unfold tspl.load. simpl. rewrite Hl. simpl.
  rewrite drop_0. apply firstn_all2. lia.
Qed.

Lemma save_whole (s : tspl.store) l n cur body :
  s !! l = Some cur -> length cur = n ->
  tspl.save s {| tspl.s_arr := l; tspl.s_off := 0; tspl.s_len := n |} body = <[l := body]> s.
Proof.
  intros Hl Hn. unfold tspl.save. simpl. rewrite Hl. simpl.
  rewrite drop_ge by lia. rewrite app_nil_r. reflexivity.
Qed.

Lemma OverlayBinary_spec st baseHeader base ov xOff yOff h :
  effective_header st baseHeader base = Ok h -> header_ok h ->
  slice_ok st base -> 0 < tspl.slen base < 2 ^ 62 ->
  tspl.HeaderEnd h + tspl.RowBytes h * tspl.Height h <= tspl.slen base ->
  wf (tspl.deref st ov) ->
  0 < width (tspl.deref st ov) -> 0 < height (tspl.deref st ov) ->
  0 <= xOff -> 0 <= yOff ->
  xOff + width (tspl.deref st ov) <= tspl.Width h ->
  yOff + height (tspl.deref st ov) <= tspl.Height h ->
  exists st' res,
    tspl.OverlayBinary baseHeader base (Some ov) xOff yOff st = (st', Ok res) /\
    (tspl.s_arr res ∉ dom st) /\ tspl.s_len res = tspl.s_len base /\
    patched (tspl.load st base) (tspl.load st' res) (tspl.deref st ov) h xOff yOff.
Proof.
  intros Heff (HE0 & Hrb0 & HH0 & HWrb & HW63 & Hend) Hbase Hlen Hfit Hwf Hw Hh Hx0 Hy0 Hxw Hyh.
  set (ovb := tspl.deref st ov) in *.
  pose proof (wf_rect _ Hwf) as Hr.
  assert (Dx (tspl.RectRef ov) = width ovb) as EDx by (apply (Dx_ok _ Hr)).
  assert (Dy (tspl.RectRef ov) = height ovb) as EDy by (apply (Dy_ok _ Hr)).
  unfold rect_ok, int_range in Hr. simpl in Hr.
  set (HE := tspl.HeaderEnd h) in *. set (rb := tspl.RowBytes h) in *.
  set (W := tspl.Width h) in *. set (Ht := tspl.Height h) in *.
  set (ovW := width ovb) in *. set (ovH := height ovb) in *.
  set (X0 := MinX (tspl.RectRef ov)) in *. set (Y0 := MinY (tspl.RectRef ov)) in *.
  assert (ovW = MaxX (tspl.RectRef ov) - X0) as EW by reflexivity.
  assert (ovH = MaxY (tspl.RectRef ov) - Y0) as EH by reflexivity.
  assert (0 < rb) as Hrb by lia.
  assert (0 <= rb * Ht) as Hrbh by nia.
  assert (Ht < 2 ^ 62) as HH62 by nia.
  unfold tspl.OverlayBinary.
  destruct (Z.ltb_spec xOff 0); [lia|]. destruct (Z.ltb_spec yOff 0); [lia|]. cbn [orb].
  destruct (Z.eqb_spec (tspl.slen base) 0); [lia|].
  unfold tspl.mbind at 1.
  change (match baseHeader with
          | Some bh => Ok bh
          | None => tspl.ParseBitmapHeader (tspl.load st base)
          end) with (effective_header st baseHeader base).
  rewrite Heff. fold HE rb W Ht. rewrite EDx, EDy. fold X0 Y0.
  assert (rb *i Ht = rb * Ht) as -> by (unwrap; reflexivity).
  assert (HE +i rb * Ht = HE + rb * Ht) as -> by (unwrap; reflexivity).
  destruct (Z.ltb_spec (tspl.slen base) (HE + rb * Ht)); [lia|].
  destruct (Z.leb_spec ovW 0); [lia|]. destruct (Z.leb_spec ovH 0); [lia|]. cbn [orb].
  assert (xOff +i ovW = xOff + ovW) as -> by (unwrap; reflexivity).
  assert (yOff +i ovH = yOff + ovH) as -> by (unwrap; reflexivity).
  destruct (Z.ltb_spec W (xOff + ovW)); [lia|].
  destruct (Z.ltb_spec Ht (yOff + ovH)); [lia|]. cbn [orb].
  unfold tspl.mbind at 1. unfold tspl.clone at 1.
  set (l := fresh (dom st)).
  set (nb := tspl.s_len base).
  set (res := {| tspl.s_arr := l; tspl.s_off := 0%nat; tspl.s_len := nb |}).
  set (base0 := tspl.load st base) in *.
  assert (l ∉ dom st) as Hl by apply is_fresh.
  assert (Z.of_nat nb = tspl.slen base) as Hn by reflexivity.
  assert (length base0 = nb) as Hb0 by exact Hbase.
  (* the overlay is an array of the store *)
  assert (tspl.s_arr (tspl.PixRef ov) ∈ dom st) as Hov.
  { apply elem_of_dom. destruct (st !! tspl.s_arr (tspl.PixRef ov)) as [a|] eqn:Ea; [eauto|].
    exfalso. destruct (wf_fit _ Hwf) as [_ Hf]; [lia | lia |].
    assert (len (bin_img.Pix ovb) = 0) as E0.
    { unfold ovb, tspl.deref, tspl.load. simpl. rewrite Ea. simpl.
      rewrite drop_nil, take_nil. reflexivity. }
    rewrite E0 in Hf. fold ovW ovH in Hf.
    pose proof (wf_stride _ Hwf).
    assert (0 < (ovW + 7) / 8).
    { apply Z.div_str_pos. lia. }
    nia. }
  assert (forall x y, 0 <= x < ovW -> 0 <= y < ovH ->
            0 <= (x + xOff) / 8 < rb /\ 0 <= (y + yOff) * rb /\
            (y + yOff) * rb + rb <= rb * Ht /\ 0 <= (x + xOff) mod 8 < 8) as Hgeo.
  { intros x y Hx Hy.
    split; [split; [apply Z.div_pos; lia | apply Z.div_lt_upper_bound; lia]|].
    split; [nia|]. split; [nia|]. apply Z.mod_pos_bound. lia. }
  set (J := fun (y x : Z) (s : tspl.store) =>
         keeps st s /\
         exists cur, s !! l = Some cur /\ length cur = nb /\
           (forall x' y', 0 <= x' < ovW -> 0 <= y' < ovH -> before y x y' x' ->
              getbit cur (patch_byte h xOff yOff x' y') (patch_bit xOff x') =
              pixel ovb (x' + X0) (y' + Y0)) /\
           (forall i k, 0 <= i -> 0 <= k ->
              (forall x' y', 0 <= x' < ovW -> 0 <= y' < ovH -> before y x y' x' ->
                             ~ (i = patch_byte h xOff yOff x' y' /\ k = patch_bit xOff x')) ->
              getbit cur i k = getbit base0 i k)).
  destruct (mfor_ok (fun y s => J y 0 s)
     (fun y =>
        tspl.mfor 0 ovW (fun x =>
          tspl.mbind
            (fun st => (st, bin_img.IsWhite (tspl.deref st ov) (x +i X0) (y +i Y0)))
            (fun white =>
               tspl.setBitmapBit_at res HE rb (x +i xOff) (y +i yOff)
                 (if white then 1 else 0))))
     0 ovH (<[l := base0]> st)) as (st' & E & Hk & cur & Hcur & Hlc & Hdone & Hrest).
  - lia.
  - split; [apply keeps_insert_fresh; [apply keeps_refl | exact Hl]|].
    exists base0. split; [apply lookup_insert_eq|]. split; [exact Hb0|].
    split; [intros x' y' ? ? Hb; unfold before in Hb; lia | reflexivity].
  - intros y t Hy Ht0.
    destruct (mfor_ok (fun x s => J y x s)
       (fun x =>
          tspl.mbind
            (fun st => (st, bin_img.IsWhite (tspl.deref st ov) (x +i X0) (y +i Y0)))
            (fun white =>
               tspl.setBitmapBit_at res HE rb (x +i xOff) (y +i yOff)
                 (if white then 1 else 0)))
       0 ovW t) as (t' & E' & HJ'); [lia | exact Ht0 | |].
    + intros x u Hx (Hku & c & Hc & Hlc & Hd & Hre).
      destruct (Hgeo x y Hx Hy) as (Hq & Hy1 & Hy2 & Hm).
      unfold tspl.mbind. rewrite (deref_keeps st u ov Hku Hov). fold ovb.
      assert (x +i X0 = x + X0) as -> by (unwrap; reflexivity).
      assert (y +i Y0 = y + Y0) as -> by (unwrap; reflexivity).
      assert (x +i xOff = x + xOff) as -> by (unwrap; reflexivity).
      assert (y +i yOff = y + yOff) as -> by (unwrap; reflexivity).
      unfold bin_img.IsWhite.
      rewrite bit_inside by (auto; unfold inside; simpl; fold X0 Y0; lia).
      set (v := pixel ovb (x + X0) (y + Y0)).
      unfold tspl.setBitmapBit_at. unfold res. rewrite (load_whole u l nb c Hc Hlc).
      assert (len c = tspl.slen base) as Hlenc by (unfold len; lia).
      rewrite setBitmapBit_ok; [| lia | unfold int_range; lia | unfold int_range; lia
                                | lia | lia].
      rewrite (save_whole u l nb c _ Hc Hlc).
      assert (negb ((if v then 1 else 0) =? 0) = v) as -> by (destruct v; reflexivity).
      fold (patch_byte h xOff yOff x y). fold (patch_bit xOff x).
      eexists. split; [reflexivity|].
      split; [apply keeps_insert_fresh; assumption|].
      exists (put_bit c (patch_byte h xOff yOff x y) (patch_bit xOff x) v).
      split; [apply lookup_insert_eq|]. split; [rewrite length_put_bit; exact Hlc|].
      assert (0 <= patch_byte h xOff yOff x y < len c) as Hpb
        by (unfold patch_byte; fold HE rb; lia).
      assert (0 <= patch_bit xOff x) as Hpk by (unfold patch_bit; lia).
      split.
      * intros x' y' Hx' Hy' Hb.
        destruct (Hgeo x' y' Hx' Hy') as (Hq' & Hy1' & _ & Hm').
        rewrite getbit_put_bit;
          [| exact Hpb | exact Hpk | unfold patch_byte; fold HE rb; lia
           | unfold patch_bit; lia].
        destruct (Z.eqb_spec (patch_byte h xOff yOff x' y') (patch_byte h xOff yOff x y))
          as [E1 | N1]; cbn [andb].
        -- destruct (Z.eqb_spec (patch_bit xOff x') (patch_bit xOff x)) as [E2 | N2].
           ++ unfold patch_byte, patch_bit in E1, E2. fold HE rb in E1.
              destruct (grid_inj W rb (x' + xOff) (y' + yOff) (x + xOff) (y + yOff))
                as [Ex Ey]; try lia.
              assert (x' = x) as -> by lia. assert (y' = y) as -> by lia. reflexivity.
           ++ apply Hd; auto.
              destruct (Z.eq_dec x' x) as [-> | Nx];
                [destruct (Z.eq_dec y' y) as [-> | Ny]|]; unfold before in *; try lia; try contradiction.
        -- apply Hd; auto.
           destruct (Z.eq_dec x' x) as [-> | Nx];
             [destruct (Z.eq_dec y' y) as [-> | Ny]|]; unfold before in *; try lia; try contradiction.
      * intros i k Hi Hk Hno.
        rewrite getbit_put_bit by (auto; lia).
        destruct ((i =? patch_byte h xOff yOff x y) && (k =? patch_bit xOff x)) eqn:Eik.
        -- exfalso. apply andb_true_iff in Eik. destruct Eik as [E1 E2].
           apply Z.eqb_eq in E1, E2.
           apply (Hno x y Hx Hy); [unfold before; lia | split; assumption].
        -- apply Hre; auto. intros x' y' Hx' Hy' Hb. apply Hno; auto.
           unfold before in *. lia.
    + exists t'. split; [exact E'|].
      destruct HJ' as (Hk' & c & Hc & Hlc & Hd & Hre).
      split; [exact Hk'|]. exists c. split; [exact Hc|]. split; [exact Hlc|]. split.
      * intros x' y' Hx' Hy' Hb. apply Hd; auto. unfold before in *. lia.
      * intros i k Hi Hk Hno. apply Hre; auto. intros x' y' Hx' Hy' Hb.
        apply Hno; auto. unfold before in *. lia.
  - exists st', res. cbv zeta. unfold tspl.mbind at 1. rewrite E. unfold tspl.mret.
    split; [reflexivity|]. split; [exact Hl|]. split; [reflexivity|].
    unfold res. rewrite (load_whole st' l nb cur Hcur Hlc).
    split; [congruence|]. split.
    + intros x y Hx Hy. apply Hdone; auto. unfold before. lia.
    + intros i k Hi Hk0 Hno. apply Hrest; auto.
Qed.

Lemma OverlayBinary_Ok_inv st baseHeader base ov xOff yOff h st' res :
  effective_header st baseHeader base = Ok h -> header_ok h ->
  rect_ok (tspl.RectRef ov) ->
  xOff + width (tspl.deref st ov) < 2 ^ 63 ->
  yOff + height (tspl.deref st ov) < 2 ^ 63 ->
  tspl.OverlayBinary baseHeader base (Some ov) xOff yOff st = (st', Ok res) ->
  0 <= xOff /\ 0 <= yOff /\ 0 < tspl.slen base /\
  tspl.HeaderEnd h + tspl.RowBytes h * tspl.Height h <= tspl.slen base /\
  0 < width (tspl.deref st ov) /\ 0 < height (tspl.deref st ov) /\
  xOff + width (tspl.deref st ov) <= tspl.Width h /\
  yOff + height (tspl.deref st ov) <= tspl.Height h.
Proof.
  intros Heff (HE0 & Hrb0 & HH0 & HWrb & HW63 & Hend) Hr Hxo Hyo.
  assert (Dx (tspl.RectRef ov) = width (tspl.deref st ov)) as EDx by (apply (Dx_ok _ Hr)).
  assert (Dy (tspl.RectRef ov) = height (tspl.deref st ov)) as EDy by (apply (Dy_ok _ Hr)).
  set (ovW := width (tspl.deref st ov)) in *. set (ovH := height (tspl.deref st ov)) in *.
  assert (0 <= tspl.RowBytes h * tspl.Height h) as Hrbh by nia.
  unfold tspl.OverlayBinary.
  destruct (Z.ltb_spec xOff 0); [discriminate|].
  destruct (Z.ltb_spec yOff 0); [discriminate|]. cbn [orb].
  destruct (Z.eqb_spec (tspl.slen base) 0); [discriminate|].
  unfold tspl.mbind at 1.
  change (match baseHeader with
          | Some bh => Ok bh
          | None => tspl.ParseBitmapHeader (tspl.load st base)
          end) with (effective_header st baseHeader base).
  rewrite Heff. cbv zeta. rewrite EDx, EDy.
  assert (tspl.RowBytes h *i tspl.Height h = tspl.RowBytes h * tspl.Height h) as ->
    by (unwrap; reflexivity).
  assert (tspl.HeaderEnd h +i tspl.RowBytes h * tspl.Height h =
          tspl.HeaderEnd h + tspl.RowBytes h * tspl.Height h) as ->
    by (unwrap; reflexivity).
  destruct (Z.ltb_spec (tspl.slen base)
              (tspl.HeaderEnd h + tspl.RowBytes h * tspl.Height h)); [discriminate|].
  destruct (Z.leb_spec ovW 0); [discriminate|].
  destruct (Z.leb_spec ovH 0); [discriminate|]. cbn [orb].
  assert (xOff +i ovW = xOff + ovW) as -> by (unwrap; reflexivity).
  assert (yOff +i ovH = yOff + ovH) as -> by (unwrap; reflexivity).
  destruct (Z.ltb_spec (tspl.Width h) (xOff + ovW)); [discriminate|].
  destruct (Z.ltb_spec (tspl.Height h) (yOff + ovH)); [discriminate|].
  intros _. unfold tspl.slen in *. lia.
Qed.

(** The bytes before the payload and after it are those of the base. *)
Lemma patched_outside base0 cur ovb h xOff yOff i :
  patched base0 cur ovb h xOff yOff ->
  0 <= tspl.HeaderEnd h -> 0 < tspl.RowBytes h -> 0 <= tspl.Height h ->
  0 <= xOff -> 0 <= yOff ->
  xOff + width ovb <= 8 * tspl.RowBytes h -> yOff + height ovb <= tspl.Height h ->
  0 <= i < tspl.HeaderEnd h \/
  tspl.HeaderEnd h + tspl.RowBytes h * tspl.Height h <= i ->
  byte_at cur i = byte_at base0 i.
Proof.
  intros (Hlen & _ & Hrest) HE Hrb HH Hx Hy Hxw Hyh Hi.
  apply Z.bits_inj'. intros k Hk. apply (Hrest i k); [destruct Hi; nia | exact Hk |].
  intros x y Hx' Hy' [E _]. unfold patch_byte in E.
  assert (0 <= (x + xOff) / 8 < tspl.RowBytes h).
  { split; [apply Z.div_pos; lia | apply Z.div_lt_upper_bound; lia]. }
  nia.
Qed.

(** C6.  Whatever [OverlayBinary] returns, the slice [base] reads the same
    bytes afterwards as before, and so does the overlay's [Pix].  When it
    returns a buffer, that buffer is a new array: every pixel of the
    overlay sits at its bit of the payload, shifted by the offset; every
    other bit is the bit of [base]; so the bytes before the payload and
    from its end on are those of [base]. *)
Theorem OverlayBinary_frame st baseHeader base overlay xOff yOff :
  let out := tspl.OverlayBinary baseHeader base overlay xOff yOff st in
  (slice_ok st base -> tspl.load (fst out) base = tspl.load st base) /\
  (forall ov, overlay = Some ov -> tspl.s_arr (tspl.PixRef ov) ∈ dom st ->
     tspl.deref (fst out) ov = tspl.deref st ov) /\
  (forall ov h res,
     overlay = Some ov -> snd out = Ok res ->
     effective_header st baseHeader base = Ok h -> header_ok h ->
     slice_ok st base -> tspl.slen base < 2 ^ 62 ->
     wf (tspl.deref st ov) ->
     xOff + width (tspl.deref st ov) < 2 ^ 63 ->
     yOff + height (tspl.deref st ov) < 2 ^ 63 ->
     (tspl.s_arr res ∉ dom st) /\
     patched (tspl.load st base) (tspl.load (fst out) res) (tspl.deref st ov)
       h xOff yOff /\
     (forall i,
        0 <= i < tspl.HeaderEnd h \/
        tspl.HeaderEnd h + tspl.RowBytes h * tspl.Height h <= i ->
        byte_at (tspl.load (fst out) res) i = byte_at (tspl.load st base) i)).
Proof.
  intros out. pose proof (OverlayBinary_keeps baseHeader base overlay xOff yOff st) as Hk.
  fold out in Hk. split; [|split].
  - intros Hs. unfold slice_ok in Hs.
    destruct (tspl.s_len base) as [|n] eqn:En.
    + unfold tspl.load. rewrite En. reflexivity.
    + assert (tspl.s_arr base ∈ dom st) as Hin.
      { apply elem_of_dom. destruct (st !! tspl.s_arr base) as [a|] eqn:Ea; [eauto|].
        exfalso. unfold tspl.load in Hs. rewrite Ea in Hs. simpl in Hs.
        rewrite drop_nil, take_nil in Hs. simpl in Hs. discriminate. }
      unfold tspl.load. rewrite (Hk _ Hin). reflexivity.
  - intros ov _ Hin. apply deref_keeps; assumption.
  - intros ov h res -> Hok Heff Hh Hs Hlen Hwf Hxo Hyo.
    destruct (tspl.OverlayBinary baseHeader base (Some ov) xOff yOff st)
      as [st1 r] eqn:E.
    unfold out in *. cbn [fst snd] in *. subst r.
    destruct (OverlayBinary_Ok_inv _ _ _ _ _ _ _ _ _ Heff Hh (wf_rect _ Hwf) Hxo Hyo E)
      as (Hx0 & Hy0 & Hb0 & Hfit & Hw & Hht & Hxw & Hyh).
    destruct (OverlayBinary_spec st baseHeader base ov xOff yOff h Heff Hh Hs
                (conj Hb0 Hlen) Hfit Hwf Hw Hht Hx0 Hy0 Hxw Hyh)
      as (st2 & res2 & E2 & Hfresh & Hsl & Hp).
    rewrite E in E2. injection E2 as -> ->.
    split; [exact Hfresh|]. split; [exact Hp|].
    intros i Hi. destruct Hh as (HE0 & Hrb0 & HH0 & HWrb & HW63 & Hend).
    apply (patched_outside _ _ _ h xOff yOff i Hp); try lia.
Qed.

(** An example store: a 8x2 bitmap command with one byte after the payload,
    and a 2x1 overlay whose pixels are on, off. *)
Definition label_store : tspl.store :=
  <[0%nat := bytes "BITMAP 0,0,1,2,1," ++ [0; 255; 10]]> (<[1%nat := [128]]> ∅).

Definition label_base : tspl.slice :=
  {| tspl.s_arr := 0; tspl.s_off := 0; tspl.s_len := 20 |}.

Definition dots_2x1 : tspl.BinaryRef :=
  {| tspl.PixRef := {| tspl.s_arr := 1; tspl.s_off := 0; tspl.s_len := 1 |};
     tspl.StrideRef := 1;
     tspl.RectRef := {| MinX := 0; MinY := 0; MaxX := 2; MaxY := 1 |} |}.

Definition label_header : tspl.BitmapHeader :=
  {| tspl.RowBytes := 1; tspl.Width := 8; tspl.Height := 2; tspl.HeaderEnd := 17 |}.

Lemma dots_2x1_wf : wf (tspl.deref label_store dots_2x1).
Proof.
  replace (tspl.deref label_store dots_2x1)
    with {| bin_img.Pix := [128]; bin_img.Stride := 1;
            bin_img.Rect := {| MinX := 0; MinY := 0; MaxX := 2; MaxY := 1 |} |}
    by (vm_compute; reflexivity).
  wf_by_computation.
Defined.

Lemma label_header_ok : header_ok label_header.
Proof. unfold header_ok. simpl. lia. Defined.

Lemma OverlayBinary_frame_witness :
  let out := tspl.OverlayBinary None label_base (Some dots_2x1) 3 1 label_store in
  tspl.load (fst out) label_base = tspl.load label_store label_base /\
  tspl.deref (fst out) dots_2x1 = tspl.deref label_store dots_2x1 /\
  snd out = Ok {| tspl.s_arr := 2; tspl.s_off := 0; tspl.s_len := 20 |} /\
  forall i,
    0 <= i < 17 \/ 19 <= i ->
    byte_at (tspl.load (fst out) {| tspl.s_arr := 2; tspl.s_off := 0; tspl.s_len := 20 |}) i =
    byte_at (tspl.load label_store label_base) i.
Proof.
  intros out.
  destruct (OverlayBinary_frame label_store None label_base (Some dots_2x1) 3 1)
    as (H1 & H2 & H3).
  fold out in H1, H2, H3.
  assert (snd out = Ok {| tspl.s_arr := 2; tspl.s_off := 0; tspl.s_len := 20 |}) as Hout
    by (vm_compute; reflexivity).
  split; [apply H1; vm_compute; reflexivity|].
  split; [apply (H2 dots_2x1 eq_refl); apply elem_of_dom; exists [128];
          vm_compute; reflexivity|].
  split; [exact Hout|].
  destruct (H3 dots_2x1 label_header _ eq_refl Hout) as (_ & _ & H).
  - vm_compute. reflexivity.
  - exact label_header_ok.
  - vm_compute. reflexivity.
  - vm_compute. reflexivity.
  - exact dots_2x1_wf.
  - vm_compute. reflexivity.
  - vm_compute. reflexivity.
  - exact H.
Defined.

(** C7.  The checks of [OverlayBinary], in the order the code makes them:
    no overlay; a negative offset; an empty base; (when no header is
    passed, the error of parsing one from [base];) a base shorter than
    header end + row bytes * height; an overlay without width or height;
    an overlay that does not fit at the offset.  Each has an error of its
    own, and with none of them the call returns a buffer.  The header is
    taken to be sound ([header_ok]) and the overlay well formed. *)
Theorem OverlayBinary_validation st baseHeader base xOff yOff :
  snd (tspl.OverlayBinary baseHeader base None xOff yOff st) = Err EOverlayNil /\
  forall ov,
    let out := snd (tspl.OverlayBinary baseHeader base (Some ov) xOff yOff st) in
    let ovW := width (tspl.deref st ov) in
    let ovH := height (tspl.deref st ov) in
    (xOff < 0 \/ yOff < 0 -> out = Err ENegativeOffset) /\
    (0 <= xOff -> 0 <= yOff ->
     (tspl.slen base = 0 -> out = Err EBaseEmpty) /\
     (tspl.slen base <> 0 ->
      (forall e, effective_header st baseHeader base = Err e -> out = Err e) /\
      (forall h,
         effective_header st baseHeader base = Ok h -> header_ok h ->
         rect_ok (tspl.RectRef ov) ->
         let need := tspl.HeaderEnd h + tspl.RowBytes h * tspl.Height h in
         (tspl.slen base < need ->
          out = Err (EBaseTooShort need (tspl.slen base))) /\
         (need <= tspl.slen base ->
          (ovW <= 0 \/ ovH <= 0 -> out = Err (EInvalidOverlaySize ovW ovH)) /\
          (0 < ovW -> 0 < ovH -> xOff + ovW < 2 ^ 63 -> yOff + ovH < 2 ^ 63 ->
           (tspl.Width h < xOff + ovW \/ tspl.Height h < yOff + ovH ->
            out = Err (EOverlayOutOfBounds (tspl.Width h) (tspl.Height h)
                         ovW ovH xOff yOff)) /\
           (xOff + ovW <= tspl.Width h -> yOff + ovH <= tspl.Height h ->
            slice_ok st base -> tspl.slen base < 2 ^ 62 ->
            wf (tspl.deref st ov) ->
            exists res, out = Ok res)))))).
Proof.
  split; [reflexivity|]. intros ov out ovW ovH.
  split.
  { intros Hneg. unfold out, tspl.OverlayBinary.
    assert ((xOff <? 0) || (yOff <? 0) = true) as ->; [|reflexivity].
    apply orb_true_iff. destruct Hneg; [left | right]; apply Z.ltb_lt; assumption. }
  intros Hx0 Hy0.
  assert ((xOff <? 0) || (yOff <? 0) = false) as Eoff.
  { apply orb_false_iff. split; apply Z.ltb_ge; assumption. }
  split.
  { intros Hz. unfold out, tspl.OverlayBinary. rewrite Eoff.
    apply Z.eqb_eq in Hz. rewrite Hz. reflexivity. }
  intros Hnz. apply Z.eqb_neq in Hnz.
  assert (forall r, effective_header st baseHeader base = r ->
            tspl.OverlayBinary baseHeader base (Some ov) xOff yOff st =
            tspl.mbind (fun s => (s, r))
              (fun baseHeader =>
                 let baseRowBytes := tspl.RowBytes baseHeader in
                 let baseW := tspl.Width baseHeader in
                 let baseH := tspl.Height baseHeader in
                 let baseHeaderEnd := tspl.HeaderEnd baseHeader in
                 let baseBitmapLen := baseRowBytes *i baseH in
                 if tspl.slen base <? baseHeaderEnd +i baseBitmapLen
                 then tspl.lift (Err (EBaseTooShort (baseHeaderEnd +i baseBitmapLen)
                                        (tspl.slen base)))
                 else
                   let b := tspl.RectRef ov in
                   let ovW := Dx b in
                   let ovH := Dy b in
                   if (ovW <=? 0) || (ovH <=? 0)
                   then tspl.lift (Err (EInvalidOverlaySize ovW ovH))
                   else if (baseW <? xOff +i ovW) || (baseH <? yOff +i ovH)
                   then tspl.lift (Err (EOverlayOutOfBounds baseW baseH ovW ovH xOff yOff))
                   else
                     tspl.mbind (tspl.clone base) (fun res =>
                     tspl.mbind (tspl.mfor 0 ovH (fun y =>
                       tspl.mfor 0 ovW (fun x =>
                         tspl.mbind
                           (fun st => (st, bin_img.IsWhite (tspl.deref st ov)
                                             (x +i MinX b) (y +i MinY b)))
                           (fun white =>
                              let bit := if white then 1 else 0 in
                              tspl.setBitmapBit_at res baseHeaderEnd baseRowBytes
                                (x +i xOff) (y +i yOff) bit)))) (fun _ =>
                     tspl.mret res))) st) as Hstep.
  { intros r <-. unfold tspl.OverlayBinary. rewrite Eoff, Hnz.
    unfold tspl.mbind at 1 3. reflexivity. }
  split.
  { intros e He. unfold out. rewrite (Hstep _ He). reflexivity. }
  intros h Heff Hh Hr need.
  pose proof Hh as (HE0 & Hrb0 & HH0 & HWrb & HW63 & Hend).
  assert (Dx (tspl.RectRef ov) = ovW) as EDx by (apply (Dx_ok _ Hr)).
  assert (Dy (tspl.RectRef ov) = ovH) as EDy by (apply (Dy_ok _ Hr)).
  assert (0 <= tspl.RowBytes h * tspl.Height h) as Hrbh by nia.
  assert (tspl.HeaderEnd h +i tspl.RowBytes h *i tspl.Height h = need) as Eneed.
  { unfold need.
    assert (tspl.RowBytes h *i tspl.Height h = tspl.RowBytes h * tspl.Height h) as ->
      by (unwrap; reflexivity).
    unwrap. reflexivity. }
  unfold out.
  remember (tspl.OverlayBinary baseHeader base (Some ov) xOff yOff st) as o eqn:Eo.
  pose proof (Hstep _ Heff) as Eo1. unfold tspl.mbind at 1 in Eo1. cbv zeta in Eo1.
  rewrite Eneed, EDx, EDy in Eo1.
  split.
  { intros Hshort. rewrite Eo1.
    destruct (Z.ltb_spec (tspl.slen base) need); [reflexivity | lia]. }
  intros Hfit.
  destruct (Z.ltb_spec (tspl.slen base) need) as [|_] in Eo1; [lia|].
  split.
  { intros Hsz. rewrite Eo1.
    assert ((ovW <=? 0) || (ovH <=? 0) = true) as ->; [|reflexivity].
    apply orb_true_iff. destruct Hsz; [left | right]; apply Z.leb_le; assumption. }
  intros Hw Hht Hxo Hyo.
  split.
  { intros Hout. rewrite Eo1.
    assert ((ovW <=? 0) || (ovH <=? 0) = false) as ->.
    { apply orb_false_iff. split; apply Z.leb_gt; assumption. }
    assert (xOff +i ovW = xOff + ovW) as -> by (unwrap; reflexivity).
    assert (yOff +i ovH = yOff + ovH) as -> by (unwrap; reflexivity).
    assert ((tspl.Width h <? xOff + ovW) || (tspl.Height h <? yOff + ovH) = true) as ->;
      [|reflexivity].
    apply orb_true_iff. destruct Hout; [left | right]; apply Z.ltb_lt; assumption. }
  intros Hxw Hyh Hs Hlen Hwf.
  destruct (OverlayBinary_spec st baseHeader base ov xOff yOff h Heff Hh Hs)
    as (st' & res & E & _); try assumption.
  { unfold tspl.slen in *. apply Z.eqb_neq in Hnz. lia. }
  exists res. rewrite Eo, E. reflexivity.
Qed.

Lemma OverlayBinary_validation_witness :
  snd (tspl.OverlayBinary None label_base (Some dots_2x1) 7 0 label_store) =
    Err (EOverlayOutOfBounds 8 2 2 1 7 0) /\
  snd (tspl.OverlayBinary None
         {| tspl.s_arr := 0; tspl.s_off := 0; tspl.s_len := 18 |}
         (Some dots_2x1) 0 0 label_store) = Err (EBaseTooShort 19 18) /\
  exists res,
    snd (tspl.OverlayBinary None label_base (Some dots_2x1) 3 1 label_store) = Ok res.
Proof.
  split; [|split].
  - destruct (OverlayBinary_validation label_store None label_base 7 0) as [_ H].
    destruct (H dots_2x1) as [_ H1]. destruct H1 as [_ H2]; [lia | lia |].
    destruct H2 as [_ H3]; [vm_compute; discriminate|].
    destruct (H3 label_header) as [_ H4];
      [vm_compute; reflexivity | exact label_header_ok
       | exact (wf_rect _ dots_2x1_wf) |].
    destruct H4 as [_ H5]; [vm_compute; discriminate|].
    destruct H5 as [H6 _]; [reflexivity | reflexivity | reflexivity | reflexivity |].
    apply H6. left. vm_compute. reflexivity.
  - destruct (OverlayBinary_validation label_store None
                {| tspl.s_arr := 0; tspl.s_off := 0; tspl.s_len := 18 |} 0 0) as [_ H].
    destruct (H dots_2x1) as [_ H1]. destruct H1 as [_ H2]; [lia | lia |].
    destruct H2 as [_ H3]; [vm_compute; discriminate|].
    destruct (H3 label_header) as [H4 _];
      [vm_compute; reflexivity | exact label_header_ok
       | exact (wf_rect _ dots_2x1_wf) |].
    apply H4. vm_compute. reflexivity.
  - destruct (OverlayBinary_validation label_store None label_base 3 1) as [_ H].
    destruct (H dots_2x1) as [_ H1]. destruct H1 as [_ H2]; [lia | lia |].
    destruct H2 as [_ H3]; [vm_compute; discriminate|].
    destruct (H3 label_header) as [_ H4];
      [vm_compute; reflexivity | exact label_header_ok
       | exact (wf_rect _ dots_2x1_wf) |].
    destruct H4 as [_ H5]; [vm_compute; discriminate|].
    destruct H5 as [_ H6]; [reflexivity | reflexivity | reflexivity | reflexivity |].
    apply H6.
    + vm_compute. discriminate.
    + vm_compute. discriminate.
    + vm_compute. reflexivity.
    + vm_compute. reflexivity.
    + exact dots_2x1_wf.
Defined.

(** ** [Bytes2Image] on a buffer that ends early *)

Lemma ParseBitmapHeader_width body h :
  tspl.ParseBitmapHeader body = Ok h -> tspl.Width h = tspl.RowBytes h *i 8.
Proof.
  unfold tspl.ParseBitmapHeader.
  destruct (tspl.HasPrefix body (bytes "BITMAP")); [|discriminate].
  cbv zeta. destruct (tspl.fifth_comma body 0 0 =? -1); [discriminate|].
  destruct (fmt.Sscanf_BITMAP body) as [[[[[x y] rb] ht] mode] rest | e]; [|discriminate].
  intros [= <-]. reflexivity.
Qed.

(** C8.  A buffer that stops right after its header, with no byte of the
    payload, makes [Bytes2Image] fault: the slice [body[bodyEnd+1:]] starts
    past the end.  With at least one byte after the header, a payload that
    is cut short decodes: the pixels whose byte is missing are off, the
    others are their bits, and nothing is left as tail. *)
Theorem Bytes2Image_truncated :
  tspl.Bytes2Image (bytes "BITMAP 0,0,1,1,1,") = Panic /\
  forall body hdr,
    tspl.ParseBitmapHeader body = Ok hdr ->
    0 < tspl.RowBytes hdr -> 0 < tspl.Height hdr ->
    tspl.RowBytes hdr * tspl.Height hdr <= maxAlloc ->
    tspl.HeaderEnd hdr < len body -> len body < 2 ^ 62 ->
    len body < tspl.HeaderEnd hdr + tspl.RowBytes hdr * tspl.Height hdr ->
    exists im,
      tspl.Bytes2Image body = Ok im /\ tspl.Tail im = [] /\
      forall x y, 0 <= x < tspl.Width hdr -> 0 <= y < tspl.Height hdr ->
        pixel (tspl.Bitmap im) x y =
        decoded body (tspl.HeaderEnd hdr) (tspl.RowBytes hdr) x y /\
        (len body <= tspl.HeaderEnd hdr + y * tspl.RowBytes hdr + x / 8 ->
         pixel (tspl.Bitmap im) x y = false).
Proof.
  split; [vm_compute; reflexivity|].
  intros body hdr Hp Hrb Hh Halloc Hlo Hl62 Hhi.
  assert (tspl.Width hdr = 8 * tspl.RowBytes hdr) as HW.
  { rewrite (ParseBitmapHeader_width _ _ Hp).
    unfold maxAlloc in Halloc. assert (tspl.RowBytes hdr <= 2 ^ 48) by nia.
    unwrap. lia. }
  assert (0 <= tspl.HeaderEnd hdr) as HE0.
  { destruct (ParseBitmapHeader_end body hdr) as (pre & rest & _ & _ & E);
      [lia | exact Hp |].
    pose proof (len_nonneg pre). lia. }
  destruct (Bytes2Image_spec body hdr Hp Hrb HW Hh Halloc (conj HE0 Hlo) Hl62)
    as (im & E & _ & Ht & _ & _ & Hpix).
  exists im. split; [exact E|]. split.
  - rewrite Ht. rewrite Z.min_l by lia. apply drop_ge. unfold len. lia.
  - intros x y Hx Hy. split; [apply Hpix; assumption|].
    intros Hmiss. rewrite (Hpix x y Hx Hy). unfold decoded.
    destruct (Z.ltb_spec (tspl.HeaderEnd hdr + y * tspl.RowBytes hdr + x / 8) (len body));
      [lia | reflexivity].
Qed.

Lemma Bytes2Image_truncated_witness :
  exists im,
    tspl.Bytes2Image (bytes "BITMAP 0,0,1,2,1," ++ [129]) = Ok im /\
    tspl.Tail im = [] /\
    forall x y, 0 <= x < 8 -> 0 <= y < 2 ->
      pixel (tspl.Bitmap im) x y =
      decoded (bytes "BITMAP 0,0,1,2,1," ++ [129]) 17 1 x y /\
      (len (bytes "BITMAP 0,0,1,2,1," ++ [129]) <= 17 + y * 1 + x / 8 ->
       pixel (tspl.Bitmap im) x y = false).
Proof.
  destruct Bytes2Image_truncated as [_ H].
  apply (H (bytes "BITMAP 0,0,1,2,1," ++ [129])
           {| tspl.RowBytes := 1; tspl.Width := 8; tspl.Height := 2;
              tspl.HeaderEnd := 17 |}).
  - vm_compute. reflexivity.
  - reflexivity.
  - reflexivity.
  - vm_compute. discriminate.
  - vm_compute. reflexivity.
  - vm_compute. reflexivity.
  - vm_compute. reflexivity.
Defined.

(** ** Encoding an image that is not a [Binary] *)

Lemma FromGrayThreshold_spec src t :
  let w := Dx (image.Bounds src) in
  let h := Dy (image.Bounds src) in
  0 < w -> w mod 8 = 0 -> 0 < h -> w / 8 * h <= maxAlloc ->
  exists b,
    bin_img.FromGrayThreshold src t = Ok b /\ wf b /\ same_shape (blank w h) b /\
    forall x y, 0 <= x < w -> 0 <= y < h ->
      pixel b x y = bin_img.threshold_on (image.At src x y) t.
Proof.
  intros w h Hw Hw8 Hh Hal.
  destruct (NewBinary_ok w h Hw Hw8 Hh Hal) as (EN & Hwf & Hrows).
  destruct (Binary_FromGrayThreshold_spec (blank w h) src t Hwf Hrows)
    as (b & E & Hwfb & Hsh & Hbit).
  exists b. unfold bin_img.FromGrayThreshold. fold w h. rewrite EN. cbn [bind].
  split; [exact E|]. split; [exact Hwfb|]. split; [exact Hsh|].
  intros x y Hx Hy.
  assert (inside (blank w h) x y) as Hin by (unfold inside; simpl; lia).
  assert (inside b x y) as Hinb.
  { destruct Hsh as (Er & _). unfold inside. rewrite Er. exact Hin. }
  pose proof (Hbit x y Hin) as Hb. rewrite (bit_inside b x y Hwfb Hinb) in Hb.
  injection Hb as Hb. exact Hb.
Qed.

(** C10.  [Image2Bytes] and [Encode] of a source that is not a [Binary] are
    those of [FromGrayThreshold] of it at 151.  For a source whose size
    [NewBinary] accepts, every bit of the payload is off where the source
    pixel has alpha 0 and otherwise on exactly when its 8-bit luma is at
    least 151.  A [Binary] is encoded from its own pixels. *)
Theorem Image2Bytes_threshold_151 :
  (forall src,
     tspl.Image2Bytes (tspl.NotBinary src) =
     (b <- bin_img.FromGrayThreshold src 151 ;; tspl.Image2Bytes (tspl.IsBinary b))) /\
  (forall size_text ew eh dpm src opt,
     tspl.Encode size_text ew eh dpm (tspl.NotBinary src) opt =
     (b <- bin_img.FromGrayThreshold src 151 ;;
      tspl.Encode size_text ew eh dpm (tspl.IsBinary b) opt)) /\
  (forall src,
     let w := Dx (image.Bounds src) in
     let h := Dy (image.Bounds src) in
     0 < w -> w mod 8 = 0 -> 0 < h -> w / 8 * h + 57 <= maxAlloc ->
     exists payload,
       tspl.Image2Bytes (tspl.NotBinary src) =
       Ok (len (tspl.bitmap_header (w / 8) h),
           tspl.bitmap_header (w / 8) h ++ payload) /\
       len payload = w / 8 * h /\
       forall x y, 0 <= x < w -> 0 <= y < h ->
         let c := image.At src x y in
         getbit payload (y * (w / 8) + x / 8) (7 - x mod 8) =
         (if A c =? 0 then false else 151 <=? bin_img.luma8 c)) /\
  (forall b,
     encodable b ->
     exists payload,
       tspl.Image2Bytes (tspl.IsBinary b) =
       Ok (len (header_of b), header_of b ++ payload) /\
       forall x y, 0 <= x < width b -> 0 <= y < height b ->
         getbit payload (y * row_bytes b + x / 8) (7 - x mod 8) = pixel b x y).
Proof.
  assert (forall src,
            tspl.Image2Bytes (tspl.NotBinary src) =
            (b <- bin_img.FromGrayThreshold src 151 ;;
             tspl.Image2Bytes (tspl.IsBinary b))) as H1.
  { intros src. unfold tspl.Image2Bytes.
    destruct (bin_img.FromGrayThreshold src 151); reflexivity. }
  assert (forall b,
            encodable b ->
            exists payload,
              tspl.Image2Bytes (tspl.IsBinary b) =
              Ok (len (header_of b), header_of b ++ payload) /\
              len payload = row_bytes b * height b /\
              forall x y, 0 <= x < width b -> 0 <= y < height b ->
                getbit payload (y * row_bytes b + x / 8) (7 - x mod 8) = pixel b x y)
    as H4.
  { intros b Hb. pose proof Hb as (Hwf & _).
    destruct (Image2Bytes_spec b Hb) as (payload & E & Hl & Hbits).
    exists payload. split; [exact E|]. split; [exact Hl|]. intros x y Hx Hy.
    rewrite <- (Hbits x y Hx Hy).
    pose proof (len_nonneg (header_of b)).
    assert (0 <= y * row_bytes b + x / 8).
    { assert (0 <= x / 8) by (apply Z.div_pos; lia).
      assert (0 <= row_bytes b) by (unfold row_bytes; apply Z.div_pos; lia). nia. }
    unfold getbit, byte_at.
    replace (Z.to_nat (len (header_of b) + y * row_bytes b + x / 8))
      with (length (header_of b) + Z.to_nat (y * row_bytes b + x / 8))%nat
      by (unfold len in *; lia).
    rewrite lookup_app_r by lia.
    replace (length (header_of b) + Z.to_nat (y * row_bytes b + x / 8) -
             length (header_of b))%nat
      with (Z.to_nat (y * row_bytes b + x / 8)) by lia.
    reflexivity. }
  split; [exact H1|]. split; [|split].
  - intros size_text ew eh dpm src opt. unfold tspl.Encode. rewrite H1.
    destruct (bin_img.FromGrayThreshold src 151); reflexivity.
  - intros src w h Hw Hw8 Hh Hal.
    destruct (FromGrayThreshold_spec src 151) as (b & E & Hwf & (Er & Es & El) & Hpix);
      try assumption; [fold w h; lia|]. fold w h in Er, Hpix.
    assert (width b = w) as EW by (unfold width; rewrite Er; simpl; lia).
    assert (height b = h) as EH by (unfold height; rewrite Er; simpl; lia).
    assert (row_bytes b = w / 8) as ERB.
    { unfold row_bytes. rewrite EW.
      pose proof (Z.div_mod w 8 ltac:(lia)) as Hdm.
      replace (w + 7) with (w / 8 * 8 + 7) by lia.
      rewrite Z.div_add_l by lia. replace (7 / 8) with 0 by reflexivity. lia. }
    assert (header_of b = tspl.bitmap_header (w / 8) h) as EHd
      by (unfold header_of; rewrite ERB, EH; reflexivity).
    destruct (H4 b) as (payload & EI & Hl & Hbits).
    { split; [exact Hwf|]. rewrite Er. simpl. split; [reflexivity|].
      split; [reflexivity|]. rewrite EHd, ERB, EH.
      pose proof (bitmap_header_length (w / 8) h). lia. }
    exists payload. rewrite H1, E. cbn [bind]. rewrite EI, EHd.
    split; [reflexivity|]. split; [rewrite Hl, ERB, EH; reflexivity|].
    intros x y Hx Hy. cbv zeta. rewrite <- ERB. rewrite Hbits by lia.
    rewrite (Hpix x y Hx Hy). reflexivity.
  - intros b Hb. destruct (H4 b Hb) as (payload & E & _ & Hbits).
    exists payload. split; [exact E | exact Hbits].
Qed.

(** An 8x1 source: grey levels 0, 36, ..., 216 and a transparent pixel. *)
Lemma Image2Bytes_threshold_151_witness :
  exists payload,
    tspl.Image2Bytes (tspl.NotBinary grey_row) =
    Ok (len (tspl.bitmap_header (8 / 8) 1), tspl.bitmap_header (8 / 8) 1 ++ payload) /\
    len payload = 8 / 8 * 1 /\
    forall x y, 0 <= x < 8 -> 0 <= y < 1 ->
      let c := image.At grey_row x y in
      getbit payload (y * (8 / 8) + x / 8) (7 - x mod 8) =
      (if A c =? 0 then false else 151 <=? bin_img.luma8 c).
Proof.
  destruct Image2Bytes_threshold_151 as (_ & _ & H & _).
  apply (H grey_row).
  - reflexivity.
  - reflexivity.
  - reflexivity.
  - vm_compute. discriminate.
Defined.

(** * Further properties of package bin_img *)

(** ** [NewBinary] *)

(** [NewBinary] refuses a width or height that is not positive, then a
    width that is not a multiple of 8; otherwise (when the buffer can be
    allocated) it gives the image on [(0,0)-(w,h)] with [w/8] bytes a row,
    [w/8 * h] bytes in all, and every pixel off. *)
Theorem NewBinary_cases w h :
  (w <= 0 \/ h <= 0 -> bin_img.NewBinary w h = Err EInvalidDimensions) /\
  (0 < w -> 0 < h -> w mod 8 <> 0 ->
   bin_img.NewBinary w h = Err EWidthNotMultipleOf8) /\
  (0 < w -> 0 < h -> w mod 8 = 0 -> w / 8 * h <= maxAlloc ->
   exists b,
     bin_img.NewBinary w h = Ok b /\ wf b /\
     bin_img.Bounds b = {| MinX := 0; MinY := 0; MaxX := w; MaxY := h |} /\
     bin_img.Stride b = w / 8 /\ len (bin_img.Pix b) = w / 8 * h /\
     forall x y, 0 <= x < w -> 0 <= y < h ->
       bin_img.IsWhite b x y = Ok false /\ bin_img.IsBlack b x y = Ok true /\
       bin_img.At b x y = Ok (Gray 0)).
Proof.
  split; [|split].
  - intros Hneg. unfold bin_img.NewBinary.
    assert ((w <=? 0) || (h <=? 0) = true) as ->; [|reflexivity].
    apply orb_true_iff. destruct Hneg; [left | right]; apply Z.leb_le; assumption.
  - intros Hw Hh Hm. unfold bin_img.NewBinary.
    destruct (Z.leb_spec w 0); [lia|]. destruct (Z.leb_spec h 0); [lia|]. cbn [orb].
    rewrite Z.rem_mod_nonneg by lia.
    destruct (Z.eqb_spec (w mod 8) 0); [contradiction | reflexivity].
  - intros Hw Hh Hm Hal.
    destruct (NewBinary_ok w h Hw Hm Hh Hal) as (E & Hwf & _).
    exists (blank w h). split; [exact E|]. split; [exact Hwf|].
    split; [reflexivity|]. split; [reflexivity|]. split.
    + unfold len, blank. cbn [bin_img.Pix]. rewrite length_replicate.
      assert (0 <= w / 8) by (apply Z.div_pos; lia). nia.
    + intros x y Hx Hy.
      assert (inside (blank w h) x y) as Hin by (unfold inside; simpl; lia).
      unfold bin_img.IsWhite, bin_img.IsBlack, bin_img.At.
      rewrite (bit_inside _ _ _ Hwf Hin), blank_pixel. cbn [bind negb].
      apply In_inside in Hin. rewrite Hin. repeat split; reflexivity.
Qed.

Lemma NewBinary_cases_witness :
  bin_img.NewBinary 12 2 = Err EWidthNotMultipleOf8 /\
  exists b,
    bin_img.NewBinary 16 2 = Ok b /\ wf b /\
    bin_img.Bounds b = {| MinX := 0; MinY := 0; MaxX := 16; MaxY := 2 |} /\
    bin_img.Stride b = 16 / 8 /\ len (bin_img.Pix b) = 16 / 8 * 2 /\
    forall x y, 0 <= x < 16 -> 0 <= y < 2 ->
      bin_img.IsWhite b x y = Ok false /\ bin_img.IsBlack b x y = Ok true /\
      bin_img.At b x y = Ok (Gray 0).
Proof.
  split.
  - destruct (NewBinary_cases 12 2) as (_ & H & _).
    apply H; [lia | lia | vm_compute; discriminate].
  - destruct (NewBinary_cases 16 2) as (_ & _ & H).
    apply H; [lia | lia | reflexivity | vm_compute; discriminate].
Defined.

(** ** [SetOn], [SetOff] and [IsWhite] *)

(** Inside the rectangle of a well-formed image [SetOn] and [SetOff] do not
    fault; the pixel then reads on, respectively off, every other pixel of
    the rectangle reads as before, and the rectangle, the stride and the
    length of the buffer are kept. *)
Theorem SetOn_SetOff_read_back b x y :
  wf b -> inside b x y ->
  exists b1 b0,
    bin_img.SetOn b x y = Ok b1 /\ bin_img.SetOff b x y = Ok b0 /\
    wf b1 /\ wf b0 /\ same_shape b b1 /\ same_shape b b0 /\
    bin_img.IsWhite b1 x y = Ok true /\ bin_img.IsWhite b0 x y = Ok false /\
    forall x' y', inside b x' y' -> ~ (x' = x /\ y' = y) ->
      bin_img.IsWhite b1 x' y' = bin_img.IsWhite b x' y' /\
      bin_img.IsWhite b0 x' y' = bin_img.IsWhite b x' y'.
Proof.
  intros Hwf Hin.
  destruct (setBit_pixel b x y true Hwf Hin) as (b1 & E1 & Hwf1 & Hs1 & Hp1 & Ho1).
  destruct (setBit_pixel b x y false Hwf Hin) as (b0 & E0 & Hwf0 & Hs0 & Hp0 & Ho0).
  exists b1, b0. unfold bin_img.SetOn, bin_img.SetOff, bin_img.IsWhite.
  assert (forall b' x' y', same_shape b b' -> inside b x' y' -> inside b' x' y') as Hi.
  { intros b' x' y' (Er & _) H. unfold inside. rewrite Er. exact H. }
  split; [exact E1|]. split; [exact E0|]. split; [exact Hwf1|]. split; [exact Hwf0|].
  split; [exact Hs1|]. split; [exact Hs0|].
  split; [rewrite (bit_inside b1 x y Hwf1 (Hi _ _ _ Hs1 Hin)), Hp1; reflexivity|].
  split; [rewrite (bit_inside b0 x y Hwf0 (Hi _ _ _ Hs0 Hin)), Hp0; reflexivity|].
  intros x' y' H H0. split.
  - rewrite (bit_inside b1 x' y' Hwf1 (Hi _ _ _ Hs1 H)),
      (bit_inside b x' y' Hwf H), (Ho1 x' y' H H0). reflexivity.
  - rewrite (bit_inside b0 x' y' Hwf0 (Hi _ _ _ Hs0 H)),
      (bit_inside b x' y' Hwf H), (Ho0 x' y' H H0). reflexivity.
Qed.

Lemma SetOn_SetOff_read_back_witness :
  exists b1 b0,
    bin_img.SetOn view_9x3 5 2 = Ok b1 /\ bin_img.SetOff view_9x3 5 2 = Ok b0 /\
    wf b1 /\ wf b0 /\ same_shape view_9x3 b1 /\ same_shape view_9x3 b0 /\
    bin_img.IsWhite b1 5 2 = Ok true /\ bin_img.IsWhite b0 5 2 = Ok false /\
    forall x' y', inside view_9x3 x' y' -> ~ (x' = 5 /\ y' = 2) ->
      bin_img.IsWhite b1 x' y' = bin_img.IsWhite view_9x3 x' y' /\
      bin_img.IsWhite b0 x' y' = bin_img.IsWhite view_9x3 x' y'.
Proof.
  apply (SetOn_SetOff_read_back view_9x3 5 2 view_9x3_wf).
  unfold inside. simpl. lia.
Defined.

(** ** [At], [Set] and [BinaryModel] *)

Lemma inside_dec b x y : {inside b x y} + {~ inside b x y}.
Proof.
  unfold inside.
  destruct (Z_le_dec (MinX (bin_img.Rect b)) x), (Z_lt_dec x (MaxX (bin_img.Rect b))),
    (Z_le_dec (MinY (bin_img.Rect b)) y), (Z_lt_dec y (MaxY (bin_img.Rect b)));
    try (right; lia); left; lia.
Defined.

Lemma In_outside b x y : ~ inside b x y -> In x y (bin_img.Rect b) = false.
Proof.
  intros Hn. destruct (In x y (bin_img.Rect b)) eqn:E; [|reflexivity].
  exfalso. apply Hn. apply In_inside. exact E.
Qed.

Lemma At_inside b x y :
  wf b -> inside b x y ->
  bin_img.At b x y = Ok (if pixel b x y then Gray 255 else Gray 0).
Proof.
  intros Hwf Hin. unfold bin_img.At. rewrite (bit_inside b x y Hwf Hin).
  apply In_inside in Hin. rewrite Hin. reflexivity.
Qed.

Lemma At_outside b x y : ~ inside b x y -> bin_img.At b x y = Ok (Gray 0).
Proof. intros Hn. unfold bin_img.At. rewrite (In_outside b x y Hn). reflexivity. Qed.

(** On a well-formed image [At] answers at every coordinate, never with a
    fault: white ([Gray 255]) exactly at the coordinates of the rectangle
    where [IsWhite] holds, black ([Gray 0]) everywhere else, outside the
    rectangle too. *)
Theorem At_total b x y :
  wf b ->
  exists c,
    bin_img.At b x y = Ok c /\ (c = Gray 255 \/ c = Gray 0) /\
    (c = Gray 255 <-> inside b x y /\ bin_img.IsWhite b x y = Ok true).
Proof.
  intros Hwf. destruct (inside_dec b x y) as [Hin | Hout].
  - rewrite (At_inside b x y Hwf Hin). unfold bin_img.IsWhite.
    rewrite (bit_inside b x y Hwf Hin).
    destruct (pixel b x y).
    + exists (Gray 255). split; [reflexivity|]. split; [left; reflexivity|].
      split; [intros _; split; [exact Hin | reflexivity] | reflexivity].
    + exists (Gray 0). split; [reflexivity|]. split; [right; reflexivity|].
      split; [discriminate | intros [_ H]; discriminate].
  - rewrite (At_outside b x y Hout). exists (Gray 0).
    split; [reflexivity|]. split; [right; reflexivity|].
    split; [discriminate | intros [H _]; contradiction].
Qed.

Lemma At_total_witness :
  exists c,
    bin_img.At view_9x3 40 40 = Ok c /\ (c = Gray 255 \/ c = Gray 0) /\
    (c = Gray 255 <-> inside view_9x3 40 40 /\ bin_img.IsWhite view_9x3 40 40 = Ok true).
Proof. apply (At_total view_9x3 40 40 view_9x3_wf). Defined.

(** [Set] never faults on a well-formed image.  Outside the rectangle it
    changes nothing.  Inside, [At] then gives back the colour
    [BinaryModel] converts [c] to: white when [c] is not transparent and
    its weighted sum [(299 r + 587 g + 114 b) / 1000], taken in [uint32],
    reaches 0x8000, black otherwise; the other coordinates read as
    before. *)
Theorem Set_then_At b x y c :
  wf b ->
  exists b',
    bin_img.Set_ b x y c = Ok b' /\ wf b' /\ same_shape b b' /\
    (~ inside b x y -> b' = b) /\
    (inside b x y ->
     bin_img.At b' x y = Ok (Gray (bin_img.BinaryModel c)) /\
     bin_img.IsWhite b' x y =
       Ok (negb (A c =? 0) &&
           (32768 <=? Z.quot (u32 (299 * R c + 587 * G c + 114 * B c)) 1000))) /\
    forall x' y', ~ (x' = x /\ y' = y) -> bin_img.At b' x' y' = bin_img.At b x' y'.
Proof.
  intros Hwf. unfold bin_img.Set_.
  destruct (inside_dec b x y) as [Hin | Hout].
  - pose proof Hin as HIn. apply In_inside in HIn. rewrite HIn. cbn [negb].
    set (on := 128 <=? bin_img.BinaryModel c).
    destruct (setBit_pixel b x y on Hwf Hin) as (b' & E & Hwf' & Hsh & Hp & Ho).
    assert (forall x' y', inside b x' y' <-> inside b' x' y') as Hi.
    { intros x' y'. destruct Hsh as (Er & _). unfold inside. rewrite Er. reflexivity. }
    exists b'. split; [exact E|]. split; [exact Hwf'|]. split; [exact Hsh|].
    split; [intros Hn; contradiction|]. split.
    + intros _. rewrite (At_inside b' x y Hwf' (proj1 (Hi x y) Hin)).
      unfold bin_img.IsWhite. rewrite (bit_inside b' x y Hwf' (proj1 (Hi x y) Hin)).
      rewrite Hp. unfold on, bin_img.BinaryModel.
      destruct (A c =? 0); [split; reflexivity|]. cbv zeta.
      destruct (32768 <=? Z.quot (u32 (299 * R c + 587 * G c + 114 * B c)) 1000);
        split; reflexivity.
    + intros x' y' Hne. destruct (inside_dec b x' y') as [Hin' | Hout'].
      * rewrite (At_inside b' x' y' Hwf' (proj1 (Hi x' y') Hin')),
          (At_inside b x' y' Hwf Hin'), (Ho x' y' Hin' Hne). reflexivity.
      * rewrite (At_outside b x' y' Hout').
        apply At_outside. intros H. apply Hout'. apply Hi. exact H.
  - rewrite (In_outside b x y Hout). cbn [negb].
    exists b. split; [reflexivity|]. split; [exact Hwf|].
    split; [apply same_shape_refl|]. split; [reflexivity|].
    split; [intros Hin; contradiction | reflexivity].
Qed.

Lemma Set_then_At_witness :
  exists b',
    bin_img.Set_ view_9x3 5 2 (Gray 128) = Ok b' /\ wf b' /\ same_shape view_9x3 b' /\
    bin_img.At b' 5 2 = Ok (Gray (bin_img.BinaryModel (Gray 128))) /\
    bin_img.IsWhite b' 5 2 = Ok true /\
    forall x' y', ~ (x' = 5 /\ y' = 2) -> bin_img.At b' x' y' = bin_img.At view_9x3 x' y'.
Proof.
  destruct (Set_then_At view_9x3 5 2 (Gray 128) view_9x3_wf)
    as (b' & E & Hwf & Hsh & _ & Hin & Hrest).
  exists b'. split; [exact E|]. split; [exact Hwf|]. split; [exact Hsh|].
  destruct Hin as [HA HW]; [unfold inside; simpl; lia|].
  split; [exact HA|]. split; [exact HW | exact Hrest].
Defined.

(** ** [Fill] *)

(** [Fill] keeps the rectangle, the stride and the length of the buffer;
    after it every pixel of the rectangle reads [on], and the buffer holds
    the same byte everywhere, the bytes of the rows outside the rectangle
    included. *)
Theorem Fill_sets_every_pixel b on :
  wf b ->
  wf (bin_img.Fill b on) /\ same_shape b (bin_img.Fill b on) /\
  (forall x y, inside b x y ->
     bin_img.IsWhite (bin_img.Fill b on) x y = Ok on /\
     bin_img.IsBlack (bin_img.Fill b on) x y = Ok (negb on)) /\
  (forall i, 0 <= i < len (bin_img.Pix b) ->
     byte_at (bin_img.Pix (bin_img.Fill b on)) i = if on then 255 else 0).
Proof.
  intros Hwf.
  assert (same_shape b (bin_img.Fill b on)) as Hsh.
  { unfold same_shape, bin_img.Fill. simpl. rewrite length_replicate. repeat split. }
  assert (wf (bin_img.Fill b on)) as Hwf'.
  { destruct Hwf as [Hr Hb Hl Hs Hf]. constructor; simpl; try assumption.
    - apply Forall_replicate. unfold is_byte. destruct on; lia.
    - unfold len in *. rewrite length_replicate. exact Hl.
    - unfold len in *. rewrite length_replicate. exact Hf. }
  assert (forall i, 0 <= i < len (bin_img.Pix b) ->
            byte_at (bin_img.Pix (bin_img.Fill b on)) i = if on then 255 else 0) as Hbytes.
  { intros i Hi. unfold byte_at, bin_img.Fill. simpl.
    rewrite lookup_replicate_2 by (unfold len in Hi; lia). reflexivity. }
  split; [exact Hwf'|]. split; [exact Hsh|]. split; [|exact Hbytes].
  intros x y Hin.
  assert (inside (bin_img.Fill b on) x y) as Hin' by exact Hin.
  unfold bin_img.IsWhite, bin_img.IsBlack.
  rewrite (bit_inside _ x y Hwf' Hin'). cbn [bind].
  assert (pixel (bin_img.Fill b on) x y = on) as ->; [|split; reflexivity].
  unfold pixel, getbit.
  assert (off (bin_img.Fill b on) x y = off b x y) as -> by reflexivity.
  rewrite (Hbytes _ (off_range b x y Hwf Hin)).
  pose proof (Z.mod_pos_bound x 8 ltac:(lia)) as Hm.
  assert (x mod 8 = 0 \/ x mod 8 = 1 \/ x mod 8 = 2 \/ x mod 8 = 3 \/
          x mod 8 = 4 \/ x mod 8 = 5 \/ x mod 8 = 6 \/ x mod 8 = 7) as Hc by lia.
  destruct on;
    destruct Hc as [-> | [-> | [-> | [-> | [-> | [-> | [-> | ->]]]]]]]; reflexivity.
Qed.

Lemma Fill_sets_every_pixel_witness :
  wf (bin_img.Fill view_9x3 true) /\ same_shape view_9x3 (bin_img.Fill view_9x3 true) /\
  (forall x y, inside view_9x3 x y ->
     bin_img.IsWhite (bin_img.Fill view_9x3 true) x y = Ok true /\
     bin_img.IsBlack (bin_img.Fill view_9x3 true) x y = Ok (negb true)) /\
  (forall i, 0 <= i < len (bin_img.Pix view_9x3) ->
     byte_at (bin_img.Pix (bin_img.Fill view_9x3 true)) i = if true then 255 else 0).
Proof. apply (Fill_sets_every_pixel view_9x3 true view_9x3_wf). Defined.

(** ** [SubImage] *)

Lemma byte_at_drop (l : list Z) n i :
  0 <= n -> 0 <= i -> byte_at (drop (Z.to_nat n) l) i = byte_at l (n + i).
Proof.
  intros Hn Hi. unfold byte_at. rewrite lookup_drop.
  replace (Z.to_nat n + Z.to_nat i)%nat with (Z.to_nat (n + i)) by lia. reflexivity.
Qed.

Lemma Intersect_cases r s :
  let r' := Intersect r s in
  (Empty r' = true /\ r' = ZR) \/
  (Empty r' = false /\
   MinX r' = Z.max (MinX r) (MinX s) /\ MinY r' = Z.max (MinY r) (MinY s) /\
   MaxX r' = Z.min (MaxX r) (MaxX s) /\ MaxY r' = Z.min (MaxY r) (MaxY s) /\
   MinX r' < MaxX r' /\ MinY r' < MaxY r').
Proof.
  unfold Intersect. cbv zeta.
  set (q := {| MinX := if MinX r <? MinX s then MinX s else MinX r;
               MinY := if MinY r <? MinY s then MinY s else MinY r;
               MaxX := if MaxX s <? MaxX r then MaxX s else MaxX r;
               MaxY := if MaxY s <? MaxY r then MaxY s else MaxY r |}).
  destruct (Empty q) eqn:E.
  - left. split; reflexivity.
  - right. split; [exact E|]. unfold Empty in E. apply orb_false_iff in E.
    destruct E as [E1 E2]. apply Z.leb_gt in E1, E2. unfold q in *. simpl in *.
    destruct (Z.ltb_spec (MinX r) (MinX s)), (Z.ltb_spec (MinY r) (MinY s)),
      (Z.ltb_spec (MaxX s) (MaxX r)), (Z.ltb_spec (MaxY s) (MaxY r)); lia.
Qed.

(** [SubImage] of a well-formed image.  When the rectangle asked for does
    not meet the image, the view is the empty image on the zero rectangle,
    without a buffer.  Otherwise it does not fault and it gives a
    well-formed view on the intersection, with the stride of the image;
    when the left edge of the view is a whole number of bytes from the
    left edge of the image, every pixel of the view reads as the pixel of
    the image at the same coordinates. *)
Theorem SubImage_view b r :
  wf b ->
  let r' := Intersect r (bin_img.Rect b) in
  (Empty r' = true ->
   bin_img.SubImage b r = Ok {| bin_img.Pix := []; bin_img.Stride := 0;
                                bin_img.Rect := ZR |}) /\
  (Empty r' = false ->
   exists v,
     bin_img.SubImage b r = Ok v /\ wf v /\
     bin_img.Rect v = r' /\ bin_img.Stride v = bin_img.Stride b /\
     (forall x y, inside v x y -> inside b x y /\ In x y r = true) /\
     ((MinX r' - MinX (bin_img.Rect b)) mod 8 = 0 ->
      forall x y, inside v x y ->
        bin_img.IsWhite v x y = bin_img.IsWhite b x y /\
        bin_img.At v x y = bin_img.At b x y)).
Proof.
  intros Hwf r'. pose proof (Intersect_cases r (bin_img.Rect b)) as Hc.
  cbv zeta in Hc. fold r' in Hc. unfold bin_img.SubImage. fold r'.
  split.
  { intros He. rewrite He.
    destruct Hc as [[_ ->] | [Hc _]]; [reflexivity | congruence]. }
  intros He. rewrite He.
  destruct Hc as [[Hc _] | (_ & EX0 & EY0 & EX1 & EY1 & HX & HY)]; [congruence|].
  pose proof (wf_rect _ Hwf) as Hr. unfold rect_ok, int_range in Hr.
  assert (inside b (MinX r') (MinY r')) as Hcorner by (unfold inside; lia).
  rewrite (pixOffset_ok b _ _ Hwf Hcorner).
  pose proof (off_range b _ _ Hwf Hcorner) as Ho.
  set (o := off b (MinX r') (MinY r')) in *.
  destruct (Z.leb_spec 0 o); [|lia]. destruct (Z.leb_spec o (len (bin_img.Pix b))); [|lia].
  cbn [andb].
  set (v := {| bin_img.Pix := drop (Z.to_nat o) (bin_img.Pix b);
               bin_img.Stride := bin_img.Stride b; bin_img.Rect := r' |}).
  assert (forall x y, inside v x y -> inside b x y) as Hsub.
  { intros x y [Hx Hy]. unfold v in Hx, Hy. simpl in Hx, Hy. unfold inside. lia. }
  pose proof (wf_stride _ Hwf) as HS.
  destruct (wf_fit _ Hwf) as [Hf1 Hf2]; [unfold width; lia | unfold height; lia |].
  unfold width, height in Hf1, Hf2.
  set (S := bin_img.Stride b) in *.
  set (d := MinX r' - MinX (bin_img.Rect b)) in *.
  set (wv := MaxX r' - MinX r').
  set (wb := MaxX (bin_img.Rect b) - MinX (bin_img.Rect b)) in *.
  assert (d / 8 + (wv + 7) / 8 <= (wb + 7) / 8) as Hcols.
  { assert (0 <= d) by (unfold d; lia). assert (0 < wv) by (unfold wv; lia).
    assert (d + wv <= wb) by (unfold d, wv, wb; lia).
    pose proof (Z.div_mod d 8 ltac:(lia)). pose proof (Z.mod_pos_bound d 8 ltac:(lia)).
    pose proof (Z.div_mod (wv + 7) 8 ltac:(lia)).
    pose proof (Z.mod_pos_bound (wv + 7) 8 ltac:(lia)).
    apply Z.div_le_lower_bound; lia. }
  assert (o = (MinY r' - MinY (bin_img.Rect b)) * S + d / 8) as Eo by reflexivity.
  assert (wf v) as Hwfv.
  { constructor; unfold v; simpl.
    - unfold rect_ok, int_range. lia.
    - apply Forall_drop. exact (wf_bytes _ Hwf).
    - unfold len. rewrite length_drop. pose proof (wf_len _ Hwf). unfold len in *. lia.
    - exact HS.
    - unfold width, height. simpl. fold wv. intros _ _. split.
      + assert (0 <= d / 8) by (apply Z.div_pos; unfold d; lia). lia.
      + unfold len in *. rewrite length_drop.
        assert ((MaxY r' - MinY r' - 1) * S + o + (wv + 7) / 8
                <= (MaxY (bin_img.Rect b) - MinY (bin_img.Rect b) - 1) * S + (wb + 7) / 8);
          [|lia].
        rewrite Eo.
        assert ((MaxY r' - MinY r' - 1 + (MinY r' - MinY (bin_img.Rect b))) * S
                <= (MaxY (bin_img.Rect b) - MinY (bin_img.Rect b) - 1) * S)
          by (apply Z.mul_le_mono_nonneg_r; lia).
        lia. }
  exists v. split; [reflexivity|]. split; [exact Hwfv|].
  split; [reflexivity|]. split; [reflexivity|]. split.
  - intros x y Hin. split; [exact (Hsub x y Hin)|].
    destruct Hin as [Hx Hy]. unfold v in Hx, Hy. simpl in Hx, Hy. unfold In.
    destruct (Z.leb_spec (MinX r) x); [|lia]. destruct (Z.ltb_spec x (MaxX r)); [|lia].
    destruct (Z.leb_spec (MinY r) y); [|lia]. destruct (Z.ltb_spec y (MaxY r)); [|lia].
    reflexivity.
  - intros Hal x y Hin.
    assert (pixel v x y = pixel b x y) as Hp.
    { unfold pixel, getbit.
      pose proof (off_range v x y Hwfv Hin) as Hov.
      assert (off v x y = (y - MinY r') * S + (x - MinX r') / 8) as Eov by reflexivity.
      unfold v at 1. cbn [bin_img.Pix]. rewrite byte_at_drop by lia.
      assert (o + off v x y = off b x y) as ->; [|reflexivity].
      rewrite Eo, Eov. unfold off. fold S.
      destruct Hin as [Hx Hy]. unfold v in Hx, Hy. simpl in Hx, Hy.
      assert ((x - MinX (bin_img.Rect b)) / 8 = d / 8 + (x - MinX r') / 8) as ->.
      { replace (x - MinX (bin_img.Rect b)) with (d / 8 * 8 + (x - MinX r')).
        - rewrite Z.div_add_l by lia. reflexivity.
        - pose proof (Z.div_mod d 8 ltac:(lia)). unfold d in *. lia. }
      lia. }
    unfold bin_img.IsWhite.
    rewrite (bit_inside v x y Hwfv Hin), (bit_inside b x y Hwf (Hsub x y Hin)), Hp.
    rewrite (At_inside v x y Hwfv Hin), (At_inside b x y Hwf (Hsub x y Hin)), Hp.
    split; reflexivity.
Qed.

Lemma SubImage_view_witness :
  exists v,
    bin_img.SubImage view_9x3 {| MinX := 11; MinY := 2; MaxX := 40; MaxY := 40 |} = Ok v /\
    wf v /\
    bin_img.Rect v = {| MinX := 11; MinY := 2; MaxX := 12; MaxY := 4 |} /\
    bin_img.Stride v = bin_img.Stride view_9x3 /\
    (forall x y, inside v x y ->
       inside view_9x3 x y /\
       In x y {| MinX := 11; MinY := 2; MaxX := 40; MaxY := 40 |} = true) /\
    (forall x y, inside v x y ->
       bin_img.IsWhite v x y = bin_img.IsWhite view_9x3 x y /\
       bin_img.At v x y = bin_img.At view_9x3 x y).
Proof.
  destruct (SubImage_view view_9x3 {| MinX := 11; MinY := 2; MaxX := 40; MaxY := 40 |}
              view_9x3_wf) as [_ H].
  destruct H as (v & E & Hwf & Er & Es & Hsub & Hpix); [reflexivity|].
  exists v. split; [exact E|]. split; [exact Hwf|]. split; [exact Er|].
  split; [exact Es|]. split; [exact Hsub|]. apply Hpix. reflexivity.
Defined.

(** ** [Rotate180]: where each pixel goes *)

(** [Rotate180] of a well-formed image does not fault, on either path.  It
    keeps the rectangle, the stride and the length of the buffer; the
    pixel at [(x, y)] afterwards is the pixel that was at the opposite
    coordinate [(MinX + MaxX - 1 - x, MinY + MaxY - 1 - y)]; and every bit
    of the buffer that belongs to no pixel of the rectangle (padding, or
    the rest of a parent image) is left as it was. *)
Theorem Rotate180_mirrors b :
  wf b ->
  exists b',
    bin_img.Rotate180 b = Ok b' /\ wf b' /\
    bin_img.Rect b' = bin_img.Rect b /\ bin_img.Stride b' = bin_img.Stride b /\
    length (bin_img.Pix b') = length (bin_img.Pix b) /\
    (forall x y, inside b x y ->
       bin_img.IsWhite b' x y =
       bin_img.IsWhite b
         (MinX (bin_img.Rect b) + MaxX (bin_img.Rect b) - 1 - x)
         (MinY (bin_img.Rect b) + MaxY (bin_img.Rect b) - 1 - y)) /\
    (forall i k, 0 <= i -> 0 <= k < 8 ->
       (forall x y, inside b x y -> ~ (i = off b x y /\ k = 7 - x mod 8)) ->
       getbit (bin_img.Pix b') i k = getbit (bin_img.Pix b) i k).
Proof.
  intros Hwf.
  destruct (Rotate180_spec b Hwf) as (b' & E & Hwf' & (Er & Es & El) & Hpix & Hhid).
  exists b'. split; [exact E|]. split; [exact Hwf'|]. split; [exact Er|].
  split; [exact Es|]. split; [exact El|]. split.
  - intros x y Hin.
    assert (inside b' x y) as Hin' by (unfold inside; rewrite Er; exact Hin).
    pose proof (mirror_inside b x y Hin) as Hm.
    unfold bin_img.IsWhite.
    rewrite (bit_inside b' x y Hwf' Hin'), (Hpix x y Hin).
    unfold mx, my in *. rewrite (bit_inside b _ _ Hwf Hm). reflexivity.
  - intros i k Hi Hk Hno. apply Hhid; assumption.
Qed.

Lemma Rotate180_mirrors_witness :
  exists b',
    bin_img.Rotate180 view_9x3 = Ok b' /\ wf b' /\
    bin_img.Rect b' = bin_img.Rect view_9x3 /\
    bin_img.Stride b' = bin_img.Stride view_9x3 /\
    length (bin_img.Pix b') = length (bin_img.Pix view_9x3) /\
    (forall x y, inside view_9x3 x y ->
       bin_img.IsWhite b' x y =
       bin_img.IsWhite view_9x3
         (MinX (bin_img.Rect view_9x3) + MaxX (bin_img.Rect view_9x3) - 1 - x)
         (MinY (bin_img.Rect view_9x3) + MaxY (bin_img.Rect view_9x3) - 1 - y)) /\
    (forall i k, 0 <= i -> 0 <= k < 8 ->
       (forall x y, inside view_9x3 x y -> ~ (i = off view_9x3 x y /\ k = 7 - x mod 8)) ->
       getbit (bin_img.Pix b') i k = getbit (bin_img.Pix view_9x3) i k).
Proof. apply (Rotate180_mirrors view_9x3 view_9x3_wf). Defined.

(** * Further properties of package tspl *)

(** ** [setBitmapBit] *)

Lemma index_out (l : list Z) i : len l <= i -> index l i = Panic.
Proof.
  intros H. unfold index. destruct (Z.ltb_spec i 0); [reflexivity|].
  rewrite lookup_ge_None_2 by (unfold len in H; lia). reflexivity.
Qed.

(** [setBitmapBit] writes bit [7 - x mod 8] of the byte at
    [headerEnd + y*rowBytes + x/8] and no other bit: the bit becomes 1 for
    a non-zero [bit] and 0 for zero, and the length of the buffer is kept.
    It makes no bounds test of its own: when that byte is past the end of
    the buffer, it faults. *)
Theorem setBitmapBit_one_bit body headerEnd rowBytes x y bit :
  0 <= x -> 0 <= y -> 0 <= rowBytes -> 0 <= headerEnd ->
  headerEnd + y * rowBytes + x / 8 < 2 ^ 63 -> len body < 2 ^ 63 ->
  let i := headerEnd + y * rowBytes + x / 8 in
  (len body <= i -> tspl.setBitmapBit body headerEnd rowBytes x y bit = Panic) /\
  (i < len body ->
   exists body',
     tspl.setBitmapBit body headerEnd rowBytes x y bit = Ok body' /\
     length body' = length body /\
     getbit body' i (7 - x mod 8) = negb (bit =? 0) /\
     forall j k, 0 <= j -> 0 <= k -> ~ (j = i /\ k = 7 - x mod 8) ->
       getbit body' j k = getbit body j k).
Proof.
  intros Hx Hy Hrb Hhe Hno Hl i.
  pose proof (Z.mod_pos_bound x 8 ltac:(lia)) as Hm.
  pose proof (Z.div_pos x 8 ltac:(lia) ltac:(lia)) as Hq.
  assert (0 <= y * rowBytes) as Hyr by nia.
  split.
  - intros Hout. unfold tspl.setBitmapBit.
    rewrite Z.quot_div_nonneg, Z.rem_mod_nonneg by lia.
    assert (headerEnd +i y *i rowBytes +i x / 8 = i) as ->
      by (unfold i; unwrap; reflexivity).
    assert (7 -i x mod 8 = 7 - x mod 8) as -> by (unwrap; reflexivity).
    rewrite bit_at_ok by lia. cbn [bind]. rewrite index_out by exact Hout.
    reflexivity.
  - intros Hin.
    rewrite setBitmapBit_ok by (unfold int_range; lia). fold i.
    eexists. split; [reflexivity|]. split; [apply length_put_bit|].
    split.
    + rewrite getbit_put_bit by lia. rewrite !Z.eqb_refl. reflexivity.
    + intros j k Hj Hk Hne. rewrite getbit_put_bit by lia.
      destruct (Z.eqb_spec j i); [|reflexivity].
      destruct (Z.eqb_spec k (7 - x mod 8)); [|reflexivity].
      exfalso. apply Hne. split; assumption.
Qed.

Lemma setBitmapBit_one_bit_witness :
  let body := bytes "BITMAP 0,0,1,2,1," ++ [0; 255] in
  tspl.setBitmapBit body 17 1 3 2 1 = Panic /\
  exists body',
    tspl.setBitmapBit body 17 1 3 1 0 = Ok body' /\
    length body' = length body /\
    getbit body' (17 + 1 * 1 + 3 / 8) (7 - 3 mod 8) = negb (0 =? 0) /\
    forall j k, 0 <= j -> 0 <= k -> ~ (j = 17 + 1 * 1 + 3 / 8 /\ k = 7 - 3 mod 8) ->
      getbit body' j k = getbit body j k.
Proof.
  intros body.
  assert (len body < 2 ^ 63) as Hl by (vm_compute; reflexivity).
  assert (17 + 2 * 1 + 3 / 8 < 2 ^ 63) as H2 by (vm_compute; reflexivity).
  assert (17 + 1 * 1 + 3 / 8 < 2 ^ 63) as H1 by (vm_compute; reflexivity).
  split.
  - apply (setBitmapBit_one_bit body 17 1 3 2 1
             ltac:(lia) ltac:(lia) ltac:(lia) ltac:(lia) H2 Hl).
    vm_compute. discriminate.
  - apply (setBitmapBit_one_bit body 17 1 3 1 0
             ltac:(lia) ltac:(lia) ltac:(lia) ltac:(lia) H1 Hl).
    vm_compute. reflexivity.
Defined.

(** ** [Bytes2Image] on a whole buffer *)

(** [Bytes2Image] hands on the error of [ParseBitmapHeader], and refuses a
    header whose width or height is not positive.  On a buffer that holds
    the whole payload it cuts the buffer in three: the header text, the
    [rowBytes * height] bytes of payload, and the tail, which together are
    the buffer; and pixel [(x, y)] of the image is bit [7 - x mod 8] of
    payload byte [y * rowBytes + x / 8], whatever bytes the payload
    holds. *)
Theorem Bytes2Image_splits body :
  (forall e, tspl.ParseBitmapHeader body = Err e -> tspl.Bytes2Image body = Err e) /\
  (forall hdr,
     tspl.ParseBitmapHeader body = Ok hdr ->
     tspl.Width hdr <= 0 \/ tspl.Height hdr <= 0 ->
     tspl.Bytes2Image body =
     Err (EInvalidImageSize (tspl.Width hdr) (tspl.Height hdr))) /\
  (forall hdr,
     tspl.ParseBitmapHeader body = Ok hdr ->
     0 < tspl.RowBytes hdr -> 0 < tspl.Height hdr ->
     tspl.RowBytes hdr * tspl.Height hdr <= maxAlloc ->
     tspl.HeaderEnd hdr + tspl.RowBytes hdr * tspl.Height hdr <= len body ->
     len body < 2 ^ 62 ->
     exists im payload,
       tspl.Bytes2Image body = Ok im /\
       body = tspl.Header_ im ++ payload ++ tspl.Tail im /\
       len (tspl.Header_ im) = tspl.HeaderEnd hdr /\
       len payload = tspl.RowBytes hdr * tspl.Height hdr /\
       bin_img.Bounds (tspl.Bitmap im) =
         {| MinX := 0; MinY := 0; MaxX := 8 * tspl.RowBytes hdr;
            MaxY := tspl.Height hdr |} /\
       forall x y, 0 <= x < 8 * tspl.RowBytes hdr -> 0 <= y < tspl.Height hdr ->
         bin_img.IsWhite (tspl.Bitmap im) x y =
         Ok (getbit payload (y * tspl.RowBytes hdr + x / 8) (7 - x mod 8))).
Proof.
  split; [|split].
  - intros e He. unfold tspl.Bytes2Image. rewrite He. reflexivity.
  - intros hdr Hp Hbad. unfold tspl.Bytes2Image. rewrite Hp. cbn [bind]. cbv zeta.
    assert ((tspl.Width hdr <=? 0) || (tspl.Height hdr <=? 0) = true) as ->;
      [|reflexivity].
    apply orb_true_iff. destruct Hbad; [left | right]; apply Z.leb_le; assumption.
  - intros hdr Hp Hrb Hh Halloc Hfit Hl62.
    set (rb := tspl.RowBytes hdr) in *. set (Ht := tspl.Height hdr) in *.
    set (HE := tspl.HeaderEnd hdr) in *.
    assert (0 < rb * Ht) as Hpos by nia.
    assert (tspl.Width hdr = 8 * rb) as HW.
    { rewrite (ParseBitmapHeader_width _ _ Hp). fold rb.
      unfold maxAlloc in Halloc. assert (rb <= 2 ^ 48) by nia.
      unwrap. lia. }
    assert (0 <= HE) as HE0.
    { destruct (ParseBitmapHeader_end body hdr) as (pre & rest & _ & _ & E);
        [lia | exact Hp |].
      pose proof (len_nonneg pre). unfold HE. lia. }
    destruct (Bytes2Image_spec body hdr Hp Hrb HW Hh Halloc) as
      (im & E & EH & ET & Hwf & (Er & _ & _) & Hpix); [fold HE; lia | exact Hl62 |].
    fold HE rb Ht in EH, ET, Hpix. rewrite HW in Er, Hpix.
    rewrite Z.min_r in ET by lia.
    set (payload := take (Z.to_nat (rb * Ht)) (drop (Z.to_nat HE) body)).
    assert (length payload = Z.to_nat (rb * Ht)) as Hlp.
    { unfold payload. rewrite length_take, length_drop. unfold len in Hfit. lia. }
    exists im, payload. split; [exact E|]. split.
    { rewrite EH, ET. unfold payload.
      replace (Z.to_nat (HE + rb * Ht)) with (Z.to_nat HE + Z.to_nat (rb * Ht))%nat by lia.
      rewrite <- drop_drop. rewrite take_drop. rewrite take_drop. reflexivity. }
    split; [rewrite EH; unfold len in *; rewrite length_take; lia|].
    split; [unfold len; lia|].
    split; [unfold bin_img.Bounds; rewrite Er; reflexivity|].
    intros x y Hx Hy.
    assert (inside (tspl.Bitmap im) x y) as Hin.
    { unfold inside. rewrite Er. simpl. lia. }
    unfold bin_img.IsWhite. rewrite (bit_inside _ x y Hwf Hin).
    rewrite (Hpix x y Hx Hy). unfold decoded.
    assert (0 <= x / 8 < rb) as Hq
      by (split; [apply Z.div_pos; lia | apply Z.div_lt_upper_bound; lia]).
    assert (0 <= y * rb /\ y * rb + rb <= rb * Ht) as [Hy1 Hy2] by nia.
    destruct (Z.ltb_spec (HE + y * rb + x / 8) (len body)); [|lia]. cbn [andb].
    f_equal. unfold getbit, payload. f_equal. unfold byte_at.
    rewrite lookup_take_lt by lia. rewrite lookup_drop.
    replace (Z.to_nat HE + Z.to_nat (y * rb + x / 8))%nat
      with (Z.to_nat (HE + y * rb + x / 8)) by lia.
    reflexivity.
Qed.

Lemma Bytes2Image_splits_witness :
  let body := bytes "BITMAP 0,0,1,2,1," ++ [129; 7] ++ bytes "PRINT 1,1" in
  exists im payload,
    tspl.Bytes2Image body = Ok im /\
    body = tspl.Header_ im ++ payload ++ tspl.Tail im /\
    len (tspl.Header_ im) = 17 /\
    len payload = 1 * 2 /\
    bin_img.Bounds (tspl.Bitmap im) =
      {| MinX := 0; MinY := 0; MaxX := 8 * 1; MaxY := 2 |} /\
    forall x y, 0 <= x < 8 * 1 -> 0 <= y < 2 ->
      bin_img.IsWhite (tspl.Bitmap im) x y =
      Ok (getbit payload (y * 1 + x / 8) (7 - x mod 8)).
Proof.
  intros body.
  destruct (Bytes2Image_splits body) as (_ & _ & H).
  apply (H {| tspl.RowBytes := 1; tspl.Width := 8; tspl.Height := 2;
              tspl.HeaderEnd := 17 |}).
  - vm_compute. reflexivity.
  - reflexivity.
  - reflexivity.
  - vm_compute. discriminate.
  - vm_compute. discriminate.
  - vm_compute. reflexivity.
Defined.

(** ** [Encode] and [Image2Bytes]: sizes refused, and the layout *)

Lemma NewBinary_refused w h :
  (w <= 0 \/ h <= 0 -> bin_img.NewBinary w h = Err EInvalidDimensions) /\
  (0 < w -> 0 < h -> w mod 8 <> 0 -> bin_img.NewBinary w h = Err EWidthNotMultipleOf8).
Proof.
  split.
  - intros Hneg. unfold bin_img.NewBinary.
    assert ((w <=? 0) || (h <=? 0) = true) as ->; [|reflexivity].
    apply orb_true_iff. destruct Hneg; [left | right]; apply Z.leb_le; assumption.
  - intros Hw Hh Hm. unfold bin_img.NewBinary.
    destruct (Z.leb_spec w 0); [lia|]. destruct (Z.leb_spec h 0); [lia|]. cbn [orb].
    rewrite Z.rem_mod_nonneg by lia.
    destruct (Z.eqb_spec (w mod 8) 0); [contradiction | reflexivity].
Qed.

(** An image that is not a [Binary] is converted through [NewBinary], so
    [FromGrayThreshold], [Image2Bytes] and [Encode] all refuse it when its
    bounds have no width or no height ("invalid dimensions") and when its
    width is not a multiple of 8 ("width must be a multiple of 8"),
    whatever its pixels, the label size and the options. *)
Theorem Encode_refuses_source_size size_text lw lh dpm src opt :
  let w := Dx (image.Bounds src) in
  let h := Dy (image.Bounds src) in
  (w <= 0 \/ h <= 0 ->
   forall t,
     bin_img.FromGrayThreshold src t = Err EInvalidDimensions /\
     tspl.Image2Bytes (tspl.NotBinary src) = Err EInvalidDimensions /\
     tspl.Encode size_text lw lh dpm (tspl.NotBinary src) opt = Err EInvalidDimensions) /\
  (0 < w -> 0 < h -> w mod 8 <> 0 ->
   forall t,
     bin_img.FromGrayThreshold src t = Err EWidthNotMultipleOf8 /\
     tspl.Image2Bytes (tspl.NotBinary src) = Err EWidthNotMultipleOf8 /\
     tspl.Encode size_text lw lh dpm (tspl.NotBinary src) opt =
       Err EWidthNotMultipleOf8).
Proof.
  intros w h. destruct (NewBinary_refused w h) as [H1 H2].
  assert (forall e, bin_img.NewBinary w h = Err e ->
            forall t,
              bin_img.FromGrayThreshold src t = Err e /\
              tspl.Image2Bytes (tspl.NotBinary src) = Err e /\
              tspl.Encode size_text lw lh dpm (tspl.NotBinary src) opt = Err e) as Hall.
  { intros e He t.
    assert (forall t', bin_img.FromGrayThreshold src t' = Err e) as Hf.
    { intros t'. unfold bin_img.FromGrayThreshold. fold w h. rewrite He. reflexivity. }
    split; [apply Hf|].
    assert (tspl.Image2Bytes (tspl.NotBinary src) = Err e) as Hi.
    { unfold tspl.Image2Bytes. rewrite Hf. reflexivity. }
    split; [exact Hi|]. unfold tspl.Encode. rewrite Hi. reflexivity. }
  split.
  - intros Hbad. apply Hall. apply H1. exact Hbad.
  - intros Hw Hh Hm. apply Hall. apply H2; assumption.
Qed.

(** A 12x1 source. *)
Definition grey_12x1 : Source :=
  {| image.Bounds := image.Rect 0 0 12 1; image.At := fun x y => Gray (20 * x) |}.

Lemma Encode_refuses_source_size_witness :
    bin_img.FromGrayThreshold grey_12x1 151 = Err EWidthNotMultipleOf8 /\
    tspl.Image2Bytes (tspl.NotBinary grey_12x1) = Err EWidthNotMultipleOf8 /\
    tspl.Encode (fun _ _ => bytes "1.5") 12 1 8 (tspl.NotBinary grey_12x1) tspl.DefaultOptions =
      Err EWidthNotMultipleOf8.
Proof.
  destruct (Encode_refuses_source_size (fun _ _ => bytes "1.5") 12 1 8 grey_12x1 tspl.DefaultOptions)
    as [_ H].
  apply H; [reflexivity | reflexivity | vm_compute; discriminate].
Defined.

(** What [Encode] returns for a [Binary] on a rectangle at the origin, of
    any width: the printer set-up text of [Header], then the [BITMAP]
    command with [(width + 7) / 8] bytes a row, then the payload of that
    many bytes for each row, then [PRINT 1,1] and a line end.  The label
    size, the resolution and the options reach the set-up text only, and
    a resolution of 0 stands for 8. *)
Theorem Encode_layout size_text lw lh dpm b opt :
  encodable b ->
  exists payload,
    tspl.Encode size_text lw lh dpm (tspl.IsBinary b) opt =
    Ok (tspl.Header size_text lw lh dpm opt
        ++ tspl.bitmap_header ((width b + 7) / 8) (height b) ++ payload
        ++ bytes "PRINT 1,1" ++ [13; 10]) /\
    len payload = (width b + 7) / 8 * height b /\
    (forall x y, 0 <= x < width b -> 0 <= y < height b ->
       bin_img.IsWhite b x y =
       Ok (getbit payload (y * ((width b + 7) / 8) + x / 8) (7 - x mod 8))) /\
    (forall lw' lh' dpm' opt',
       exists set_up,
         tspl.Encode size_text lw' lh' dpm' (tspl.IsBinary b) opt' =
         Ok (set_up ++ tspl.bitmap_header ((width b + 7) / 8) (height b) ++ payload
             ++ bytes "PRINT 1,1" ++ [13; 10])) /\
    tspl.Encode size_text lw lh 0 (tspl.IsBinary b) opt =
    tspl.Encode size_text lw lh 8 (tspl.IsBinary b) opt.
Proof.
  intros Hb. pose proof Hb as (Hwf & HX0 & HY0 & _).
  destruct (Image2Bytes_spec b Hb) as (payload & E & Hl & Hbits).
  unfold header_of, row_bytes in *.
  exists payload.
  assert (forall lw' lh' dpm' opt',
            tspl.Encode size_text lw' lh' dpm' (tspl.IsBinary b) opt' =
            Ok (tspl.Header size_text lw' lh' dpm' opt'
                ++ tspl.bitmap_header ((width b + 7) / 8) (height b) ++ payload
                ++ bytes "PRINT 1,1" ++ [13; 10])) as HE.
  { intros lw' lh' dpm' opt'. unfold tspl.Encode. rewrite E. cbn [bind snd].
    rewrite <- !app_assoc. reflexivity. }
  split; [apply HE|]. split; [exact Hl|]. split; [|split].
  - intros x y Hx Hy.
    assert (inside b x y) as Hin.
    { unfold inside. unfold width, height in Hx, Hy. lia. }
    unfold bin_img.IsWhite. rewrite (bit_inside b x y Hwf Hin). f_equal.
    rewrite <- (Hbits x y Hx Hy).
    pose proof (len_nonneg (tspl.bitmap_header ((width b + 7) / 8) (height b))).
    assert (0 <= y * ((width b + 7) / 8) + x / 8).
    { assert (0 <= x / 8) by (apply Z.div_pos; lia).
      assert (0 <= (width b + 7) / 8) by (apply Z.div_pos; lia). nia. }
    unfold getbit, byte_at.
    replace (Z.to_nat (len (tspl.bitmap_header ((width b + 7) / 8) (height b))
                       + y * ((width b + 7) / 8) + x / 8))
      with (length (tspl.bitmap_header ((width b + 7) / 8) (height b))
            + Z.to_nat (y * ((width b + 7) / 8) + x / 8))%nat
      by (unfold len in *; lia).
    rewrite lookup_app_r by lia.
    replace (length (tspl.bitmap_header ((width b + 7) / 8) (height b))
             + Z.to_nat (y * ((width b + 7) / 8) + x / 8)
             - length (tspl.bitmap_header ((width b + 7) / 8) (height b)))%nat
      with (Z.to_nat (y * ((width b + 7) / 8) + x / 8)) by lia.
    reflexivity.
  - intros lw' lh' dpm' opt'. eexists. apply HE.
  - rewrite !HE. reflexivity.
Qed.

Lemma Encode_layout_witness :
  exists payload,
    tspl.Encode (fun _ _ => bytes "2.0") 16 16 8 (tspl.IsBinary two_dots) tspl.DefaultOptions =
    Ok (tspl.Header (fun _ _ => bytes "2.0") 16 16 8 tspl.DefaultOptions
        ++ tspl.bitmap_header ((width two_dots + 7) / 8) (height two_dots) ++ payload
        ++ bytes "PRINT 1,1" ++ [13; 10]) /\
    len payload = (width two_dots + 7) / 8 * height two_dots /\
    (forall x y, 0 <= x < width two_dots -> 0 <= y < height two_dots ->
       bin_img.IsWhite two_dots x y =
       Ok (getbit payload (y * ((width two_dots + 7) / 8) + x / 8) (7 - x mod 8))) /\
    (forall lw' lh' dpm' opt',
       exists set_up,
         tspl.Encode (fun _ _ => bytes "2.0") lw' lh' dpm' (tspl.IsBinary two_dots) opt' =
         Ok (set_up ++ tspl.bitmap_header ((width two_dots + 7) / 8) (height two_dots)
             ++ payload ++ bytes "PRINT 1,1" ++ [13; 10])) /\
    tspl.Encode (fun _ _ => bytes "2.0") 16 16 0 (tspl.IsBinary two_dots) tspl.DefaultOptions =
    tspl.Encode (fun _ _ => bytes "2.0") 16 16 8 (tspl.IsBinary two_dots) tspl.DefaultOptions.
Proof.
  apply (Encode_layout (fun _ _ => bytes "2.0") 16 16 8 two_dots tspl.DefaultOptions).
  split; [|split; [reflexivity | split; [reflexivity | vm_compute; discriminate]]].
  wf_by_computation.
Defined.

(** ** [OverlayBinary], then [Bytes2Image] *)

Lemma take_eq_byte_at (l l' : list Z) n :
  (n <= length l)%nat -> (n <= length l')%nat ->
  (forall i, 0 <= i < Z.of_nat n -> byte_at l i = byte_at l' i) ->
  take n l = take n l'.
Proof.
  intros Hl Hl' H. apply list_eq. intros i.
  destruct (Nat.lt_ge_cases i n) as [Hi | Hi].
  - rewrite !lookup_take_lt by lia.
    specialize (H (Z.of_nat i) ltac:(lia)). unfold byte_at in H.
    rewrite Nat2Z.id in H.
    destruct (lookup_lt_is_Some_2 l i ltac:(lia)) as [v Ev].
    destruct (lookup_lt_is_Some_2 l' i ltac:(lia)) as [v' Ev'].
    rewrite Ev, Ev' in *. simpl in H. congruence.
  - rewrite !lookup_take_ge by lia. reflexivity.
Qed.

Lemma drop_eq_byte_at (l l' : list Z) n :
  length l = length l' ->
  (forall i, Z.of_nat n <= i -> byte_at l i = byte_at l' i) ->
  drop n l = drop n l'.
Proof.
  intros Hl H. apply list_eq. intros i. rewrite !lookup_drop.
  specialize (H (Z.of_nat (n + i)) ltac:(lia)). unfold byte_at in H.
  rewrite Nat2Z.id in H.
  destruct (l !! (n + i)%nat) as [v|] eqn:Ev.
  - destruct (lookup_lt_is_Some_2 l' (n + i)) as [v' Ev'].
    { rewrite <- Hl. apply lookup_lt_is_Some. eauto. }
    rewrite Ev' in *. simpl in H. congruence.
  - apply lookup_ge_None in Ev. rewrite lookup_ge_None_2 by lia. reflexivity.
Qed.

(** The overlay rectangle, in the coordinates of the base image. *)
Definition pasted (ovb : bin_img.Binary) (xOff yOff X Y : Z) : bool :=
  (xOff <=? X) && (X <? xOff + width ovb) && (yOff <=? Y) && (Y <? yOff + height ovb).

Lemma overlay_decode st base ov xOff yOff rb ht payload tail :
  tspl.load st base = tspl.bitmap_header rb ht ++ payload ++ tail ->
  slice_ok st base ->
  0 < rb -> 0 < ht -> rb * ht <= maxAlloc -> len payload = rb * ht ->
  len tail < 2 ^ 61 ->
  wf (tspl.deref st ov) ->
  0 < width (tspl.deref st ov) -> 0 < height (tspl.deref st ov) ->
  0 <= xOff -> 0 <= yOff ->
  xOff + width (tspl.deref st ov) <= 8 * rb ->
  yOff + height (tspl.deref st ov) <= ht ->
  exists st' res im0 im,
    tspl.OverlayBinary None base (Some ov) xOff yOff st = (st', Ok res) /\
    tspl.Bytes2Image (tspl.load st base) = Ok im0 /\
    tspl.Bytes2Image (tspl.load st' res) = Ok im /\
    tspl.Header_ im = tspl.bitmap_header rb ht /\ tspl.Header_ im0 = tspl.Header_ im /\
    tspl.Tail im = tail /\ tspl.Tail im0 = tail /\
    bin_img.Rect (tspl.Bitmap im) = {| MinX := 0; MinY := 0; MaxX := 8 * rb; MaxY := ht |} /\
    bin_img.Rect (tspl.Bitmap im0) = bin_img.Rect (tspl.Bitmap im) /\
    forall X Y, 0 <= X < 8 * rb -> 0 <= Y < ht ->
      bin_img.IsWhite (tspl.Bitmap im) X Y =
      if pasted (tspl.deref st ov) xOff yOff X Y
      then bin_img.IsWhite (tspl.deref st ov)
             (X - xOff + MinX (tspl.RectRef ov)) (Y - yOff + MinY (tspl.RectRef ov))
      else bin_img.IsWhite (tspl.Bitmap im0) X Y.
Proof.
  intros Eb Hs Hrb Hht Hal Hlp Hlt Hwf Hw Hh Hx0 Hy0 Hxw Hyh.
  set (ovb := tspl.deref st ov) in *.
  set (hd := tspl.bitmap_header rb ht) in *.
  pose proof (bitmap_header_length rb ht) as Hlh. fold hd in Hlh.
  unfold maxAlloc in Hal.
  assert (rb <= 2 ^ 48 /\ ht <= 2 ^ 48) as [Hrb48 Hht48] by nia.
  set (h := {| tspl.RowBytes := rb; tspl.Width := rb *i 8; tspl.Height := ht;
               tspl.HeaderEnd := len hd |}).
  assert (rb *i 8 = 8 * rb) as EW by (unwrap; lia).
  set (base0 := tspl.load st base) in *.
  assert (len base0 = len hd + rb * ht + len tail) as Hlb.
  { rewrite Eb. unfold len in *. rewrite !length_app. lia. }
  assert (forall rest, tspl.ParseBitmapHeader (hd ++ rest) = Ok h) as Hparse.
  { intros rest. unfold hd, h. apply ParseBitmapHeader_printed; lia. }
  assert (effective_header st None base = Ok h) as Heff.
  { unfold effective_header. fold base0. rewrite Eb. apply Hparse. }
  assert (header_ok h) as Hok.
  { unfold header_ok, h. cbn [tspl.HeaderEnd tspl.RowBytes tspl.Height tspl.Width].
    rewrite EW. pose proof (len_nonneg hd). lia. }
  assert (tspl.slen base = len base0) as Hsl.
  { unfold slice_ok in Hs. fold base0 in Hs. unfold tspl.slen, len. lia. }
  destruct (OverlayBinary_spec st None base ov xOff yOff h Heff Hok Hs)
    as (st' & res & E & _ & _ & Hp); try assumption.
  { rewrite Hsl. pose proof (len_nonneg tail). lia. }
  { cbn [tspl.HeaderEnd tspl.RowBytes tspl.Height h]. rewrite Hsl.
    pose proof (len_nonneg tail). lia. }
  { cbn [tspl.Width h]. rewrite EW. exact Hxw. }
  fold ovb base0 in Hp.
  set (cur := tspl.load st' res) in *.
  pose proof Hp as (Hlc & Hover & Hrest).
  assert (forall i, 0 <= i < len hd \/ len hd + rb * ht <= i ->
            byte_at cur i = byte_at base0 i) as Hout.
  { intros i Hi. apply (patched_outside base0 cur ovb h xOff yOff i Hp);
      cbn [tspl.HeaderEnd tspl.RowBytes tspl.Height h]; try lia. }
  (* the patched buffer: same header, same tail *)
  assert (take (length hd) cur = hd) as Ehd.
  { rewrite (take_eq_byte_at cur base0).
    - rewrite Eb. rewrite take_app_length. reflexivity.
    - unfold len in *. lia.
    - unfold len in *. lia.
    - intros i Hi. apply Hout. unfold len. lia. }
  assert (drop (Z.to_nat (len hd + rb * ht)) cur = tail) as Etl.
  { rewrite (drop_eq_byte_at cur base0) by
      (try exact Hlc; intros i Hi; apply Hout; pose proof (len_nonneg hd); lia).
    rewrite Eb. rewrite app_assoc. apply drop_app_length'.
    unfold len in *. rewrite length_app. lia. }
  assert (cur = hd ++ drop (length hd) cur) as Ecur.
  { rewrite <- Ehd at 1. rewrite take_drop. reflexivity. }
  assert (len cur = len base0) as Hlc' by (unfold len; lia).
  pose proof (len_nonneg tail) as Ht0. pose proof (len_nonneg hd) as Hh0.
  destruct (Bytes2Image_spec base0 h) as (im0 & E0 & EH0 & ET0 & Hwf0 & (Er0 & _) & Hpix0).
  { rewrite Eb. apply Hparse. }
  { exact Hrb. } { exact EW. } { exact Hht. } { exact Hal. }
  { cbn [tspl.HeaderEnd h]. lia. } { lia. }
  destruct (Bytes2Image_spec cur h) as (im & E1 & EH1 & ET1 & Hwf1 & (Er1 & _) & Hpix1).
  { rewrite Ecur. apply Hparse. }
  { exact Hrb. } { exact EW. } { exact Hht. } { exact Hal. }
  { cbn [tspl.HeaderEnd h]. lia. } { lia. }
  cbn [tspl.HeaderEnd tspl.RowBytes tspl.Height tspl.Width h] in *.
  rewrite EW in *. simpl in Er0, Er1.
  exists st', res, im0, im.
  split; [exact E|]. split; [exact E0|]. split; [exact E1|].
  assert (tspl.Header_ im = hd) as EHd.
  { rewrite EH1. unfold len. rewrite Nat2Z.id. exact Ehd. }
  split; [exact EHd|]. split.
  { rewrite EHd, EH0. unfold len. rewrite Nat2Z.id. rewrite Eb.
    apply take_app_length. }
  split.
  { rewrite ET1. rewrite Z.min_r by lia. exact Etl. }
  split.
  { rewrite ET0. rewrite Z.min_r by lia. rewrite Eb, app_assoc.
    apply drop_app_length'. unfold len in *. rewrite length_app. lia. }
  split; [exact Er1|]. split; [rewrite Er0, Er1; reflexivity|].
  intros X Y HX HY.
  assert (inside (tspl.Bitmap im) X Y) as Hin1 by (unfold inside; rewrite Er1; simpl; lia).
  assert (inside (tspl.Bitmap im0) X Y) as Hin0 by (unfold inside; rewrite Er0; simpl; lia).
  unfold bin_img.IsWhite at 1 3.
  rewrite (bit_inside _ X Y Hwf1 Hin1), (bit_inside _ X Y Hwf0 Hin0).
  rewrite (Hpix1 X Y HX HY), (Hpix0 X Y HX HY). unfold decoded.
  assert (0 <= X / 8 < rb) as Hq
    by (split; [apply Z.div_pos; lia | apply Z.div_lt_upper_bound; lia]).
  assert (0 <= Y * rb /\ Y * rb + rb <= rb * ht) as [Hy1 Hy2] by nia.
  destruct (Z.ltb_spec (len hd + Y * rb + X / 8) (len cur)); [|lia].
  destruct (Z.ltb_spec (len hd + Y * rb + X / 8) (len base0)); [|lia].
  cbn [andb].
  pose proof (wf_rect _ Hwf) as Hr. unfold rect_ok, int_range in Hr.
  change (bin_img.Rect ovb) with (tspl.RectRef ov) in Hr.
  unfold pasted.
  destruct (Z.leb_spec xOff X); cbn [andb];
    [destruct (Z.ltb_spec X (xOff + width ovb)); cbn [andb];
     [destruct (Z.leb_spec yOff Y); cbn [andb];
      [destruct (Z.ltb_spec Y (yOff + height ovb)); cbn [andb]|]|]|].
  - (* a pixel of the overlay *)
    unfold bin_img.IsWhite.
    rewrite bit_inside;
      [| exact Hwf
       | unfold inside; change (bin_img.Rect ovb) with (tspl.RectRef ov);
         unfold width, height in *; change (bin_img.Rect ovb) with (tspl.RectRef ov) in *;
         lia].
    f_equal.
    specialize (Hover (X - xOff) (Y - yOff) ltac:(lia) ltac:(lia)).
    unfold patch_byte, patch_bit in Hover.
    cbn [tspl.HeaderEnd tspl.RowBytes h] in Hover.
    replace (Y - yOff + yOff) with Y in Hover by lia.
    replace (X - xOff + xOff) with X in Hover by lia.
    exact Hover.
  - f_equal. apply Hrest; [lia | pose proof (Z.mod_pos_bound X 8 ltac:(lia)); lia |].
    intros x y Hx Hy [E1' E2']. unfold patch_byte, patch_bit in E1', E2'.
    cbn [tspl.HeaderEnd tspl.RowBytes h] in E1'.
    destruct (grid_inj (8 * rb) rb X Y (x + xOff) (y + yOff)); try lia.
  - f_equal. apply Hrest; [lia | pose proof (Z.mod_pos_bound X 8 ltac:(lia)); lia |].
    intros x y Hx Hy [E1' E2']. unfold patch_byte, patch_bit in E1', E2'.
    cbn [tspl.HeaderEnd tspl.RowBytes h] in E1'.
    destruct (grid_inj (8 * rb) rb X Y (x + xOff) (y + yOff)); try lia.
  - f_equal. apply Hrest; [lia | pose proof (Z.mod_pos_bound X 8 ltac:(lia)); lia |].
    intros x y Hx Hy [E1' E2']. unfold patch_byte, patch_bit in E1', E2'.
    cbn [tspl.HeaderEnd tspl.RowBytes h] in E1'.
    destruct (grid_inj (8 * rb) rb X Y (x + xOff) (y + yOff)); try lia.
  - f_equal. apply Hrest; [lia | pose proof (Z.mod_pos_bound X 8 ltac:(lia)); lia |].
    intros x y Hx Hy [E1' E2']. unfold patch_byte, patch_bit in E1', E2'.
    cbn [tspl.HeaderEnd tspl.RowBytes h] in E1'.
    destruct (grid_inj (8 * rb) rb X Y (x + xOff) (y + yOff)); try lia.
Qed.

(** A base buffer made of a [BITMAP] header, its whole payload and a tail
    is patched by [OverlayBinary] into a buffer that [Bytes2Image] decodes
    to the base image with the overlay pasted at the offset: inside the
    pasted rectangle every pixel is the overlay's, every other pixel is the
    pixel of the decoded base, and header and tail are those of the base. *)
Theorem OverlayBinary_then_Bytes2Image st base ov xOff yOff rb ht payload tail :
  tspl.load st base = tspl.bitmap_header rb ht ++ payload ++ tail ->
  slice_ok st base ->
  0 < rb -> 0 < ht -> rb * ht <= maxAlloc -> len payload = rb * ht ->
  len tail < 2 ^ 61 ->
  wf (tspl.deref st ov) ->
  0 < width (tspl.deref st ov) -> 0 < height (tspl.deref st ov) ->
  0 <= xOff -> 0 <= yOff ->
  xOff + width (tspl.deref st ov) <= 8 * rb ->
  yOff + height (tspl.deref st ov) <= ht ->
  exists st' res im0 im,
    tspl.OverlayBinary None base (Some ov) xOff yOff st = (st', Ok res) /\
    tspl.Bytes2Image (tspl.load st base) = Ok im0 /\
    tspl.Bytes2Image (tspl.load st' res) = Ok im /\
    tspl.Header_ im = tspl.Header_ im0 /\ tspl.Tail im = tspl.Tail im0 /\
    bin_img.Rect (tspl.Bitmap im) = bin_img.Rect (tspl.Bitmap im0) /\
    forall X Y, 0 <= X < 8 * rb -> 0 <= Y < ht ->
      bin_img.IsWhite (tspl.Bitmap im) X Y =
      if pasted (tspl.deref st ov) xOff yOff X Y
      then bin_img.IsWhite (tspl.deref st ov)
             (X - xOff + MinX (tspl.RectRef ov)) (Y - yOff + MinY (tspl.RectRef ov))
      else bin_img.IsWhite (tspl.Bitmap im0) X Y.
Proof.
  intros Eb Hs Hrb Hht Hal Hlp Hlt Hwf Hw Hh Hx0 Hy0 Hxw Hyh.
  destruct (overlay_decode st base ov xOff yOff rb ht payload tail)
    as (st' & res & im0 & im & E & E0 & E1 & EH & EH0 & ET & ET0 & Er & Er0 & Hpix);
    try assumption.
  exists st', res, im0, im.
  split; [exact E|]. split; [exact E0|]. split; [exact E1|].
  split; [symmetry; exact EH0|]. split; [rewrite ET, ET0; reflexivity|].
  split; [symmetry; exact Er0 | exact Hpix].
Qed.

Lemma OverlayBinary_then_Bytes2Image_witness :
  exists st' res im0 im,
    tspl.OverlayBinary None label_base (Some dots_2x1) 3 1 label_store = (st', Ok res) /\
    tspl.Bytes2Image (tspl.load label_store label_base) = Ok im0 /\
    tspl.Bytes2Image (tspl.load st' res) = Ok im /\
    tspl.Header_ im = tspl.Header_ im0 /\ tspl.Tail im = tspl.Tail im0 /\
    bin_img.Rect (tspl.Bitmap im) = bin_img.Rect (tspl.Bitmap im0) /\
    forall X Y, 0 <= X < 8 * 1 -> 0 <= Y < 2 ->
      bin_img.IsWhite (tspl.Bitmap im) X Y =
      if pasted (tspl.deref label_store dots_2x1) 3 1 X Y
      then bin_img.IsWhite (tspl.deref label_store dots_2x1)
             (X - 3 + MinX (tspl.RectRef dots_2x1)) (Y - 1 + MinY (tspl.RectRef dots_2x1))
      else bin_img.IsWhite (tspl.Bitmap im0) X Y.
Proof.
  apply (OverlayBinary_then_Bytes2Image label_store label_base dots_2x1 3 1 1 2
           [0; 255] [10]).
  - vm_compute. reflexivity.
  - vm_compute. reflexivity.
  - lia.
  - lia.
  - vm_compute. discriminate.
  - reflexivity.
  - vm_compute. reflexivity.
  - exact dots_2x1_wf.
  - vm_compute. reflexivity.
  - vm_compute. reflexivity.
  - lia.
  - lia.
  - vm_compute. discriminate.
  - vm_compute. discriminate.
Defined.

(** [OverlayBinaryAtTopLeft] with an overlay as large as the base image
    replaces the image: the patched buffer decodes to the overlay's pixels
    at every coordinate, between the header and the tail of the base. *)
Theorem OverlayBinaryAtTopLeft_replaces st base ov rb ht payload tail :
  tspl.load st base = tspl.bitmap_header rb ht ++ payload ++ tail ->
  slice_ok st base ->
  0 < rb -> 0 < ht -> rb * ht <= maxAlloc -> len payload = rb * ht ->
  len tail < 2 ^ 61 ->
  wf (tspl.deref st ov) ->
  width (tspl.deref st ov) = 8 * rb -> height (tspl.deref st ov) = ht ->
  exists st' res im,
    tspl.OverlayBinaryAtTopLeft None base (Some ov) st = (st', Ok res) /\
    tspl.Bytes2Image (tspl.load st' res) = Ok im /\
    tspl.Header_ im = tspl.bitmap_header rb ht /\ tspl.Tail im = tail /\
    forall X Y, 0 <= X < 8 * rb -> 0 <= Y < ht ->
      bin_img.IsWhite (tspl.Bitmap im) X Y =
      bin_img.IsWhite (tspl.deref st ov)
        (X + MinX (tspl.RectRef ov)) (Y + MinY (tspl.RectRef ov)).
Proof.
  intros Eb Hs Hrb Hht Hal Hlp Hlt Hwf Hw Hh.
  destruct (overlay_decode st base ov 0 0 rb ht payload tail)
    as (st' & res & im0 & im & E & E0 & E1 & EH & EH0 & ET & ET0 & Er & Er0 & Hpix);
    try assumption; try lia.
  exists st', res, im. unfold tspl.OverlayBinaryAtTopLeft.
  split; [exact E|]. split; [exact E1|]. split; [exact EH|]. split; [exact ET|].
  intros X Y HX HY. rewrite (Hpix X Y HX HY). unfold pasted. rewrite Hw, Hh.
  destruct (Z.leb_spec 0 X); [|lia]. destruct (Z.ltb_spec X (0 + 8 * rb)); [|lia].
  destruct (Z.leb_spec 0 Y); [|lia]. destruct (Z.ltb_spec Y (0 + ht)); [|lia].
  cbn [andb]. rewrite !Z.sub_0_r. reflexivity.
Qed.

(** The label store with an overlay as large as the image. *)
Definition cover_store : tspl.store :=
  <[0%nat := bytes "BITMAP 0,0,1,2,1," ++ [0; 255; 10]]> (<[1%nat := [180; 90]]> ∅).

Definition cover_8x2 : tspl.BinaryRef :=
  {| tspl.PixRef := {| tspl.s_arr := 1; tspl.s_off := 0; tspl.s_len := 2 |};
     tspl.StrideRef := 1;
     tspl.RectRef := {| MinX := 0; MinY := 0; MaxX := 8; MaxY := 2 |} |}.

Lemma cover_8x2_wf : wf (tspl.deref cover_store cover_8x2).
Proof.
  replace (tspl.deref cover_store cover_8x2) with aligned_8x2
    by (vm_compute; reflexivity).
  exact aligned_8x2_wf.
Defined.

Lemma OverlayBinaryAtTopLeft_replaces_witness :
  exists st' res im,
    tspl.OverlayBinaryAtTopLeft None label_base (Some cover_8x2) cover_store =
      (st', Ok res) /\
    tspl.Bytes2Image (tspl.load st' res) = Ok im /\
    tspl.Header_ im = tspl.bitmap_header 1 2 /\ tspl.Tail im = [10] /\
    forall X Y, 0 <= X < 8 * 1 -> 0 <= Y < 2 ->
      bin_img.IsWhite (tspl.Bitmap im) X Y =
      bin_img.IsWhite (tspl.deref cover_store cover_8x2)
        (X + MinX (tspl.RectRef cover_8x2)) (Y + MinY (tspl.RectRef cover_8x2)).
Proof.
  apply (OverlayBinaryAtTopLeft_replaces cover_store label_base cover_8x2 1 2
           [0; 255] [10]).
  - vm_compute. reflexivity.
  - vm_compute. reflexivity.
  - lia.
  - lia.
  - vm_compute. discriminate.
  - reflexivity.
  - vm_compute. reflexivity.
  - exact cover_8x2_wf.
  - vm_compute. reflexivity.
  - vm_compute. reflexivity.
Defined.

(** ** [ToPaletted] *)

(** The index of pixel [(x, y)] in the buffer of the paletted image. *)
Definition cell (b : bin_img.Binary) (x y : Z) : Z :=
  (y - MinY (bin_img.Rect b)) * width b + (x - MinX (bin_img.Rect b)).

Definition paletted_shape (b : bin_img.Binary) (p : bin_img.Paletted) : Prop :=
  bin_img.PRect p = bin_img.Rect b /\ bin_img.PStride p = width b /\
  bin_img.Palette p = [Gray 0; Gray 255] /\
  len (bin_img.PPix p) = width b * height b.

Lemma cell_range b x y :
  inside b x y -> 0 <= cell b x y < width b * height b.
Proof.
  intros [Hx Hy]. unfold cell, width, height. nia.
Qed.

Lemma cell_inj b x y x' y' :
  inside b x y -> inside b x' y' -> cell b x y = cell b x' y' -> x = x' /\ y = y'.
Proof.
  intros [Hx Hy] [Hx' Hy'] E. unfold cell, width in E.
  assert (y = y') by nia. subst y'. split; [lia | reflexivity].
Qed.

Lemma PixOffset_ok b p x y :
  wf b -> width b * height b <= maxAlloc -> paletted_shape b p -> inside b x y ->
  bin_img.PixOffset p x y = cell b x y.
Proof.
  intros Hwf Hal (Er & Es & _ & _) Hin.
  pose proof (cell_range b x y Hin) as Hc.
  pose proof (wf_rect _ Hwf) as Hr. unfold rect_ok, int_range in Hr.
  destruct Hin as [Hx Hy]. unfold maxAlloc in Hal.
  unfold bin_img.PixOffset, cell in *. rewrite Er, Es.
  unfold width, height in *.
  assert (0 <= (y - MinY (bin_img.Rect b)) * (MaxX (bin_img.Rect b) - MinX (bin_img.Rect b)))
    by nia.
  rewrite (isub_small y) by (unfold int_range; lia).
  rewrite (isub_small x) by (unfold int_range; lia).
  rewrite (imul_small (x - _) 1) by (unfold int_range; lia).
  rewrite imul_small by (unfold int_range; lia).
  rewrite iadd_small by (unfold int_range; lia). lia.
Qed.

Lemma SetColorIndex_inside b p x y v :
  wf b -> width b * height b <= maxAlloc -> paletted_shape b p -> inside b x y ->
  exists p',
    bin_img.SetColorIndex p x y v = Ok p' /\ paletted_shape b p' /\
    forall i, 0 <= i ->
      byte_at (bin_img.PPix p') i = if i =? cell b x y then v else byte_at (bin_img.PPix p) i.
Proof.
  intros Hwf Hal Hs Hin. pose proof Hs as (Er & Es & Ep & El).
  pose proof (cell_range b x y Hin) as Hc.
  unfold bin_img.SetColorIndex. rewrite Er.
  rewrite (proj2 (In_inside b x y) Hin). cbn [negb].
  rewrite (PixOffset_ok b p x y Hwf Hal Hs Hin).
  rewrite assign_ok by lia. cbn [bind].
  eexists. split; [reflexivity|]. split.
  - unfold paletted_shape, bin_img.with_PPix. cbn.
    rewrite len_insert. repeat split; assumption.
  - intros i Hi. unfold bin_img.with_PPix. cbn [bin_img.PPix].
    apply byte_at_insert; lia.
Qed.

Lemma NewPaletted_ok b :
  wf b -> width b * height b <= maxAlloc ->
  exists p,
    bin_img.NewPaletted (bin_img.Rect b) [Gray 0; Gray 255] = Ok p /\
    paletted_shape b p.
Proof.
  intros Hwf Hal. pose proof (wf_rect _ Hwf) as Hr.
  unfold bin_img.NewPaletted. rewrite (Dx_ok _ Hr), (Dy_ok _ Hr).
  unfold rect_ok, int_range in Hr. unfold maxAlloc in Hal.
  change (MaxX (bin_img.Rect b) - MinX (bin_img.Rect b)) with (width b).
  change (MaxY (bin_img.Rect b) - MinY (bin_img.Rect b)) with (height b).
  assert (0 <= width b /\ 0 <= height b) as [Hw Hh] by (unfold width, height; lia).
  assert (width b < 2 ^ 63) as Hw63 by (unfold width; lia).
  assert (0 <= width b * height b) as Hwh by nia.
  unfold bin_img.mul3NonNeg. rewrite Z.mul_1_l.
  destruct (Z.ltb_spec (width b) 0); [lia|]. destruct (Z.ltb_spec (height b) 0); [lia|].
  cbn [orb Z.ltb Z.compare].
  destruct (Z.leb_spec (2 ^ 64) (width b)); [lia|].
  destruct (Z.leb_spec (2 ^ 64) (width b * height b)); [lia|].
  destruct (Z.leb_spec (2 ^ 63) (width b * height b)); [lia|].
  cbv zeta. destruct (Z.ltb_spec (width b * height b) 0); [lia|].
  unfold make_bytes, maxAlloc.
  destruct (Z.ltb_spec (width b * height b) 0); [lia|].
  destruct (Z.ltb_spec (2 ^ 48) (width b * height b)); [lia|].
  cbn [orb bind]. eexists. split; [reflexivity|].
  unfold paletted_shape. cbn. rewrite imul_small by (unfold int_range; lia).
  split; [reflexivity|]. split; [lia|]. split; [reflexivity|].
  unfold len. rewrite length_replicate. lia.
Qed.

Lemma ToPaletted_spec b :
  wf b -> width b * height b <= maxAlloc ->
  exists p,
    bin_img.ToPaletted b = Ok p /\ paletted_shape b p /\
    forall x y, inside b x y ->
      byte_at (bin_img.PPix p) (cell b x y) = if pixel b x y then 1 else 0.
Proof.
  intros Hwf Hal. pose proof (wf_rect _ Hwf) as Hr. unfold rect_ok, int_range in Hr.
  destruct (NewPaletted_ok b Hwf Hal) as (p0 & E0 & Hs0).
  unfold bin_img.ToPaletted. rewrite E0. cbn [bind]. cbv zeta.
  set (done := fun (y x : Z) (p : bin_img.Paletted) =>
         paletted_shape b p /\
         forall x' y', inside b x' y' -> before y x y' x' ->
           byte_at (bin_img.PPix p) (cell b x' y') = if pixel b x' y' then 1 else 0).
  destruct (for_range_inv (fun y p => done y (MinX (bin_img.Rect b)) p)
              (fun y p =>
                 for_range (MinX (bin_img.Rect b)) (MaxX (bin_img.Rect b))
                   (fun x p =>
                      v <- bin_img.bit b x y ;;
                      if v then bin_img.SetColorIndex p x y 1
                      else bin_img.SetColorIndex p x y 0) p)
              (MinY (bin_img.Rect b)) (MaxY (bin_img.Rect b)) p0)
    as (p & E & Hs & Hdone).
  - lia.
  - split; [exact Hs0|]. intros x' y' [Hx' Hy'] Hb. unfold before in Hb. lia.
  - intros y p Hy (Hs & Hd).
    destruct (for_range_inv (fun x p => done y x p)
                (fun x p =>
                   v <- bin_img.bit b x y ;;
                   if v then bin_img.SetColorIndex p x y 1
                   else bin_img.SetColorIndex p x y 0)
                (MinX (bin_img.Rect b)) (MaxX (bin_img.Rect b)) p)
      as (p' & E' & Hs' & Hd').
    + lia.
    + split; assumption.
    + intros x q Hx (Hsq & Hdq).
      assert (inside b x y) as Hin by (unfold inside; lia).
      rewrite (bit_inside b x y Hwf Hin). cbn [bind].
      destruct (SetColorIndex_inside b q x y (if pixel b x y then 1 else 0)
                  Hwf Hal Hsq Hin) as (q' & Eq & Hsq' & Hbytes).
      exists q'. split; [destruct (pixel b x y); exact Eq|].
      split; [exact Hsq'|].
      intros x' y' Hin' Hb. pose proof (cell_range b x' y' Hin') as Hc'.
      rewrite Hbytes by lia.
      destruct (Z.eqb_spec (cell b x' y') (cell b x y)) as [Ec | Ec].
      * destruct (cell_inj b x' y' x y Hin' Hin Ec) as [-> ->]. reflexivity.
      * apply Hdq; [exact Hin'|]. unfold before in *.
        assert (~ (x' = x /\ y' = y)) by (intros [-> ->]; contradiction).
        lia.
    + exists p'. split; [exact E'|]. split; [exact Hs'|].
      intros x' y' Hin' Hb. apply Hd'; [exact Hin'|].
      destruct Hin' as [Hx' Hy']. unfold before in *. lia.
  - exists p. split; [exact E|]. split; [exact Hs|].
    intros x y Hin. apply Hdone; [exact Hin|].
    destruct Hin as [Hx Hy]. unfold before. lia.
Qed.

(** [ToPaletted] of a well-formed image with at most 2^48 pixels does not
    fault.  The paletted image has the rectangle of the image, one byte a
    pixel, and the palette black, white; at every coordinate of the
    rectangle its colour index is 1 where [IsWhite] holds and 0 where it
    does not, and at every coordinate at all its [At] is the [At] of the
    image. *)
Theorem ToPaletted_same_picture b :
  wf b -> width b * height b <= maxAlloc ->
  exists p,
    bin_img.ToPaletted b = Ok p /\
    bin_img.PRect p = bin_img.Rect b /\ bin_img.PStride p = width b /\
    len (bin_img.PPix p) = width b * height b /\
    bin_img.Palette p = [Gray 0; Gray 255] /\
    (forall x y, inside b x y ->
       exists v,
         bin_img.IsWhite b x y = Ok v /\
         bin_img.ColorIndexAt p x y = Ok (if v then 1 else 0)) /\
    forall x y,
      exists c, bin_img.At b x y = Ok c /\ bin_img.Paletted_At p x y = Ok (Some c).
Proof.
  intros Hwf Hal.
  destruct (ToPaletted_spec b Hwf Hal) as (p & E & Hs & Hpix).
  pose proof Hs as (Er & Es & Ep & El).
  exists p. split; [exact E|]. split; [exact Er|]. split; [exact Es|].
  split; [exact El|]. split; [exact Ep|].
  assert (forall x y, inside b x y ->
            index (bin_img.PPix p) (bin_img.PixOffset p x y) =
            Ok (if pixel b x y then 1 else 0)) as Hidx.
  { intros x y Hin. rewrite (PixOffset_ok b p x y Hwf Hal Hs Hin).
    pose proof (cell_range b x y Hin).
    rewrite index_ok by lia. rewrite (Hpix x y Hin). reflexivity. }
  split.
  - intros x y Hin. exists (pixel b x y). unfold bin_img.IsWhite.
    split; [apply (bit_inside b x y Hwf Hin)|].
    unfold bin_img.ColorIndexAt. rewrite Er, (proj2 (In_inside b x y) Hin).
    cbn [negb]. apply Hidx. exact Hin.
  - intros x y. unfold bin_img.Paletted_At. rewrite Ep, Er.
    destruct (inside_dec b x y) as [Hin | Hout].
    + rewrite (At_inside b x y Hwf Hin), (proj2 (In_inside b x y) Hin). cbn [negb].
      rewrite (Hidx x y Hin). cbn [bind].
      destruct (pixel b x y); eexists; split; reflexivity.
    + rewrite (At_outside b x y Hout), (In_outside b x y Hout). cbn [negb].
      eexists; split; reflexivity.
Qed.

Lemma ToPaletted_same_picture_witness :
  exists p,
    bin_img.ToPaletted view_9x3 = Ok p /\
    bin_img.PRect p = bin_img.Rect view_9x3 /\ bin_img.PStride p = width view_9x3 /\
    len (bin_img.PPix p) = width view_9x3 * height view_9x3 /\
    bin_img.Palette p = [Gray 0; Gray 255] /\
    (forall x y, inside view_9x3 x y ->
       exists v,
         bin_img.IsWhite view_9x3 x y = Ok v /\
         bin_img.ColorIndexAt p x y = Ok (if v then 1 else 0)) /\
    forall x y,
      exists c,
        bin_img.At view_9x3 x y = Ok c /\ bin_img.Paletted_At p x y = Ok (Some c).
Proof.
  apply (ToPaletted_same_picture view_9x3 view_9x3_wf).
  vm_compute. discriminate.
Defined.

(** ** [Image2Bytes] then [Bytes2Image], for any width *)

(** What a loop that ran to its end kept, when every turn keeps it. *)
Lemma loop_pres {T : Type} (P : T -> Prop) (body : Z -> T -> result T) n :
  forall i s s',
    loop n i body s = Ok s' -> P s ->
    (forall j t t', i <= j < i + Z.of_nat n -> P t -> body j t = Ok t' -> P t') ->
    P s'.
Proof.
  induction n as [|n IH]; intros i s s' E Hs Hstep.
  - simpl in E. injection E as <-. exact Hs.
  - simpl in E. apply bind_Ok_inv in E. destruct E as (t & Eb & El).
    apply (IH (i + 1) t s' El).
    + apply (Hstep i s t); [lia | exact Hs | exact Eb].
    + intros j u u' Hj. apply Hstep. lia.
Qed.

Lemma for_range_pres {T : Type} (P : T -> Prop) (body : Z -> T -> result T)
    lo hi s s' :
  for_range lo hi body s = Ok s' -> P s ->
  (forall j t t', lo <= j < hi -> P t -> body j t = Ok t' -> P t') ->
  P s'.
Proof.
  unfold for_range. intros E Hs Hstep.
  apply (loop_pres P body _ lo s s' E Hs).
  intros j t t' Hj. apply Hstep. lia.
Qed.

(** The bits of the payload that belong to no pixel stay 0. *)
Lemma Image2Bytes_padding b n bitmap :
  encodable b ->
  tspl.Image2Bytes (tspl.IsBinary b) = Ok (n, bitmap) ->
  forall i k,
    len (header_of b) <= i -> 0 <= k ->
    (forall x y, 0 <= x < width b -> 0 <= y < height b ->
       ~ (i = len (header_of b) + y * row_bytes b + x / 8 /\ k = 7 - x mod 8)) ->
    getbit bitmap i k = false.
Proof.
  intros (Hwf & HX0 & HY0 & Halloc).
  pose proof (wf_rect _ Hwf) as Hr.
  unfold tspl.Image2Bytes. cbn [bind]. unfold bin_img.Bounds.
  rewrite (Dx_ok _ Hr), (Dy_ok _ Hr). unfold rect_ok, int_range in Hr.
  change (MaxX (bin_img.Rect b) - MinX (bin_img.Rect b)) with (width b).
  change (MaxY (bin_img.Rect b) - MinY (bin_img.Rect b)) with (height b).
  assert (0 <= width b /\ 0 <= height b /\ width b + 7 < 2 ^ 63) as (Hw0 & Hh0 & Hw7)
    by (unfold width, height; lia).
  rewrite (iadd_small (width b) 7) by (unfold int_range; lia).
  rewrite Z.quot_div_nonneg by lia. fold (row_bytes b). fold (header_of b).
  set (w := width b) in *. set (h := height b) in *. set (rb := row_bytes b) in *.
  set (hd := header_of b) in *. set (H := len hd) in *.
  assert (0 <= rb /\ w <= 8 * rb) as [Hrb0 Hwrb].
  { subst rb. unfold row_bytes. fold w.
    pose proof (Z.div_mod (w + 7) 8 ltac:(lia)).
    pose proof (Z.mod_pos_bound (w + 7) 8 ltac:(lia)).
    split; [apply Z.div_pos; lia | lia]. }
  assert (15 <= H <= 57) as HH by apply bitmap_header_length.
  unfold maxAlloc in Halloc.
  assert (0 <= rb * h) as Hrbh by nia.
  assert (rb *i h = rb * h) as -> by (unwrap; reflexivity).
  assert (H +i rb * h = H + rb * h) as -> by (unwrap; reflexivity).
  unfold make_bytes, maxAlloc.
  destruct (Z.ltb_spec (H + rb * h) 0); [lia|].
  destruct (Z.ltb_spec (2 ^ 48) (H + rb * h)); [lia|]. cbn [orb bind].
  rewrite copy_header by (subst H; unfold len in *; lia).
  set (N := Z.to_nat (H + rb * h)).
  intros E i k Hi Hk Hno.
  apply bind_Ok_inv in E. destruct E as (bm & E & Eres).
  injection Eres as _ <-.
  set (P := fun (bm : list Z) =>
         length bm = N /\
         forall i k, H <= i -> 0 <= k ->
           (forall x y, 0 <= x < w -> 0 <= y < h ->
              ~ (i = H + y * rb + x / 8 /\ k = 7 - x mod 8)) ->
           getbit bm i k = false).
  assert (P bm) as [_ HP]; [|apply HP; assumption].
  apply (for_range_pres P _ _ _ _ _ E).
  - split.
    + rewrite length_app, length_replicate. subst N H. unfold len in *. lia.
    + intros i' k' Hi' _ _. unfold getbit, byte_at.
      rewrite lookup_app_r by (subst H; unfold len in *; lia).
      destruct (replicate (N - length hd) 0 !! (Z.to_nat i' - length hd)%nat)
        as [v|] eqn:Ev; simpl; [|apply Z.bits_0].
      apply lookup_replicate in Ev. destruct Ev as [-> _]. apply Z.bits_0.
  - intros y t t' Hy Ht Ey.
    apply (for_range_pres P _ _ _ _ _ Ey Ht).
    intros x u u' Hx [Hlu Hu] Ex.
    assert (0 <= x / 8 < rb) as Hq
      by (split; [apply Z.div_pos; lia | apply Z.div_lt_upper_bound; lia]).
    assert (0 <= y * rb /\ y * rb + rb <= rb * h) as [Hy1 Hy2] by nia.
    pose proof (Z.mod_pos_bound x 8 ltac:(lia)) as Hm.
    unfold bin_img.IsWhite in Ex.
    rewrite bit_inside in Ex
      by (auto; unfold inside; subst w h; unfold width, height in *; lia).
    cbn [bind] in Ex.
    destruct (pixel b x y).
    + cbv zeta in Ex. rewrite Z.quot_div_nonneg, Z.rem_mod_nonneg in Ex by lia.
      assert (H +i y *i rb +i x / 8 = H + y * rb + x / 8) as Ea by (unwrap; reflexivity).
      assert (7 -i x mod 8 = 7 - x mod 8) as Eb by (unwrap; reflexivity).
      rewrite Ea, Eb in Ex.
      assert (len u = H + rb * h) as Hlenu by (unfold len; subst N; lia).
      rewrite index_ok in Ex by lia. cbn [bind] in Ex.
      rewrite bit_at_ok in Ex by lia. cbn [bind] in Ex.
      rewrite assign_ok in Ex by lia. injection Ex as <-.
      split; [rewrite length_insert; exact Hlu|].
      intros i' k' Hi' Hk' Hno'.
      change (<[Z.to_nat (H + y * rb + x / 8) :=
                Z.lor (byte_at u (H + y * rb + x / 8)) (2 ^ (7 - x mod 8))]> u)
        with (put_bit u (H + y * rb + x / 8) (7 - x mod 8) true).
      rewrite getbit_put_bit by lia.
      destruct ((i' =? H + y * rb + x / 8) && (k' =? 7 - x mod 8)) eqn:Eik.
      * exfalso. apply andb_true_iff in Eik. destruct Eik as [E1 E2].
        apply Z.eqb_eq in E1, E2. apply (Hno' x y); [lia | lia | split; assumption].
      * apply Hu; assumption.
    + injection Ex as <-. split; assumption.
Qed.

(** A [Binary] at the origin, of any width, encoded by [Image2Bytes] and
    decoded again by [Bytes2Image] (with any bytes after it): the header
    parses to the row bytes [(width + 7) / 8], the height and the header
    size that [Image2Bytes] returned; the decoded image is as wide as the
    rows, a multiple of 8; its pixels are those of the image, and the
    pixels right of the image's width are off.  An image without width or
    height is encoded, and its encoding is refused as an invalid size. *)
Theorem Image2Bytes_decoded_width b tail :
  encodable b -> len tail < 2 ^ 61 ->
  let rb := (width b + 7) / 8 in
  exists n bitmap,
    tspl.Image2Bytes (tspl.IsBinary b) = Ok (n, bitmap) /\
    tspl.ParseBitmapHeader (bitmap ++ tail) =
      Ok {| tspl.RowBytes := rb; tspl.Width := 8 * rb; tspl.Height := height b;
            tspl.HeaderEnd := n |} /\
    (width b = 0 \/ height b = 0 ->
     tspl.Bytes2Image (bitmap ++ tail) = Err (EInvalidImageSize (8 * rb) (height b))) /\
    (0 < width b -> 0 < height b ->
     exists im,
       tspl.Bytes2Image (bitmap ++ tail) = Ok im /\
       bin_img.Rect (tspl.Bitmap im) =
         {| MinX := 0; MinY := 0; MaxX := 8 * rb; MaxY := height b |} /\
       tspl.Tail im = tail /\
       forall x y, 0 <= x < 8 * rb -> 0 <= y < height b ->
         bin_img.IsWhite (tspl.Bitmap im) x y =
         if x <? width b then bin_img.IsWhite b x y else Ok false).
Proof.
  intros Hb Hlt rb. pose proof Hb as (Hwf & HX0 & HY0 & Halloc).
  destruct (Image2Bytes_spec b Hb) as (payload & E & Hl & Hbits).
  pose proof (Image2Bytes_padding b _ _ Hb E) as Hpad.
  unfold header_of, row_bytes in *. fold rb in E, Hl, Hbits, Hpad, Halloc.
  set (h := height b) in *. set (w := width b) in *.
  set (hd := tspl.bitmap_header rb h) in *.
  pose proof (wf_rect _ Hwf) as Hr. unfold rect_ok, int_range in Hr.
  assert (0 <= w /\ 0 <= h < 2 ^ 63 /\ w + 7 < 2 ^ 63) as (Hw0 & Hh0 & Hw7)
    by (unfold w, h, width, height; lia).
  assert (0 <= rb /\ w <= 8 * rb /\ 8 * rb < w + 8) as (Hrb0 & Hwrb & Hrbw).
  { unfold rb. pose proof (Z.div_mod (w + 7) 8 ltac:(lia)).
    pose proof (Z.mod_pos_bound (w + 7) 8 ltac:(lia)).
    split; [apply Z.div_pos; lia | lia]. }
  pose proof (bitmap_header_length rb h) as Hlh. fold hd in Hlh.
  pose proof (len_nonneg tail) as Ht0.
  unfold maxAlloc in Halloc.
  assert (0 <= rb * h) as Hrbh by nia.
  assert (rb *i 8 = 8 * rb) as EW by (unwrap; lia).
  set (hdr := {| tspl.RowBytes := rb; tspl.Width := 8 * rb; tspl.Height := h;
                 tspl.HeaderEnd := len hd |}).
  assert (tspl.ParseBitmapHeader ((hd ++ payload) ++ tail) = Ok hdr) as Hparse.
  { rewrite <- app_assoc. unfold hd, hdr. rewrite <- EW.
    apply ParseBitmapHeader_printed; lia. }
  exists (len hd), (hd ++ payload).
  split; [exact E|]. split; [exact Hparse|]. split.
  - intros Hz. unfold tspl.Bytes2Image. rewrite Hparse. cbn [bind]. cbv zeta.
    unfold hdr. cbn [tspl.Width tspl.Height].
    assert ((8 * rb <=? 0) || (h <=? 0) = true) as ->; [|reflexivity].
    apply orb_true_iff. destruct Hz; [left | right]; apply Z.leb_le; lia.
  - intros Hw Hh.
    assert (len ((hd ++ payload) ++ tail) = len hd + rb * h + len tail) as Hlb.
    { unfold len in *. rewrite !length_app. lia. }
    destruct (Bytes2Image_spec _ hdr Hparse) as
      (im & Ei & _ & ET & Hwfi & (Er & _) & Hpix);
      unfold hdr; cbn [tspl.RowBytes tspl.Width tspl.Height tspl.HeaderEnd];
      unfold maxAlloc; try lia.
    unfold hdr in *. cbn [tspl.RowBytes tspl.Width tspl.Height tspl.HeaderEnd] in *.
    simpl in Er.
    exists im. split; [exact Ei|]. split; [exact Er|]. split.
    { rewrite ET. rewrite Z.min_r by lia. apply drop_app_length'.
      unfold len in *. rewrite length_app. lia. }
    intros x y Hx Hy.
    assert (inside (tspl.Bitmap im) x y) as Hin by (unfold inside; rewrite Er; simpl; lia).
    unfold bin_img.IsWhite at 1. rewrite (bit_inside _ x y Hwfi Hin).
    rewrite (Hpix x y Hx Hy). unfold decoded.
    assert (0 <= x / 8 < rb) as Hq
      by (split; [apply Z.div_pos; lia | apply Z.div_lt_upper_bound; lia]).
    assert (0 <= y * rb /\ y * rb + rb <= rb * h) as [Hy1 Hy2] by nia.
    pose proof (Z.mod_pos_bound x 8 ltac:(lia)) as Hm.
    destruct (Z.ltb_spec (len hd + y * rb + x / 8) (len ((hd ++ payload) ++ tail)));
      [|lia].
    cbn [andb].
    rewrite getbit_app_l by (unfold len in *; rewrite length_app; lia).
    destruct (Z.ltb_spec x w) as [Hxw | Hxw].
    + unfold bin_img.IsWhite. rewrite bit_inside;
        [| exact Hwf | unfold inside; unfold w, h, width, height in *; lia].
      rewrite Hbits by lia. reflexivity.
    + f_equal. apply Hpad; [lia | lia |].
      intros x' y' Hx' Hy' [E1 E2].
      destruct (grid_inj (8 * rb) rb x y x' y'); try lia.
Qed.

(** A 9x2 image at the origin: two bytes a row, of which 9 bits show. *)
Definition origin_9x2 : bin_img.Binary :=
  {| bin_img.Pix := [180; 128; 90; 0]; bin_img.Stride := 2;
     bin_img.Rect := {| MinX := 0; MinY := 0; MaxX := 9; MaxY := 2 |} |}.

Lemma origin_9x2_encodable : encodable origin_9x2.
Proof.
  split; [|split; [reflexivity | split; [reflexivity | vm_compute; discriminate]]].
  wf_by_computation.
Defined.

Lemma Image2Bytes_decoded_width_witness :
  exists n bitmap im,
    tspl.Image2Bytes (tspl.IsBinary origin_9x2) = Ok (n, bitmap) /\
    tspl.ParseBitmapHeader (bitmap ++ [10]) =
      Ok {| tspl.RowBytes := 2; tspl.Width := 16; tspl.Height := 2;
            tspl.HeaderEnd := n |} /\
    tspl.Bytes2Image (bitmap ++ [10]) = Ok im /\
    bin_img.Rect (tspl.Bitmap im) = {| MinX := 0; MinY := 0; MaxX := 16; MaxY := 2 |} /\
    tspl.Tail im = [10] /\
    forall x y, 0 <= x < 16 -> 0 <= y < 2 ->
      bin_img.IsWhite (tspl.Bitmap im) x y =
      if x <? 9 then bin_img.IsWhite origin_9x2 x y else Ok false.
Proof.
  destruct (Image2Bytes_decoded_width origin_9x2 [10] origin_9x2_encodable)
    as (n & bitmap & E & Hp & _ & H); [vm_compute; reflexivity|].
  destruct H as (im & Ei & Er & Et & Hpix); [reflexivity | reflexivity |].
  exists n, bitmap, im. repeat split; assumption.
Defined.
